(** * UniPool: the booking / seat-reservation core

    A shallow embedding of the booking lifecycle implemented in
    [server/storage.ts] (class [MongoStorage]), [server/routes.ts] (the
    [/api/bookings] and [/api/rides/:id] handlers) and the Mongoose schemas
    of [server/db.ts].

    - A Mongoose collection is a finite map from [_id] to document body.
    - An [async] method is a computation over the store that either returns
      a value or throws; [await] is the monadic bind.
    - Seat counts are JavaScript numbers.  The operations are given first
      over whole seat counts (integers, [Z]), in which the status
      lifecycle, the answers of the handlers and the listings are studied.
      Module [Double], further down, gives the booking core once more over
      binary64 numbers; what depends on the arithmetic of the seat counts
      (seat conservation, the bounds of the counter, release after
      reserve, repeated refunds, the ride card's button) is stated there.
    - The geographic coordinates of a ride are read by none of the
      operations below, and are left out of the ride record.
    - [randomUUID()] is an input of the operation that calls it. *)

From stdpp Require Import gmap strings list fin_maps sorting.
From Stdlib Require Import ZArith Floats.

Local Open Scope Z_scope.
Set Warnings "-inexact-float".

(** ** Documents ([server/db.ts]) *)

(** [mapDoc] turns a stored document into a plain object carrying [id]. *)
Record WithId (A : Type) := mkWithId { id_of : string; fields : A }.
Arguments mkWithId {A} _ _.
Arguments id_of {A} _.
Arguments fields {A} _.

Definition mapDoc {A : Type} (_id : string) (d : A) : WithId A :=
  {| id_of := _id; fields := d |}.

Module User.
Inductive Role := passenger | driver | both.
Inductive CnicStatus := not_uploaded | cnic_pending | verified | cnic_rejected.

(** [password] is optional because [stripPassword] removes the field. *)
Record t := mk {
  clerkId : option string;
  name : string;
  email : string;
  password : option string;
  role : Role;
  avatar : option string;
  phone : option string;
  cnic : option string;
  cnicStatus : CnicStatus;
  isAdmin : bool
}.
End User.

Module Vehicle.
Record t := mk {
  ownerId : string;
  model : string;
  plate : string;
  color : string;
  seats : Z
}.
End Vehicle.

Module Ride.
Inductive Status := scheduled | ongoing | completed.

Record t := mk {
  driverId : string;
  vehicleId : option string;
  sourceAddress : string;
  destAddress : string;
  departureTime : Z;
  seatsTotal : Z;
  seatsAvailable : Z;
  costPerSeat : Z;
  isActive : bool;
  status : Status
}.

(** [Partial<Ride>]: the fields a caller of [updateRide] may set. *)
Record partial := mkPartial {
  p_seatsTotal : option Z;
  p_seatsAvailable : option Z;
  p_costPerSeat : option Z;
  p_isActive : option bool;
  p_status : option Status
}.

Definition patch (data : partial) (r : t) : t :=
  {| driverId := driverId r;
     vehicleId := vehicleId r;
     sourceAddress := sourceAddress r;
     destAddress := destAddress r;
     departureTime := departureTime r;
     seatsTotal := default (seatsTotal r) (p_seatsTotal data);
     seatsAvailable := default (seatsAvailable r) (p_seatsAvailable data);
     costPerSeat := default (costPerSeat r) (p_costPerSeat data);
     isActive := default (isActive r) (p_isActive data);
     status := default (status r) (p_status data) |}.

(** The object literal [{ seatsAvailable: n }]. *)
Definition only_seatsAvailable (n : Z) : partial :=
  {| p_seatsTotal := None; p_seatsAvailable := Some n;
     p_costPerSeat := None; p_isActive := None; p_status := None |}.
End Ride.

Module Booking.
Inductive Status := pending | accepted | rejected | cancelled.

Global Instance Status_eq_dec : EqDecision Status.
Proof. solve_decision. Defined.

(** The body of a booking document; also the [InsertBooking] payload. *)
Record t := mk {
  rideId : string;
  passengerId : string;
  status : Status;
  seatsBooked : Z
}.

(** [Partial<Booking>], the request body of [PATCH /api/bookings/:id]. *)
Record partial := mkPartial {
  p_rideId : option string;
  p_passengerId : option string;
  p_status : option Status;
  p_seatsBooked : option Z
}.

Definition patch (data : partial) (b : t) : t :=
  {| rideId := default (rideId b) (p_rideId data);
     passengerId := default (passengerId b) (p_passengerId data);
     status := default (status b) (p_status data);
     seatsBooked := default (seatsBooked b) (p_seatsBooked data) |}.

(** The object literal [{ status: s }]. *)
Definition only_status (s : Status) : partial :=
  {| p_rideId := None; p_passengerId := None;
     p_status := Some s; p_seatsBooked := None |}.
End Booking.

Abbreviation User := (WithId User.t).
Abbreviation Ride := (WithId Ride.t).
Abbreviation Booking := (WithId Booking.t).

(** [BookingWithDetails]: a booking spread together with its ride, its
    passenger and, when found, the driver. *)
Record BookingWithDetails := mkDetails {
  bd_booking : Booking;
  bd_ride : Ride;
  bd_passenger : User;
  bd_driver : option User
}.

(** ** The store and the computations over it *)

Record Store := mkStore {
  users : gmap string User.t;
  vehicles : gmap string Vehicle.t;
  rides : gmap string Ride.t;
  bookings : gmap string Booking.t
}.

Definition set_rides (f : gmap string Ride.t → gmap string Ride.t) (st : Store) : Store :=
  {| users := users st; vehicles := vehicles st;
     rides := f (rides st); bookings := bookings st |}.

Definition set_bookings (f : gmap string Booking.t → gmap string Booking.t) (st : Store) : Store :=
  {| users := users st; vehicles := vehicles st;
     rides := rides st; bookings := f (bookings st) |}.

Inductive Outcome (A : Type) :=
  | Returned (a : A)
  | Thrown (e : string).
Arguments Returned {A} _.
Arguments Thrown {A} _.

Definition Async (A : Type) : Type := Store → Outcome A * Store.

Global Instance Async_ret : MRet Async := λ A a st, (Returned a, st).

Global Instance Async_bind : MBind Async := λ A B f m st,
  match m st with
  | (Returned a, st') => f a st'
  | (Thrown e, st') => (Thrown e, st')
  end.

(** [for (const x of xs) { await body(x); }] *)
Fixpoint for_of {A : Type} (xs : list A) (body : A → Async unit) : Async unit :=
  match xs with
  | [] => mret tt
  | x :: xs' => body x;; for_of xs' body
  end.

(** [if (c) { await m; }] *)
Definition when (c : bool) (m : Async unit) : Async unit :=
  if c then m else mret tt.

(** ** Mongoose model operations *)

Definition UserModel_findById (_id : string) : Async (option User.t) :=
  λ st, (Returned (users st !! _id), st).

Definition RideModel_findById (_id : string) : Async (option Ride.t) :=
  λ st, (Returned (rides st !! _id), st).

(** [findByIdAndUpdate(id, data, { new: true })]: sets the given fields and
    returns the updated document, or [null] when the id is absent. *)
Definition RideModel_findByIdAndUpdate (_id : string) (data : Ride.partial)
  : Async (option Ride.t) :=
  λ st, match rides st !! _id with
        | Some d => let d' := Ride.patch data d in
                    (Returned (Some d'), set_rides (insert _id d') st)
        | None => (Returned None, st)
        end.

(** [findByIdAndDelete(id)] returns the removed document, if any. *)
Definition RideModel_findByIdAndDelete (_id : string) : Async (option Ride.t) :=
  λ st, (Returned (rides st !! _id), set_rides (delete _id) st).

Definition BookingModel_findById (_id : string) : Async (option Booking.t) :=
  λ st, (Returned (bookings st !! _id), st).

(** [BookingModel.find(query)]: the matching documents with their [_id],
    in the order the collection enumerates them. *)
Definition BookingModel_find (query : Booking.t → bool)
  : Async (list (string * Booking.t)) :=
  λ st, (Returned (filter (λ kb, query kb.2 = true) (map_to_list (bookings st))), st).

Definition BookingModel_findByIdAndUpdate (_id : string) (data : Booking.partial)
  : Async (option Booking.t) :=
  λ st, match bookings st !! _id with
        | Some d => let d' := Booking.patch data d in
                    (Returned (Some d'), set_bookings (insert _id d') st)
        | None => (Returned None, st)
        end.

(** The [bookingSchema] marks [rideId] and [passengerId] as required
    strings, which Mongoose refuses when empty; [status] is in the enum by
    typing; [_id] is unique. *)
Definition bookingSchema_valid (d : Booking.t) : bool :=
  negb (String.eqb (Booking.rideId d) EmptyString)
  && negb (String.eqb (Booking.passengerId d) EmptyString).

Definition BookingModel_create (_id : string) (d : Booking.t) : Async Booking.t :=
  λ st, if negb (bookingSchema_valid d) then (Thrown "ValidationError", st)
        else match bookings st !! _id with
             | Some _ => (Thrown "E11000 duplicate key", st)
             | None => (Returned d, set_bookings (insert _id d) st)
             end.

(** ** [MongoStorage] ([server/storage.ts]) *)

Definition stripPassword (user : User) : User :=
  let u := fields user in
  {| id_of := id_of user;
     fields := {| User.clerkId := User.clerkId u; User.name := User.name u;
               User.email := User.email u; User.password := None;
               User.role := User.role u; User.avatar := User.avatar u;
               User.phone := User.phone u; User.cnic := User.cnic u;
               User.cnicStatus := User.cnicStatus u;
               User.isAdmin := User.isAdmin u |} |}.

Definition getSafeDriver (driver : option User) (driverId : string) : User :=
  match driver with
  | Some driver => stripPassword driver
  | None =>
      {| id_of := driverId;
         fields := {| User.clerkId := None; User.name := "Unknown Driver";
                   User.email := "missing@data.com"; User.password := Some EmptyString;
                   User.role := User.driver; User.avatar := None;
                   User.phone := None; User.cnic := None;
                   User.cnicStatus := User.not_uploaded;
                   User.isAdmin := false |} |}
  end.

Definition getUser (id : string) : Async (option User) :=
  doc ← UserModel_findById id;
  mret (mapDoc id <$> doc).

Definition getRide (id : string) : Async (option Ride) :=
  doc ← RideModel_findById id;
  mret (mapDoc id <$> doc).

Definition updateRide (id : string) (data : Ride.partial) : Async (option Ride) :=
  doc ← RideModel_findByIdAndUpdate id data;
  mret (mapDoc id <$> doc).

Definition deleteRide (id : string) : Async bool :=
  bookings ← BookingModel_find
    (λ b, bool_decide (Booking.rideId b = id)
          && bool_decide (Booking.status b = Booking.pending));
  for_of bookings (λ booking,
    BookingModel_findByIdAndUpdate booking.1 (Booking.only_status Booking.rejected);;
    mret tt);;
  result ← RideModel_findByIdAndDelete id;
  mret (bool_decide (is_Some result)).

Definition getBooking (id : string) : Async (option Booking) :=
  doc ← BookingModel_findById id;
  mret (mapDoc id <$> doc).

Definition getBookingWithDetails (id : string) : Async (option BookingWithDetails) :=
  booking ← getBooking id;
  match booking with
  | None => mret None
  | Some booking =>
      ride ← getRide (Booking.rideId (fields booking));
      match ride with
      | None => mret None
      | Some ride =>
          passenger ← getUser (Booking.passengerId (fields booking));
          let safePassenger :=
            getSafeDriver passenger (Booking.passengerId (fields booking)) in
          driver ← getUser (Ride.driverId (fields ride));
          let safeDriver := stripPassword <$> driver in
          mret (Some {| bd_booking := booking; bd_ride := ride;
                        bd_passenger := safePassenger;
                        bd_driver := safeDriver |})
      end
  end.

(** The loop shared by [getBookingsByPassenger] and [getBookingsByRide]:
    [results.push(details)] for every booking whose details are found. *)
Fixpoint push_details (bookings : list (string * Booking.t))
    (results : list BookingWithDetails) : Async (list BookingWithDetails) :=
  match bookings with
  | [] => mret results
  | b :: rest =>
      details ← getBookingWithDetails b.1;
      match details with
      | Some details => push_details rest (results ++ [details])
      | None => push_details rest results
      end
  end.

Definition getBookingsByPassenger (passengerId : string)
  : Async (list BookingWithDetails) :=
  bookings ← BookingModel_find
    (λ b, bool_decide (Booking.passengerId b = passengerId));
  push_details bookings [].

Definition getBookingsByRide (rideId : string)
  : Async (list BookingWithDetails) :=
  bookings ← BookingModel_find (λ b, bool_decide (Booking.rideId b = rideId));
  push_details bookings [].

(** [uuid] is the value [randomUUID()] returns in this call. *)
Definition createBooking (uuid : string) (insertBooking : Booking.t) : Async Booking :=
  let id := uuid in
  doc ← BookingModel_create id insertBooking;
  mret (mapDoc id doc).

Definition updateBooking (id : string) (data : Booking.partial)
  : Async (option Booking) :=
  existingBooking ← getBooking id;
  match existingBooking with
  | None => mret None
  | Some existingBooking =>
      doc ← BookingModel_findByIdAndUpdate id data;
      let booking := mapDoc id <$> doc in
      match booking with
      | Some booking =>
          ride ← getRide (Booking.rideId (fields booking));
          match ride with
          | Some ride =>
              when (bool_decide (Booking.p_status data = Some Booking.rejected)
                    && bool_decide (Booking.status (fields existingBooking) = Booking.pending))
                (updateRide (id_of ride)
                   (Ride.only_seatsAvailable
                      (Ride.seatsAvailable (fields ride)
                       + Booking.seatsBooked (fields booking)));;
                 mret tt);;
              when (bool_decide (Booking.p_status data = Some Booking.cancelled)
                    && (bool_decide (Booking.status (fields existingBooking) = Booking.accepted)
                        || bool_decide (Booking.status (fields existingBooking) = Booking.pending)))
                (updateRide (id_of ride)
                   (Ride.only_seatsAvailable
                      (Ride.seatsAvailable (fields ride)
                       + Booking.seatsBooked (fields booking)));;
                 mret tt);;
              mret (Some booking)
          | None => mret (Some booking)
          end
      | None => mret None
      end
  end.

(** ** The booking routes ([server/routes.ts]) *)

Inductive Message :=
  | ValidationFailed
  | RideNotFound
  | OnlySeatsAvailable (n : Z)
  | BookingFailed
  | BookingNotFound.

(** [res.json(a)], or [res.status(code).json({ message })]; [Unhandled]
    stands for a rejection that escapes a handler written without [try],
    in which case nothing is sent. *)
Inductive Response (A : Type) :=
  | Json (a : A)
  | Status (code : Z) (message : Message)
  | Unhandled (e : string).
Arguments Json {A} _.
Arguments Status {A} _ _.
Arguments Unhandled {A} _.

(** The request body of [POST /api/bookings]; [seatsBooked] may be absent. *)
Record CreateBookingBody := mkBody {
  body_rideId : string;
  body_passengerId : string;
  body_seatsBooked : option Z
}.

(** [createBookingSchema.safeParse]: [seatsBooked] is
    [z.number().min(1).default(1)]. *)
Definition createBookingSchema_safeParse (body : CreateBookingBody)
  : option (string * string * Z) :=
  let seatsBooked := default 1 (body_seatsBooked body) in
  if seatsBooked <? 1 then None
  else Some (body_rideId body, body_passengerId body, seatsBooked).

(** A handler is the store transformer with the response it sends. *)
Definition Handler (A : Type) : Type := Store → Response A * Store.

(** The body of the handler's [try] block. *)
Definition post_bookings_try (uuid : string) (body : CreateBookingBody)
  : Async (Response Booking) :=
  match createBookingSchema_safeParse body with
  | None => mret (Status 400 ValidationFailed)
  | Some (rideId, passengerId, seatsBooked) =>
      ride ← getRide rideId;
      match ride with
      | None => mret (Status 404 RideNotFound)
      | Some ride =>
          if Ride.seatsAvailable (fields ride) <? seatsBooked then
            mret (Status 400 (OnlySeatsAvailable (Ride.seatsAvailable (fields ride))))
          else
            booking ← createBooking uuid
              {| Booking.rideId := rideId; Booking.passengerId := passengerId;
                 Booking.status := Booking.pending;
                 Booking.seatsBooked := seatsBooked |};
            let newSeatsAvailable := Ride.seatsAvailable (fields ride) - seatsBooked in
            updateRide rideId (Ride.only_seatsAvailable newSeatsAvailable);;
            mret (Json booking)
      end
  end.

(** [POST /api/bookings]: the [catch] clause answers 400 "Booking failed". *)
Definition post_bookings (uuid : string) (body : CreateBookingBody)
  : Handler Booking :=
  λ st, match post_bookings_try uuid body st with
        | (Returned r, st') => (r, st')
        | (Thrown _, st') => (Status 400 BookingFailed, st')
        end.

(** [PATCH /api/bookings/:id] *)
Definition patch_bookings (id : string) (data : Booking.partial)
  : Handler Booking :=
  λ st, match updateBooking id data st with
        | (Returned (Some booking), st') => (Json booking, st')
        | (Returned None, st') => (Status 404 BookingNotFound, st')
        | (Thrown e, st') => (Unhandled e, st')
        end.

(** [DELETE /api/rides/:id] *)
Definition delete_rides (id : string) : Handler bool :=
  λ st, match deleteRide id st with
        | (Returned true, st') => (Json true, st')
        | (Returned false, st') => (Status 404 RideNotFound, st')
        | (Thrown e, st') => (Unhandled e, st')
        end.

(** ** Request sequences *)

Inductive Request :=
  | PostBooking (uuid : string) (body : CreateBookingBody)
  | PatchBooking (id : string) (data : Booking.partial)
  | DeleteRide (id : string).

(** The store a request leaves behind. *)
Definition handle (req : Request) (st : Store) : Store :=
  match req with
  | PostBooking uuid body => (post_bookings uuid body st).2
  | PatchBooking id data => (patch_bookings id data st).2
  | DeleteRide id => (delete_rides id st).2
  end.

Definition serve (reqs : list Request) (st : Store) : Store :=
  foldl (λ st req, handle req st) st reqs.

Inductive ReadCall :=
  | ListForRide (rideId : string)
  | ListForPassenger (passengerId : string).

Definition read (c : ReadCall) : Async (list BookingWithDetails) :=
  match c with
  | ListForRide rideId => getBookingsByRide rideId
  | ListForPassenger passengerId => getBookingsByPassenger passengerId
  end.

(** The calls made one after the other, with the list of their results. *)
Fixpoint read_all (cs : list ReadCall) : Async (list (list BookingWithDetails)) :=
  match cs with
  | [] => mret []
  | c :: cs' => v ← read c; vs ← read_all cs'; mret (v :: vs)
  end.

(** ** Closed forms of the writes *)

(** The condition under which [updateBooking] writes a refund. *)
Definition refund_due (data : Booking.partial) (old : Booking.Status) : bool :=
  bool_decide (Booking.p_status data = Some Booking.rejected)
    && bool_decide (old = Booking.pending)
  || bool_decide (Booking.p_status data = Some Booking.cancelled)
     && (bool_decide (old = Booking.accepted) || bool_decide (old = Booking.pending)).

(** [updateRide(k, { seatsAvailable: r.seatsAvailable + n })] on ride [r]. *)
Definition refund (k : string) (r : Ride.t) (n : Z) (st : Store) : Store :=
  set_rides (insert k (Ride.patch (Ride.only_seatsAvailable (Ride.seatsAvailable r + n)) r)) st.

(** [updateRide(k, { seatsAvailable: r.seatsAvailable - n })] on ride [r]. *)
Definition reserve (k : string) (r : Ride.t) (n : Z) (st : Store) : Store :=
  set_rides (insert k (Ride.patch (Ride.only_seatsAvailable (Ride.seatsAvailable r - n)) r)) st.

(** The payload [POST /api/bookings] hands to [createBooking]. *)
Definition pending_booking (rideId passengerId : string) (seatsBooked : Z) : Booking.t :=
  {| Booking.rideId := rideId; Booking.passengerId := passengerId;
     Booking.status := Booking.pending; Booking.seatsBooked := seatsBooked |}.

(** What [deleteRide] leaves of a booking. *)
Definition reject_if_pending_on (rideId : string) (b : Booking.t) : Booking.t :=
  if bool_decide (Booking.rideId b = rideId)
     && bool_decide (Booking.status b = Booking.pending)
  then Booking.patch (Booking.only_status Booking.rejected) b
  else b.

(** ** The vocabulary of the specification *)

(** The seats a booking holds on ride [k]: its [seatsBooked] while it is
    pending or accepted, nothing otherwise. *)
Definition occupies (k : string) (b : Booking.t) : Z :=
  if bool_decide (Booking.rideId b = k)
     && (bool_decide (Booking.status b = Booking.pending)
         || bool_decide (Booking.status b = Booking.accepted))
  then Booking.seatsBooked b
  else 0.

(** Σ [seatsBooked] over the bookings of ride [k] in {pending, accepted}. *)
Definition seatsReserved (bs : gmap string Booking.t) (k : string) : Z :=
  map_fold (λ _ b acc, occupies k b + acc) 0 bs.

(** Seat conservation, for every ride of the store. *)
Definition conservation (st : Store) : Prop :=
  ∀ k r, rides st !! k = Some r →
    Ride.seatsAvailable r + seatsReserved (bookings st) k = Ride.seatsTotal r.

(** The permitted transitions of the specification's table (§4.2). *)
Definition in_table (old new : Booking.Status) : bool :=
  match old, new with
  | Booking.pending, Booking.accepted
  | Booking.pending, Booking.rejected
  | Booking.pending, Booking.cancelled
  | Booking.accepted, Booking.cancelled => true
  | _, _ => false
  end.

(** The transitions to which the table attaches a refund. *)
Definition releases_seats (old new : Booking.Status) : bool :=
  match old, new with
  | Booking.pending, Booking.rejected
  | Booking.pending, Booking.cancelled
  | Booking.accepted, Booking.cancelled => true
  | _, _ => false
  end.

(** [Some s] when the body is exactly [{ status: s }]. *)
Definition status_only (data : Booking.partial) : option Booking.Status :=
  match data with
  | {| Booking.p_rideId := None; Booking.p_passengerId := None;
       Booking.p_status := Some s; Booking.p_seatsBooked := None |} => Some s
  | _ => None
  end.

Definition sets_status_only (req : Request) : bool :=
  match req with
  | PatchBooking _ data => bool_decide (is_Some (status_only data))
  | _ => true
  end.

(** The specification's failing [setStatus]: an error answer that leaves
    the booking's status and every ride as they were. *)
Definition transition_refused (id : string) (s : Booking.Status) (st : Store) : Prop :=
  let answer := patch_bookings id (Booking.only_status s) st in
  (∃ code message, answer.1 = Status code message)
  ∧ Booking.status <$> bookings answer.2 !! id = Booking.status <$> bookings st !! id
  ∧ rides answer.2 = rides st.

(** The specification's [deactivateRide]: the ride stays in the catalog,
    inactive, with the seats of its pending bookings refunded. *)
Definition deactivated_with_refund (id : string) (refunded : Z) (st st' : Store) : Prop :=
  ∃ r r', rides st !! id = Some r ∧ rides st' !! id = Some r'
    ∧ Ride.isActive r' = false
    ∧ Ride.seatsAvailable r' = Ride.seatsAvailable r + refunded.

(** ** Sample stores (the scenarios of the specification, §8) *)

Definition campus_ride (seatsTotal seatsAvailable : Z) : Ride.t :=
  {| Ride.driverId := "driver-1"; Ride.vehicleId := None;
     Ride.sourceAddress := "Hostel"; Ride.destAddress := "Campus";
     Ride.departureTime := 0;
     Ride.seatsTotal := seatsTotal; Ride.seatsAvailable := seatsAvailable;
     Ride.costPerSeat := 150; Ride.isActive := true;
     Ride.status := Ride.scheduled |}.

Definition booking_on (status : Booking.Status) (seatsBooked : Z) : Booking.t :=
  {| Booking.rideId := "ride-1"; Booking.passengerId := "passenger-1";
     Booking.status := status; Booking.seatsBooked := seatsBooked |}.

Definition request_seats (n : Z) : CreateBookingBody :=
  {| body_rideId := "ride-1"; body_passengerId := "passenger-1";
     body_seatsBooked := Some n |}.

(** Scenario A: a fresh ride with three seats. *)
Definition store_A : Store :=
  {| users := ∅; vehicles := ∅;
     rides := {[ "ride-1" := campus_ride 3 3 ]}; bookings := ∅ |}.

(** Scenario B: one seat left, the other two held by an accepted booking. *)
Definition store_B : Store :=
  {| users := ∅; vehicles := ∅;
     rides := {[ "ride-1" := campus_ride 3 1 ]};
     bookings := {[ "booking-1" := booking_on Booking.accepted 2 ]} |}.

(** Scenario C: a pending booking of two seats. *)
Definition store_C : Store :=
  {| users := ∅; vehicles := ∅;
     rides := {[ "ride-1" := campus_ride 3 1 ]};
     bookings := {[ "booking-1" := booking_on Booking.pending 2 ]} |}.

(** Scenario D: a full ride with two pending bookings of 1 and 2 seats. *)
Definition store_D : Store :=
  {| users := ∅; vehicles := ∅;
     rides := {[ "ride-1" := campus_ride 3 0 ]};
     bookings := {[ "booking-1" := booking_on Booking.pending 1;
                    "booking-2" := booking_on Booking.pending 2 ]} |}.

(** Scenario E after the first cancellation. *)
Definition store_E : Store :=
  {| users := ∅; vehicles := ∅;
     rides := {[ "ride-1" := campus_ride 3 3 ]};
     bookings := {[ "booking-1" := booking_on Booking.cancelled 2 ]} |}.

Definition set_status (s : Booking.Status) : Request :=
  PatchBooking "booking-1" (Booking.only_status s).

Definition scenario_A : list Request :=
  [ PostBooking "booking-1" (request_seats 2);
    set_status Booking.accepted; set_status Booking.cancelled ].

(** Cancel, reopen, cancel again: the refund is written twice. *)
Definition cancel_twice : list Request :=
  [ PostBooking "booking-1" (request_seats 2);
    set_status Booking.cancelled; set_status Booking.pending;
    set_status Booking.cancelled ].

(** * The rest of [MongoStorage] and of the routes

    [InsertUser], [InsertVehicle] and [InsertRide] are, like
    [InsertBooking], the document bodies.  The zod schemas of
    [@shared/schema] are not among the sources: a handler that starts with
    [schema.safeParse(req.body)] takes the outcome of that call as its
    argument.  The [reviews] collection is no part of [Store]:
    [getAllBookings] and [deleteUser], further down, take it beside the
    store.  [getDriverStats], [getDriverAverageRating] (a rounded
    floating-point mean) and the review and upload routes are not
    modelled. *)

Definition set_users (f : gmap string User.t → gmap string User.t) (st : Store) : Store :=
  {| users := f (users st); vehicles := vehicles st;
     rides := rides st; bookings := bookings st |}.

Definition set_vehicles (f : gmap string Vehicle.t → gmap string Vehicle.t) (st : Store) : Store :=
  {| users := users st; vehicles := f (vehicles st);
     rides := rides st; bookings := bookings st |}.

(** [a || b] on an optional string: [undefined], [null] and the empty
    string are falsy. *)
Definition truthy (s : option string) : option string :=
  match s with
  | Some EmptyString => None
  | _ => s
  end.

(** [Partial<User>], the body of [PATCH /api/users/:id]. *)
Record UserPartial := mkUserPartial {
  up_clerkId : option (option string);
  up_name : option string;
  up_email : option string;
  up_password : option string;
  up_role : option User.Role;
  up_avatar : option (option string);
  up_phone : option (option string);
  up_cnic : option (option string);
  up_cnicStatus : option User.CnicStatus;
  up_isAdmin : option bool
}.

Definition User_patch (data : UserPartial) (u : User.t) : User.t :=
  {| User.clerkId := default (User.clerkId u) (up_clerkId data);
     User.name := default (User.name u) (up_name data);
     User.email := default (User.email u) (up_email data);
     User.password :=
       match up_password data with
       | Some p => Some p
       | None => User.password u
       end;
     User.role := default (User.role u) (up_role data);
     User.avatar := default (User.avatar u) (up_avatar data);
     User.phone := default (User.phone u) (up_phone data);
     User.cnic := default (User.cnic u) (up_cnic data);
     User.cnicStatus := default (User.cnicStatus u) (up_cnicStatus data);
     User.isAdmin := default (User.isAdmin u) (up_isAdmin data) |}.

Definition no_user_change : UserPartial :=
  {| up_clerkId := None; up_name := None; up_email := None;
     up_password := None; up_role := None; up_avatar := None;
     up_phone := None; up_cnic := None; up_cnicStatus := None;
     up_isAdmin := None |}.

(** The object literal [{ password: p }]. *)
Definition only_password (p : string) : UserPartial :=
  {| up_clerkId := None; up_name := None; up_email := None;
     up_password := Some p; up_role := None; up_avatar := None;
     up_phone := None; up_cnic := None; up_cnicStatus := None;
     up_isAdmin := None |}.

(** ** More Mongoose model operations *)

(** [UserModel.findOne(query)]: the first matching document. *)
Definition UserModel_findOne (query : User.t → bool)
  : Async (option (string * User.t)) :=
  λ st, (Returned (head (filter (λ kd, query kd.2 = true)
                                (map_to_list (users st)))), st).

(** The [userSchema]: [name], [email] and [password] are required strings,
    [email] carries a unique index, [_id] is unique. *)
Definition userSchema_valid (d : User.t) : bool :=
  negb (String.eqb (User.name d) EmptyString)
  && negb (String.eqb (User.email d) EmptyString)
  && match User.password d with
     | Some p => negb (String.eqb p EmptyString)
     | None => false
     end.

Definition email_taken (email : string) (us : gmap string User.t) : bool :=
  bool_decide (filter (λ kd, User.email kd.2 = email) (map_to_list us) ≠ []).

Definition UserModel_create (_id : string) (d : User.t) : Async User.t :=
  λ st, if negb (userSchema_valid d) then (Thrown "ValidationError", st)
        else if bool_decide (is_Some (users st !! _id))
                || email_taken (User.email d) (users st)
        then (Thrown "E11000 duplicate key", st)
        else (Returned d, set_users (insert _id d) st).

(** An update that would give two users the same [email] violates the
    unique index. *)
Definition UserModel_findByIdAndUpdate (_id : string) (data : UserPartial)
  : Async (option User.t) :=
  λ st, match users st !! _id with
        | Some d =>
            let d' := User_patch data d in
            if match up_email data with
               | Some email => email_taken email (delete _id (users st))
               | None => false
               end
            then (Thrown "E11000 duplicate key", st)
            else (Returned (Some d'), set_users (insert _id d') st)
        | None => (Returned None, st)
        end.

Definition VehicleModel_findById (_id : string) : Async (option Vehicle.t) :=
  λ st, (Returned (vehicles st !! _id), st).

Definition VehicleModel_find (query : Vehicle.t → bool)
  : Async (list (string * Vehicle.t)) :=
  λ st, (Returned (filter (λ kd, query kd.2 = true) (map_to_list (vehicles st))), st).

(** The [vehicleSchema]: [ownerId], [model], [plate] and [color] are
    required strings. *)
Definition vehicleSchema_valid (d : Vehicle.t) : bool :=
  negb (String.eqb (Vehicle.ownerId d) EmptyString)
  && negb (String.eqb (Vehicle.model d) EmptyString)
  && negb (String.eqb (Vehicle.plate d) EmptyString)
  && negb (String.eqb (Vehicle.color d) EmptyString).

Definition VehicleModel_create (_id : string) (d : Vehicle.t) : Async Vehicle.t :=
  λ st, if negb (vehicleSchema_valid d) then (Thrown "ValidationError", st)
        else match vehicles st !! _id with
             | Some _ => (Thrown "E11000 duplicate key", st)
             | None => (Returned d, set_vehicles (insert _id d) st)
             end.

Definition VehicleModel_findByIdAndDelete (_id : string) : Async (option Vehicle.t) :=
  λ st, (Returned (vehicles st !! _id), set_vehicles (delete _id) st).

Definition RideModel_find (query : Ride.t → bool) : Async (list (string * Ride.t)) :=
  λ st, (Returned (filter (λ kd, query kd.2 = true) (map_to_list (rides st))), st).

(** The order [sort({ departureTime: 1 })] asks for. *)
Definition departs_before (a b : string * Ride.t) : Prop :=
  Ride.departureTime a.2 ≤ Ride.departureTime b.2.

Global Instance departs_before_dec a b : Decision (departs_before a b).
Proof. unfold departs_before. apply _. Defined.

(** [RideModel.find(query).sort({ departureTime: 1 })].  The database
    leaves the order among equal departure times open; a merge sort fixes
    one. *)
Definition RideModel_find_sort_departureTime (query : Ride.t → bool)
  : Async (list (string * Ride.t)) :=
  λ st, (Returned (merge_sort departs_before
                     (filter (λ kd, query kd.2 = true) (map_to_list (rides st)))), st).

Definition BookingModel_countDocuments (query : Booking.t → bool) : Async nat :=
  λ st, (Returned (length (filter (λ kd, query kd.2 = true)
                                  (map_to_list (bookings st)))), st).

(** ** More of [MongoStorage] *)

Definition getUserByEmail (email : string) : Async (option User) :=
  doc ← UserModel_findOne (λ u, bool_decide (User.email u = email));
  mret ((λ kd, mapDoc kd.1 kd.2) <$> doc).

(** [uuid] is the value [randomUUID()] returns in this call. *)
Definition createUser (uuid : string) (insertUser : User.t) : Async User :=
  let id := uuid in
  doc ← UserModel_create id insertUser;
  mret (mapDoc id doc).

Definition updateUser (id : string) (data : UserPartial) : Async (option User) :=
  doc ← UserModel_findByIdAndUpdate id data;
  mret (mapDoc id <$> doc).

Definition getVehicle (id : string) : Async (option (WithId Vehicle.t)) :=
  doc ← VehicleModel_findById id;
  mret (mapDoc id <$> doc).

Definition getVehiclesByOwner (ownerId : string) : Async (list (WithId Vehicle.t)) :=
  docs ← VehicleModel_find (λ v, bool_decide (Vehicle.ownerId v = ownerId));
  mret ((λ d, mapDoc d.1 d.2) <$> docs).

Definition createVehicle (uuid : string) (insertVehicle : Vehicle.t)
  : Async (WithId Vehicle.t) :=
  let id := uuid in
  doc ← VehicleModel_create id insertVehicle;
  mret (mapDoc id doc).

Definition deleteVehicle (id : string) : Async bool :=
  result ← VehicleModel_findByIdAndDelete id;
  mret (bool_decide (is_Some result)).

(** [RideWithDriver]: the ride spread together with its driver, its
    vehicle, when it names one that is found, and a count of bookings. *)
Record RideWithDriver := mkRideWithDriver {
  rw_ride : Ride;
  rw_driver : User;
  rw_vehicle : option (WithId Vehicle.t);
  rw_bookingsCount : nat
}.

(** [ride.vehicleId ? await this.getVehicle(ride.vehicleId) : undefined] *)
Definition vehicle_of (ride : Ride) : Async (option (WithId Vehicle.t)) :=
  match truthy (Ride.vehicleId (fields ride)) with
  | Some vehicleId => getVehicle vehicleId
  | None => mret None
  end.

Definition getRideWithDriver (id : string) : Async (option RideWithDriver) :=
  ride ← getRide id;
  match ride with
  | None => mret None
  | Some ride =>
      driver ← getUser (Ride.driverId (fields ride));
      let safeDriver := getSafeDriver driver (Ride.driverId (fields ride)) in
      vehicle ← vehicle_of ride;
      bookings ← BookingModel_find (λ b, bool_decide (Booking.rideId b = id));
      mret (Some {| rw_ride := ride; rw_driver := safeDriver;
                    rw_vehicle := vehicle;
                    rw_bookingsCount := length bookings |})
  end.

(** The loop of [getAllRides]: [results.push({ ...ride, driver, vehicle,
    bookingsCount })] for every ride found. *)
Fixpoint push_rides (rides : list (string * Ride.t)) (results : list RideWithDriver)
  : Async (list RideWithDriver) :=
  match rides with
  | [] => mret results
  | r :: rest =>
      let ride := mapDoc r.1 r.2 in
      driver ← getUser (Ride.driverId (fields ride));
      let safeDriver := getSafeDriver driver (Ride.driverId (fields ride)) in
      vehicle ← vehicle_of ride;
      bookingsCount ← BookingModel_countDocuments
        (λ b, bool_decide (Booking.rideId b = id_of ride));
      push_rides rest
        (results ++ [ {| rw_ride := ride; rw_driver := safeDriver;
                         rw_vehicle := vehicle;
                         rw_bookingsCount := bookingsCount |} ])
  end.

Definition getAllRides : Async (list RideWithDriver) :=
  rides ← RideModel_find_sort_departureTime (λ r, Ride.isActive r);
  push_rides rides [].

(** The loop of [getRidesByDriver] looks the driver up by the argument. *)
Fixpoint push_rides_of (driverId : string) (rides : list (string * Ride.t))
    (results : list RideWithDriver) : Async (list RideWithDriver) :=
  match rides with
  | [] => mret results
  | r :: rest =>
      let ride := mapDoc r.1 r.2 in
      driver ← getUser driverId;
      let safeDriver := getSafeDriver driver driverId in
      vehicle ← vehicle_of ride;
      bookingsCount ← BookingModel_countDocuments
        (λ b, bool_decide (Booking.rideId b = id_of ride));
      push_rides_of driverId rest
        (results ++ [ {| rw_ride := ride; rw_driver := safeDriver;
                         rw_vehicle := vehicle;
                         rw_bookingsCount := bookingsCount |} ])
  end.

Definition getRidesByDriver (driverId : string) : Async (list RideWithDriver) :=
  rides ← RideModel_find (λ r, bool_decide (Ride.driverId r = driverId));
  push_rides_of driverId rides [].

(** ** More routes ([server/routes.ts]) *)

(** [res.json(a)] or [res.status(code).json({ message })], with the
    message as the text sent; [Unanswered] when a rejection escapes a
    handler that has no [try]. *)
Inductive Reply (A : Type) :=
  | Sent (a : A)
  | Refused (code : Z) (message : string)
  | Unanswered (e : string).
Arguments Sent {A} _.
Arguments Refused {A} _ _.
Arguments Unanswered {A} _.

Definition Route (A : Type) : Type := Store → Reply A * Store.

(** [error.message || fallback] *)
Definition message_or (e fallback : string) : string :=
  match e with
  | EmptyString => fallback
  | _ => e
  end.

(** The routes' own [stripPassword] drops the same field. *)
Definition routes_stripPassword (user : User) : User := stripPassword user.

(** What [signupSchema] yields on success. *)
Record SignupData := mkSignup {
  su_email : string;
  su_password : string;
  su_name : string;
  su_role : option User.Role;
  su_phone : option string
}.

(** [POST /api/auth/signup], given [signupSchema.safeParse(req.body)]:
    the parsed data, or the text of the validation error. *)
Definition post_signup (uuid : string) (result : SignupData + string) : Route User :=
  λ st,
  match result with
  | inr message => (Refused 400 message, st)
  | inl data =>
      match getUserByEmail (su_email data) st with
      | (Returned (Some existing), st1) => (Refused 400 "Email already registered", st1)
      | (Returned None, st1) =>
          match createUser uuid
                  {| User.clerkId := None; User.name := su_name data;
                     User.email := su_email data;
                     User.password := Some (su_password data);
                     User.role := default User.passenger (su_role data);
                     User.avatar := None; User.phone := truthy (su_phone data);
                     User.cnic := None; User.cnicStatus := User.not_uploaded;
                     User.isAdmin := false |} st1 with
          | (Returned user, st2) => (Sent (routes_stripPassword user), st2)
          | (Thrown e, st2) => (Refused 400 (message_or e "Signup failed"), st2)
          end
      | (Thrown e, st1) => (Refused 400 (message_or e "Signup failed"), st1)
      end
  end.

(** [POST /api/auth/login], given [loginSchema.safeParse(req.body)]. *)
Definition post_login (result : (string * string) + string) : Route User :=
  λ st,
  match result with
  | inr message => (Refused 400 message, st)
  | inl (email, password) =>
      match getUserByEmail email st with
      | (Returned user, st1) =>
          match user with
          | Some user =>
              if bool_decide (User.password (fields user) ≠ Some password)
              then (Refused 401 "Invalid credentials", st1)
              else (Sent (routes_stripPassword user), st1)
          | None => (Refused 401 "Invalid credentials", st1)
          end
      | (Thrown _, st1) => (Refused 401 "Login failed", st1)
      end
  end.

(** [GET /api/users/:id] *)
Definition get_user (id : string) : Route User :=
  λ st,
  match getUser id st with
  | (Returned (Some user), st1) => (Sent (routes_stripPassword user), st1)
  | (Returned None, st1) => (Refused 404 "User not found", st1)
  | (Thrown e, st1) => (Unanswered e, st1)
  end.

(** [PATCH /api/users/:id] *)
Definition patch_user (id : string) (body : UserPartial) : Route User :=
  λ st,
  match updateUser id body st with
  | (Returned (Some user), st1) => (Sent (routes_stripPassword user), st1)
  | (Returned None, st1) => (Refused 404 "User not found", st1)
  | (Thrown _, st1) => (Refused 400 "Update failed", st1)
  end.

(** What [POST /api/users/:id/password] sends on success. *)
Inductive PasswordUpdated := password_updated.

(** [POST /api/users/:id/password] with body
    [{ currentPassword, newPassword }]. *)
Definition post_password (id currentPassword newPassword : string)
  : Route PasswordUpdated :=
  λ st,
  match getUser id st with
  | (Returned None, st1) => (Refused 404 "User not found", st1)
  | (Returned (Some user), st1) =>
      if bool_decide (User.password (fields user) ≠ Some currentPassword)
      then (Refused 400 "Incorrect current password", st1)
      else
        match updateUser (id_of user) (only_password newPassword) st1 with
        | (Returned _, st2) => (Sent password_updated, st2)
        | (Thrown _, st2) => (Refused 500 "Failed to update password", st2)
        end
  | (Thrown _, st1) => (Refused 500 "Failed to update password", st1)
  end.

(** [GET /api/vehicles?ownerId=...] *)
Definition get_vehicles (ownerId : option string) : Route (list (WithId Vehicle.t)) :=
  λ st,
  match truthy ownerId with
  | None => (Refused 400 "Owner ID required", st)
  | Some ownerId =>
      match getVehiclesByOwner ownerId st with
      | (Returned vehicles, st1) => (Sent vehicles, st1)
      | (Thrown e, st1) => (Unanswered e, st1)
      end
  end.

(** [POST /api/vehicles], given [insertVehicleSchema.safeParse(req.body)]. *)
Definition post_vehicles (uuid : string) (result : Vehicle.t + string)
  : Route (WithId Vehicle.t) :=
  λ st,
  match result with
  | inr message => (Refused 400 message, st)
  | inl data =>
      match createVehicle uuid data st with
      | (Returned vehicle, st1) => (Sent vehicle, st1)
      | (Thrown _, st1) => (Refused 400 "Failed to create vehicle", st1)
      end
  end.

(** [GET /api/rides?driverId=...] *)
Definition get_rides (driverId : option string) : Route (list RideWithDriver) :=
  λ st,
  match (match truthy driverId with
         | Some driverId => getRidesByDriver driverId
         | None => getAllRides
         end) st with
  | (Returned rides, st1) => (Sent rides, st1)
  | (Thrown e, st1) => (Unanswered e, st1)
  end.

(** [PATCH /api/rides/:id/status] with body [{ status }]: a completed ride
    is also made inactive.  [res.json(ride)] is sent whether or not the
    ride was found. *)
Definition patch_ride_status (id : string) (status : Ride.Status)
  : Route (option Ride) :=
  λ st,
  let updateData :=
    {| Ride.p_seatsTotal := None; Ride.p_seatsAvailable := None;
       Ride.p_costPerSeat := None;
       Ride.p_isActive :=
         match status with
         | Ride.completed => Some false
         | _ => None
         end;
       Ride.p_status := Some status |} in
  match updateRide id updateData st with
  | (Returned ride, st1) => (Sent ride, st1)
  | (Thrown _, st1) => (Refused 400 "Failed to update status", st1)
  end.

(** ** The client's booking actions ([BookingCard], the bookings page) *)

Inductive ViewAs := as_passenger | as_driver.

Inductive Action := accept | reject | cancel.

Global Instance ViewAs_eq_dec : EqDecision ViewAs.
Proof. solve_decision. Defined.

Global Instance Action_eq_dec : EqDecision Action.
Proof. solve_decision. Defined.



(** [myBookings] of the bookings page: [user] is the signed-in user, if
    any; [b.driver?.id === user?.id] compares two optional ids. *)
Definition myBookings (bookings : list BookingWithDetails)
    (user : option User) (activeRole : ViewAs) : list BookingWithDetails :=
  filter (λ b,
    (if bool_decide (activeRole = as_driver)
     then bool_decide (id_of <$> bd_driver b = id_of <$> user)
     else bool_decide (Some (Booking.passengerId (fields (bd_booking b)))
                       = id_of <$> user)) = true)
    bookings.

Definition has_status (s : Booking.Status) (b : BookingWithDetails) : Prop :=
  Booking.status (fields (bd_booking b)) = s.

Global Instance has_status_dec s b : Decision (has_status s b).
Proof. unfold has_status. apply _. Defined.

Definition pendingBookings (myBookings : list BookingWithDetails) :=
  filter (has_status Booking.pending) myBookings.

Definition acceptedBookings (myBookings : list BookingWithDetails) :=
  filter (has_status Booking.accepted) myBookings.

Definition pastBookings (myBookings : list BookingWithDetails) :=
  filter (λ b, has_status Booking.rejected b ∨ has_status Booking.cancelled b)
    myBookings.

(** ** More sample data *)


(** ** Closed forms of the reads *)

(** What [getBookingWithDetails] returns, as a function of the store. *)
Definition details_of (st : Store) (id : string) : option BookingWithDetails :=
  b ← bookings st !! id;
  r ← rides st !! Booking.rideId b;
  Some {| bd_booking := mapDoc id b;
          bd_ride := mapDoc (Booking.rideId b) r;
          bd_passenger :=
            getSafeDriver (mapDoc (Booking.passengerId b)
                             <$> users st !! Booking.passengerId b)
                          (Booking.passengerId b);
          bd_driver :=
            stripPassword <$> (mapDoc (Ride.driverId r)
                                 <$> users st !! Ride.driverId r) |}.

(** The stored bookings a query selects, as [find] enumerates them. *)
Definition bookings_where (query : Booking.t → bool) (st : Store)
  : list (string * Booking.t) :=
  filter (λ kb, query kb.2 = true) (map_to_list (bookings st)).

Definition on_ride (rideId : string) (b : Booking.t) : bool :=
  bool_decide (Booking.rideId b = rideId).

(** [r'] is [r] with, at most, another [seatsAvailable]. *)
Definition same_but_seats (r r' : Ride.t) : Prop :=
  Ride.patch (Ride.only_seatsAvailable (Ride.seatsAvailable r')) r = r'.

(** Who booked what: the fields of a booking other than its status. *)
Definition same_but_status (b b' : Booking.t) : Prop :=
  Booking.rideId b' = Booking.rideId b
  ∧ Booking.passengerId b' = Booking.passengerId b
  ∧ Booking.seatsBooked b' = Booking.seatsBooked b.

(** What the listings of rides attach to a ride document; [driverId] is the
    id the driver is looked up by. *)
Definition entry_of (st : Store) (driverId : string) (kd : string * Ride.t)
  : RideWithDriver :=
  {| rw_ride := mapDoc kd.1 kd.2;
     rw_driver := getSafeDriver (mapDoc driverId <$> users st !! driverId) driverId;
     rw_vehicle :=
       match truthy (Ride.vehicleId kd.2) with
       | Some vehicleId => mapDoc vehicleId <$> vehicles st !! vehicleId
       | None => None
       end;
     rw_bookingsCount := length (bookings_where (on_ride kd.1) st) |}.

(** The count [getRideWithDriver] reports, when it returns a ride. *)
Definition bookingsCount_of (id : string) (st : Store) : option nat :=
  match (getRideWithDriver id st).1 with
  | Returned (Some ride) => Some (rw_bookingsCount ride)
  | _ => None
  end.

(** The statuses written one after the other to the same ride. *)
Definition patch_ride_statuses (id : string) (statuses : list Ride.Status)
    (st : Store) : Store :=
  foldl (λ st status, (patch_ride_status id status st).2) st statuses.

(** A ride that left five minutes ago, three seats, one taken. *)
Definition rides_two : gmap string Ride.t :=
  {[ "ride-1" := campus_ride 3 1;
     "ride-2" := {| Ride.driverId := "driver-1"; Ride.vehicleId := None;
                    Ride.sourceAddress := "Campus"; Ride.destAddress := "Hostel";
                    Ride.departureTime := -300;
                    Ride.seatsTotal := 4; Ride.seatsAvailable := 4;
                    Ride.costPerSeat := 100; Ride.isActive := true;
                    Ride.status := Ride.ongoing |} ]}.

Definition store_two_rides : Store :=
  {| users := ∅; vehicles := ∅; rides := rides_two;
     bookings := {[ "booking-1" := booking_on Booking.accepted 2 ]} |}.

(** ** The user requests *)

Inductive UserRequest :=
  | Signup (uuid : string) (result : SignupData + string)
  | PatchUser (id : string) (body : UserPartial)
  | ChangePassword (id currentPassword newPassword : string).

Definition handle_user (req : UserRequest) (st : Store) : Store :=
  match req with
  | Signup uuid result => (post_signup uuid result st).2
  | PatchUser id body => (patch_user id body st).2
  | ChangePassword id currentPassword newPassword =>
      (post_password id currentPassword newPassword st).2
  end.

Definition serve_users (reqs : list UserRequest) (st : Store) : Store :=
  foldl (λ st req, handle_user req st) st reqs.

(** No two user documents carry the same [email]. *)
Definition unique_emails (us : gmap string User.t) : Prop :=
  ∀ i j u v, us !! i = Some u → us !! j = Some v →
    User.email u = User.email v → i = j.

(** The user document [POST /api/auth/signup] creates. *)
Definition signed_up (data : SignupData) : User.t :=
  {| User.clerkId := None; User.name := su_name data;
     User.email := su_email data;
     User.password := Some (su_password data);
     User.role := default User.passenger (su_role data);
     User.avatar := None; User.phone := truthy (su_phone data);
     User.cnic := None; User.cnicStatus := User.not_uploaded;
     User.isAdmin := false |}.

Definition with_password (p : string) (u : User.t) : User.t :=
  User_patch (only_password p) u.

Definition amina : SignupData :=
  {| su_email := "amina@university.edu.pk"; su_password := "s3cret";
     su_name := "Amina"; su_role := None; su_phone := Some EmptyString |}.

Definition store_amina : Store :=
  {| users := {[ "user-1" := signed_up amina ]}; vehicles := ∅;
     rides := ∅; bookings := ∅ |}.

(** ** [getAllBookings]

    [getAllBookings] reads the [reviews] collection and writes nothing; the
    collection is its argument here. *)

Module Review.
Record t := mk {
  rideId : string;
  reviewerId : string;
  revieweeId : string;
  rating : Z;
  comment : string;
  createdAt : Z
}.
End Review.

(** A ride as [populate({ path: 'rideId', populate: { path: 'driverId' } })]
    leaves it: the document, with the driver's user document, or [null], in
    place of [driverId]. *)
Record PopulatedRide := mkPopulatedRide {
  pr_ride : Ride;
  pr_driver : option User
}.

(** A booking of [getAllBookings]: [passengerId] and [rideId] replaced by
    the documents they name, or [null], and the passenger's review of the
    ride, if one is found. *)
Record PopulatedBooking := mkPopulatedBooking {
  pb_id : string;
  pb_ride : option PopulatedRide;
  pb_passenger : option User;
  pb_status : Booking.Status;
  pb_seatsBooked : Z;
  pb_review : option (WithId Review.t)
}.

(** The order [sort({ _id: -1 })] asks for: strings compare byte by byte. *)
Definition newest_first (a b : string * Booking.t) : Prop :=
  String.leb b.1 a.1 = true.

Global Instance newest_first_dec a b : Decision (newest_first a b).
Proof. unfold newest_first. apply _. Defined.

Definition BookingModel_find_sort_id_desc : Async (list (string * Booking.t)) :=
  λ st, (Returned (merge_sort newest_first (map_to_list (bookings st))), st).

(** [populate] of a path that names a user: the whole document. *)
Definition populate_user (id : string) : Async (option User) :=
  doc ← UserModel_findById id;
  mret (mapDoc id <$> doc).

Definition populate_ride (id : string) : Async (option PopulatedRide) :=
  doc ← RideModel_findById id;
  match doc with
  | None => mret None
  | Some r =>
      driver ← populate_user (Ride.driverId r);
      mret (Some {| pr_ride := mapDoc id r; pr_driver := driver |})
  end.

Fixpoint populate_bookings (docs : list (string * Booking.t))
  : Async (list PopulatedBooking) :=
  match docs with
  | [] => mret []
  | d :: rest =>
      passenger ← populate_user (Booking.passengerId d.2);
      ride ← populate_ride (Booking.rideId d.2);
      others ← populate_bookings rest;
      mret ({| pb_id := d.1; pb_ride := ride; pb_passenger := passenger;
               pb_status := Booking.status d.2;
               pb_seatsBooked := Booking.seatsBooked d.2;
               pb_review := None |} :: others)
  end.

(** [ReviewModel.findOne({ rideId, reviewerId })] *)
Definition ReviewModel_findOne (reviews : gmap string Review.t)
    (rideId reviewerId : string) : option (WithId Review.t) :=
  (λ kd, mapDoc kd.1 kd.2)
    <$> head (filter (λ kd : string * Review.t,
                        Review.rideId kd.2 = rideId
                        ∧ Review.reviewerId kd.2 = reviewerId)
                     (map_to_list reviews)).

(** [{ ...booking, review }], with the review looked up when both the ride
    and the passenger were found and have non-empty ids. *)
Definition attach_review (reviews : gmap string Review.t) (booking : PopulatedBooking)
  : PopulatedBooking :=
  let rideId := truthy ((λ r, id_of (pr_ride r)) <$> pb_ride booking) in
  let reviewerId := truthy (id_of <$> pb_passenger booking) in
  {| pb_id := pb_id booking; pb_ride := pb_ride booking;
     pb_passenger := pb_passenger booking;
     pb_status := pb_status booking; pb_seatsBooked := pb_seatsBooked booking;
     pb_review :=
       match rideId, reviewerId with
       | Some rideId, Some reviewerId => ReviewModel_findOne reviews rideId reviewerId
       | _, _ => None
       end |}.

Definition getAllBookings (reviews : gmap string Review.t)
  : Async (list PopulatedBooking) :=
  docs ← BookingModel_find_sort_id_desc;
  bookings ← populate_bookings docs;
  mret (attach_review reviews <$> bookings).

(** [GET /api/bookings] *)
Definition get_bookings (reviews : gmap string Review.t)
  : Route (list PopulatedBooking) :=
  λ st,
  match getAllBookings reviews st with
  | (Returned bookings, st1) => (Sent bookings, st1)
  | (Thrown _, st1) => (Refused 500 "Failed to fetch bookings", st1)
  end.

(** What [populate] and [attach_review] make of a booking document. *)
Definition populated (reviews : gmap string Review.t) (st : Store)
    (d : string * Booking.t) : PopulatedBooking :=
  attach_review reviews
    {| pb_id := d.1;
       pb_ride :=
         (λ r, {| pr_ride := mapDoc (Booking.rideId d.2) r;
                  pr_driver := mapDoc (Ride.driverId r) <$> users st !! Ride.driverId r |})
           <$> rides st !! Booking.rideId d.2;
       pb_passenger :=
         mapDoc (Booking.passengerId d.2) <$> users st !! Booking.passengerId d.2;
       pb_status := Booking.status d.2;
       pb_seatsBooked := Booking.seatsBooked d.2;
       pb_review := None |}.

(** A passenger with an account, holding a booking on a deleted ride. *)
Definition store_orphan : Store :=
  {| users := {[ "user-1" := signed_up amina ]}; vehicles := ∅; rides := ∅;
     bookings := {[ "booking-1" :=
                      {| Booking.rideId := "ride-1"; Booking.passengerId := "user-1";
                         Booking.status := Booking.rejected;
                         Booking.seatsBooked := 1 |} ]} |}.

(** ** [deleteUser]

    [deleteUser] starts one [deleteRide] for every ride of the user and
    four [deleteMany] calls, and awaits them together with [Promise.all]:
    their database calls interleave.  A [Task] is what is left to run of one
    of these calls, a step is one database call, and a schedule names the
    task that takes the next step.  The [reviews] collection, which the
    store of the booking operations leaves out, travels beside it. *)

Definition World : Type := Store * gmap string Review.t.

(** [deleteMany(query)] returns the number of documents it removed. *)
Definition BookingModel_deleteMany (query : Booking.t → bool) : Async nat :=
  λ st, (Returned (length (filter (λ kd, query kd.2 = true) (map_to_list (bookings st)))),
         set_bookings (λ m, filter (λ kd, query kd.2 ≠ true) m) st).

Definition VehicleModel_deleteMany (query : Vehicle.t → bool) : Async nat :=
  λ st, (Returned (length (filter (λ kd, query kd.2 = true) (map_to_list (vehicles st)))),
         set_vehicles (λ m, filter (λ kd, query kd.2 ≠ true) m) st).

Definition ReviewModel_deleteMany (query : Review.t → bool)
    (reviews : gmap string Review.t) : nat * gmap string Review.t :=
  (length (filter (λ kd, query kd.2 = true) (map_to_list reviews)),
   filter (λ kd, query kd.2 ≠ true) reviews).

Definition UserModel_findByIdAndDelete (_id : string) : Async (option User.t) :=
  λ st, (Returned (users st !! _id), set_users (delete _id) st).

Inductive Task :=
  | deleteRide_find (id : string)
      (* [deleteRide(id)], before [BookingModel.find] *)
  | deleteRide_loop (id : string) (bookings : list (string * Booking.t))
      (* in its [for] loop, these bookings to go; then the ride *)
  | bookings_deleteMany (passengerId : string)
  | vehicles_deleteMany (ownerId : string)
  | reviews_deleteMany_by (reviewerId : string)
  | reviews_deleteMany_about (revieweeId : string)
  | fulfilled
  | rejected (e : string).

(** One database call of a task, and what is left of the task after it. *)
Definition await {A : Type} (m : Async A) (rest : A → Task) : World → Task * World :=
  λ w, match m w.1 with
       | (Returned a, st) => (rest a, (st, w.2))
       | (Thrown e, st) => (rejected e, (st, w.2))
       end.

Definition step (t : Task) : World → Task * World :=
  match t with
  | deleteRide_find id =>
      await (BookingModel_find
               (λ b, bool_decide (Booking.rideId b = id)
                     && bool_decide (Booking.status b = Booking.pending)))
            (deleteRide_loop id)
  | deleteRide_loop id (booking :: bookings) =>
      await (BookingModel_findByIdAndUpdate booking.1
               (Booking.only_status Booking.rejected))
            (λ _, deleteRide_loop id bookings)
  | deleteRide_loop id [] =>
      await (RideModel_findByIdAndDelete id) (λ _, fulfilled)
  | bookings_deleteMany id =>
      await (BookingModel_deleteMany (λ b, bool_decide (Booking.passengerId b = id)))
            (λ _, fulfilled)
  | vehicles_deleteMany id =>
      await (VehicleModel_deleteMany (λ v, bool_decide (Vehicle.ownerId v = id)))
            (λ _, fulfilled)
  | reviews_deleteMany_by id =>
      λ w, (fulfilled,
            (w.1, (ReviewModel_deleteMany
                     (λ r, bool_decide (Review.reviewerId r = id)) w.2).2))
  | reviews_deleteMany_about id =>
      λ w, (fulfilled,
            (w.1, (ReviewModel_deleteMany
                     (λ r, bool_decide (Review.revieweeId r = id)) w.2).2))
  | fulfilled => λ w, (fulfilled, w)
  | rejected e => λ w, (rejected e, w)
  end.

Definition rejection (t : Task) : option string :=
  match t with
  | rejected e => Some e
  | _ => None
  end.

Definition is_fulfilled (t : Task) : bool :=
  match t with
  | fulfilled => true
  | _ => false
  end.

(** [Promise.all] rejects as soon as one task has rejected, and is
    fulfilled once all are. *)
Definition Promise_all_settled (tasks : list Task) : option (Outcome unit) :=
  match omap rejection tasks with
  | e :: _ => Some (Thrown e)
  | [] => if forallb is_fulfilled tasks then Some (Returned tt) else None
  end.

(** [await Promise.all(tasks)] under a schedule; [None] while the promise
    is pending at the end of the schedule.  An index that names no task is
    skipped, and a step of a settled task changes nothing. *)
Fixpoint Promise_all (schedule : list nat) (tasks : list Task) (w : World)
  : option (Outcome unit) * World :=
  match Promise_all_settled tasks with
  | Some outcome => (Some outcome, w)
  | None =>
      match schedule with
      | [] => (None, w)
      | i :: schedule' =>
          match tasks !! i with
          | Some t => let '(t', w') := step t w in
                      Promise_all schedule' (<[i:=t']> tasks) w'
          | None => Promise_all schedule' tasks w
          end
      end
  end.

(** The tasks [deleteUser] hands to [Promise.all]. *)
Definition deleteUser_tasks (id : string) (driverRides : list (string * Ride.t))
  : list Task :=
  ((λ ride, deleteRide_find ride.1) <$> driverRides)
  ++ [ bookings_deleteMany id; vehicles_deleteMany id;
       reviews_deleteMany_by id; reviews_deleteMany_about id ].

(** [deleteUser(id)] under a schedule of its tasks: the value it returns
    and the collections at that moment, or [None] when the schedule ends
    before [Promise.all] settles. *)
Definition deleteUser (schedule : list nat) (id : string)
  : World → option (bool * World) :=
  λ w,
  match RideModel_find (λ r, bool_decide (Ride.driverId r = id)) w.1 with
  | (Thrown _, st1) => Some (false, (st1, w.2))
  | (Returned driverRides, st1) =>
      match Promise_all schedule (deleteUser_tasks id driverRides) (st1, w.2) with
      | (None, _) => None
      | (Some (Thrown _), w2) => Some (false, w2)
      | (Some (Returned _), w2) =>
          match UserModel_findByIdAndDelete id w2.1 with
          | (Returned result, st3) => Some (bool_decide (is_Some result), (st3, w2.2))
          | (Thrown _, st3) => Some (false, (st3, w2.2))
          end
      end
  end.

(** The steps of a schedule without [Promise.all] looking on. *)
Fixpoint run (schedule : list nat) (tasks : list Task) (w : World)
  : list Task * World :=
  match schedule with
  | [] => (tasks, w)
  | i :: schedule' =>
      match tasks !! i with
      | Some t => let '(t', w') := step t w in run schedule' (<[i:=t']> tasks) w'
      | None => run schedule' tasks w
      end
  end.

(** *** What [deleteUser] leaves behind *)

(** Ride [k] of the store is one the user drives. *)
Definition drives (id : string) (st : Store) (k : string) : Prop :=
  Ride.driverId <$> rides st !! k = Some id.

Global Instance drives_dec id st k : Decision (drives id st k).
Proof. unfold drives. apply _. Defined.

Definition reject_if_pending_with (id : string) (st : Store) (b : Booking.t)
  : Booking.t :=
  if bool_decide (Booking.status b = Booking.pending)
     && bool_decide (drives id st (Booking.rideId b))
  then Booking.patch (Booking.only_status Booking.rejected) b
  else b.

Definition after_deleteUser (id : string) (w : World) : World :=
  ({| users := delete id (users w.1);
      vehicles := filter (λ kd, Vehicle.ownerId kd.2 ≠ id) (vehicles w.1);
      rides := filter (λ kd, Ride.driverId kd.2 ≠ id) (rides w.1);
      bookings := reject_if_pending_with id w.1
                    <$> filter (λ kd, Booking.passengerId kd.2 ≠ id) (bookings w.1) |},
   filter (λ kd, Review.reviewerId kd.2 ≠ id ∧ Review.revieweeId kd.2 ≠ id) w.2).

(** *** The invariant of the interleaving *)

(** Some task of the list is still to do what [P] says. *)
Definition awaiting (tasks : list Task) (P : Task → Prop) : Prop :=
  ∃ t, t ∈ tasks ∧ P t.

(** The task has yet to reject booking [b] of ride [k]. *)
Definition will_reject (k b : string) (t : Task) : Prop :=
  match t with
  | deleteRide_find k' => k' = k
  | deleteRide_loop k' todo => k' = k ∧ b ∈ todo.*1
  | _ => False
  end.

Definition will_delete_ride (k : string) (t : Task) : Prop :=
  match t with
  | deleteRide_find k' | deleteRide_loop k' _ => k' = k
  | _ => False
  end.

(** The tasks that may be around: those of [deleteUser id], on the user's
    rides and on bookings that were pending on them. *)
Definition task_of (id : string) (st0 : Store) (t : Task) : Prop :=
  match t with
  | deleteRide_find k => drives id st0 k
  | deleteRide_loop k todo =>
      drives id st0 k
      ∧ ∀ b, b ∈ todo.*1 →
          ∃ b0, bookings st0 !! b = Some b0
                ∧ Booking.status b0 = Booking.pending ∧ Booking.rideId b0 = k
  | bookings_deleteMany i | vehicles_deleteMany i
  | reviews_deleteMany_by i | reviews_deleteMany_about i => i = id
  | fulfilled => True
  | rejected _ => False
  end.

(** [m] is [m0] with some documents deleted, none that [keep] protects. *)
Definition only_deleted {A : Type} (keep : A → Prop) (m0 m : gmap string A) : Prop :=
  (∀ k a, m !! k = Some a → m0 !! k = Some a)
  ∧ (∀ k a, m0 !! k = Some a → keep a → m !! k = Some a).

Definition bookings_so_far (id : string) (st0 : Store) (tasks : list Task)
    (m : gmap string Booking.t) : Prop :=
  (∀ b bk, m !! b = Some bk →
     ∃ b0, bookings st0 !! b = Some b0 ∧ same_but_status b0 bk
           ∧ (Booking.status bk = Booking.status b0
              ∨ (Booking.status bk = Booking.rejected
                 ∧ Booking.status b0 = Booking.pending
                 ∧ drives id st0 (Booking.rideId b0))))
  ∧ (∀ b b0, bookings st0 !! b = Some b0 → Booking.passengerId b0 ≠ id →
       is_Some (m !! b))
  ∧ (∀ b bk, m !! b = Some bk → Booking.passengerId bk = id →
       awaiting tasks (λ t, t = bookings_deleteMany id))
  ∧ (∀ b bk, m !! b = Some bk → Booking.status bk = Booking.pending →
       drives id st0 (Booking.rideId bk) →
       awaiting tasks (will_reject (Booking.rideId bk) b)).

Definition so_far (id : string) (w0 : World) (tasks : list Task) (w : World) : Prop :=
  users w.1 = users w0.1
  ∧ Forall (task_of id w0.1) tasks
  ∧ bookings_so_far id w0.1 tasks (bookings w.1)
  ∧ (only_deleted (λ r, Ride.driverId r ≠ id) (rides w0.1) (rides w.1)
     ∧ ∀ k r, rides w.1 !! k = Some r → Ride.driverId r = id →
         awaiting tasks (will_delete_ride k))
  ∧ (only_deleted (λ v, Vehicle.ownerId v ≠ id) (vehicles w0.1) (vehicles w.1)
     ∧ ∀ k v, vehicles w.1 !! k = Some v → Vehicle.ownerId v = id →
         awaiting tasks (λ t, t = vehicles_deleteMany id))
  ∧ (only_deleted (λ r, Review.reviewerId r ≠ id ∧ Review.revieweeId r ≠ id) w0.2 w.2
     ∧ (∀ k r, w.2 !! k = Some r → Review.reviewerId r = id →
          awaiting tasks (λ t, t = reviews_deleteMany_by id))
     ∧ (∀ k r, w.2 !! k = Some r → Review.revieweeId r = id →
          awaiting tasks (λ t, t = reviews_deleteMany_about id))).

(** Amina drives [ride-2], on which [passenger-1] has a pending booking,
    owns a car, and holds two accepted seats on [ride-1] of [driver-1]. *)
Definition store_campus : Store :=
  {| users := {[ "user-1" := signed_up amina ]};
     vehicles := {[ "vehicle-1" :=
                      {| Vehicle.ownerId := "user-1"; Vehicle.model := "Mehran";
                         Vehicle.plate := "LEA-1234"; Vehicle.color := "white";
                         Vehicle.seats := 4 |} ]};
     rides := {[ "ride-1" := campus_ride 3 1;
                 "ride-2" :=
                   {| Ride.driverId := "user-1"; Ride.vehicleId := Some "vehicle-1";
                      Ride.sourceAddress := "Campus"; Ride.destAddress := "Hostel";
                      Ride.departureTime := 10;
                      Ride.seatsTotal := 3; Ride.seatsAvailable := 2;
                      Ride.costPerSeat := 100; Ride.isActive := true;
                      Ride.status := Ride.scheduled |} ]};
     bookings := {[ "booking-1" :=
                      {| Booking.rideId := "ride-1"; Booking.passengerId := "user-1";
                         Booking.status := Booking.accepted;
                         Booking.seatsBooked := 2 |};
                    "booking-2" :=
                      {| Booking.rideId := "ride-2"; Booking.passengerId := "passenger-1";
                         Booking.status := Booking.pending;
                         Booking.seatsBooked := 1 |} ]} |}.
(** * Seat counts as the program has them: binary64 numbers

    [seatsTotal], [seatsAvailable] and [seatsBooked] are JavaScript
    numbers, and [z.number().min(1)] admits any number from 1 up, whole or
    not.  Module [Double] is the booking core once more, over Rocq's
    primitive binary64 floats, whose [+], [-], [<] and [==] are those of
    IEEE 754 and so of JavaScript.  Sums and differences of whole numbers
    up to [Number.MAX_SAFE_INTEGER] are exact; those of other numbers are
    rounded. *)

(** [Number.MAX_SAFE_INTEGER], 2^53 - 1. *)
Definition max_safe : Z := 9007199254740991.

Definition safe (n : Z) : Prop := 0 ≤ n ≤ max_safe.

(** The double that is the whole number [n]. *)
Definition canon (n : Z) : spec_float := binary_normalize prec emax n 0 false.

Definition whole (n : Z) : float := SF2Prim (canon n).

(** The whole number a double is, when it is one from 0 to [max_safe]. *)
Definition seats_of (x : float) : option Z :=
  let n := match Prim2SF x with
           | S754_finite false m e => Z.shiftl (Z.pos m) e
           | _ => 0
           end in
  if (n <=? max_safe) && PrimFloat.Leibniz.eqb x (whole n) then Some n else None.

(** Every finite double is a whole multiple of 2^-1074, the smallest
    positive one: [exact x] is that multiple, so that the exact sum of
    doubles is a sum of integers.  Infinities and NaN have none. *)
Definition unit_scale : Z := 2 ^ 1074.

Definition exact (x : float) : option Z :=
  match Prim2SF x with
  | S754_zero _ => Some 0
  | S754_finite s m e => Some (cond_Zopp s (Z.pos m) * 2 ^ (e + 1074))
  | _ => None
  end.

Definition exact0 (x : float) : Z := default 0 (exact x).

(** The mantissa and the exponent of a positive safe integer, and the
    shift record of an exact value (used to follow IEEE rounding). *)
Definition mant (p : positive) : positive :=
  Pos.shiftl p (Z.to_N (53 - Z.pos (digits2_pos p))).

Definition expo (p : positive) : Z := Z.pos (digits2_pos p) - 53.

Definition exactly (m : Z) : shr_record :=
  {| shr_m := m; shr_r := false; shr_s := false |}.

(** A booking in one of these statuses holds its seats. *)
Definition holds_seats (s : Booking.Status) : bool :=
  match s with
  | Booking.pending | Booking.accepted => true
  | _ => false
  end.

(** The status changes [updateBooking] accounts for: all but accepted →
    rejected, which releases seats without a refund, and the four from
    rejected or cancelled back to pending or accepted, which take seats
    without a deduction. *)
Definition accounted (old new : Booking.Status) : bool :=
  match old, new with
  | Booking.accepted, Booking.rejected
  | Booking.rejected, Booking.pending
  | Booking.rejected, Booking.accepted
  | Booking.cancelled, Booking.pending
  | Booking.cancelled, Booking.accepted => false
  | _, _ => true
  end.

Module Double.

Module Ride.
Record t := mk {
  driverId : string;
  vehicleId : option string;
  sourceAddress : string;
  destAddress : string;
  departureTime : Z;
  seatsTotal : float;
  seatsAvailable : float;
  costPerSeat : float;
  isActive : bool;
  status : Ride.Status
}.

Record partial := mkPartial {
  p_seatsTotal : option float;
  p_seatsAvailable : option float;
  p_costPerSeat : option float;
  p_isActive : option bool;
  p_status : option Ride.Status
}.

Definition patch (data : partial) (r : t) : t :=
  {| driverId := driverId r;
     vehicleId := vehicleId r;
     sourceAddress := sourceAddress r;
     destAddress := destAddress r;
     departureTime := departureTime r;
     seatsTotal := default (seatsTotal r) (p_seatsTotal data);
     seatsAvailable := default (seatsAvailable r) (p_seatsAvailable data);
     costPerSeat := default (costPerSeat r) (p_costPerSeat data);
     isActive := default (isActive r) (p_isActive data);
     status := default (status r) (p_status data) |}.

Definition only_seatsAvailable (n : float) : partial :=
  {| p_seatsTotal := None; p_seatsAvailable := Some n;
     p_costPerSeat := None; p_isActive := None; p_status := None |}.
End Ride.

Module Booking.
Record t := mk {
  rideId : string;
  passengerId : string;
  status : Booking.Status;
  seatsBooked : float
}.

Record partial := mkPartial {
  p_rideId : option string;
  p_passengerId : option string;
  p_status : option Booking.Status;
  p_seatsBooked : option float
}.

Definition patch (data : partial) (b : t) : t :=
  {| rideId := default (rideId b) (p_rideId data);
     passengerId := default (passengerId b) (p_passengerId data);
     status := default (status b) (p_status data);
     seatsBooked := default (seatsBooked b) (p_seatsBooked data) |}.

Definition only_status (s : Booking.Status) : partial :=
  {| p_rideId := None; p_passengerId := None;
     p_status := Some s; p_seatsBooked := None |}.
End Booking.

Abbreviation Ride := (WithId Ride.t).
Abbreviation Booking := (WithId Booking.t).

Record Store := mkStore {
  users : gmap string User.t;
  vehicles : gmap string Vehicle.t;
  rides : gmap string Ride.t;
  bookings : gmap string Booking.t
}.

Definition set_rides (f : gmap string Ride.t → gmap string Ride.t) (st : Store) : Store :=
  {| users := users st; vehicles := vehicles st;
     rides := f (rides st); bookings := bookings st |}.

Definition set_bookings (f : gmap string Booking.t → gmap string Booking.t) (st : Store) : Store :=
  {| users := users st; vehicles := vehicles st;
     rides := rides st; bookings := f (bookings st) |}.

Definition Async (A : Type) : Type := Store → Outcome A * Store.

Global Instance Async_ret : MRet Async := λ A a st, (Returned a, st).

Global Instance Async_bind : MBind Async := λ A B f m st,
  match m st with
  | (Returned a, st') => f a st'
  | (Thrown e, st') => (Thrown e, st')
  end.

Fixpoint for_of {A : Type} (xs : list A) (body : A → Async unit) : Async unit :=
  match xs with
  | [] => mret tt
  | x :: xs' => body x;; for_of xs' body
  end.

Definition when (c : bool) (m : Async unit) : Async unit :=
  if c then m else mret tt.

(** ** Mongoose model operations

    Mongoose casts every value written to a [Number] path and refuses
    NaN with a [CastError]; it casts an update before it runs the query. *)

Definition castable (val : option float) : bool :=
  match val with
  | Some val => negb (is_nan val)
  | None => true
  end.

Definition RideModel_findById (_id : string) : Async (option Ride.t) :=
  λ st, (Returned (rides st !! _id), st).

Definition RideModel_findByIdAndUpdate (_id : string) (data : Ride.partial)
  : Async (option Ride.t) :=
  λ st, if negb (castable (Ride.p_seatsTotal data)
                 && castable (Ride.p_seatsAvailable data)
                 && castable (Ride.p_costPerSeat data))
        then (Thrown "CastError", st)
        else match rides st !! _id with
             | Some d => let d' := Ride.patch data d in
                         (Returned (Some d'), set_rides (insert _id d') st)
             | None => (Returned None, st)
             end.

Definition RideModel_findByIdAndDelete (_id : string) : Async (option Ride.t) :=
  λ st, (Returned (rides st !! _id), set_rides (delete _id) st).

Definition BookingModel_findById (_id : string) : Async (option Booking.t) :=
  λ st, (Returned (bookings st !! _id), st).

Definition BookingModel_find (query : Booking.t → bool)
  : Async (list (string * Booking.t)) :=
  λ st, (Returned (filter (λ kb, query kb.2 = true) (map_to_list (bookings st))), st).

Definition BookingModel_findByIdAndUpdate (_id : string) (data : Booking.partial)
  : Async (option Booking.t) :=
  λ st, if negb (castable (Booking.p_seatsBooked data))
        then (Thrown "CastError", st)
        else match bookings st !! _id with
             | Some d => let d' := Booking.patch data d in
                         (Returned (Some d'), set_bookings (insert _id d') st)
             | None => (Returned None, st)
             end.

Definition bookingSchema_valid (d : Booking.t) : bool :=
  negb (String.eqb (Booking.rideId d) EmptyString)
  && negb (String.eqb (Booking.passengerId d) EmptyString)
  && negb (is_nan (Booking.seatsBooked d)).

Definition BookingModel_create (_id : string) (d : Booking.t) : Async Booking.t :=
  λ st, if negb (bookingSchema_valid d) then (Thrown "ValidationError", st)
        else match bookings st !! _id with
             | Some _ => (Thrown "E11000 duplicate key", st)
             | None => (Returned d, set_bookings (insert _id d) st)
             end.

(** ** [MongoStorage] *)

Definition getRide (id : string) : Async (option Ride) :=
  doc ← RideModel_findById id;
  mret (mapDoc id <$> doc).

Definition updateRide (id : string) (data : Ride.partial) : Async (option Ride) :=
  doc ← RideModel_findByIdAndUpdate id data;
  mret (mapDoc id <$> doc).

Definition deleteRide (id : string) : Async bool :=
  bookings ← BookingModel_find
    (λ b, bool_decide (Booking.rideId b = id)
          && bool_decide (Booking.status b = Booking.pending));
  for_of bookings (λ booking,
    BookingModel_findByIdAndUpdate booking.1 (Booking.only_status Booking.rejected);;
    mret tt);;
  result ← RideModel_findByIdAndDelete id;
  mret (bool_decide (is_Some result)).

Definition getBooking (id : string) : Async (option Booking) :=
  doc ← BookingModel_findById id;
  mret (mapDoc id <$> doc).

Definition createBooking (uuid : string) (insertBooking : Booking.t) : Async Booking :=
  let id := uuid in
  doc ← BookingModel_create id insertBooking;
  mret (mapDoc id doc).

Definition updateBooking (id : string) (data : Booking.partial)
  : Async (option Booking) :=
  existingBooking ← getBooking id;
  match existingBooking with
  | None => mret None
  | Some existingBooking =>
      doc ← BookingModel_findByIdAndUpdate id data;
      let booking := mapDoc id <$> doc in
      match booking with
      | Some booking =>
          ride ← getRide (Booking.rideId (fields booking));
          match ride with
          | Some ride =>
              when (bool_decide (Booking.p_status data = Some Booking.rejected)
                    && bool_decide (Booking.status (fields existingBooking) = Booking.pending))
                (updateRide (id_of ride)
                   (Ride.only_seatsAvailable
                      (Ride.seatsAvailable (fields ride)
                       + Booking.seatsBooked (fields booking))%float);;
                 mret tt);;
              when (bool_decide (Booking.p_status data = Some Booking.cancelled)
                    && (bool_decide (Booking.status (fields existingBooking) = Booking.accepted)
                        || bool_decide (Booking.status (fields existingBooking) = Booking.pending)))
                (updateRide (id_of ride)
                   (Ride.only_seatsAvailable
                      (Ride.seatsAvailable (fields ride)
                       + Booking.seatsBooked (fields booking))%float);;
                 mret tt);;
              mret (Some booking)
          | None => mret (Some booking)
          end
      | None => mret None
      end
  end.

(** ** The booking routes *)

Inductive Message :=
  | ValidationFailed
  | RideNotFound
  | OnlySeatsAvailable (n : float)
  | BookingFailed
  | BookingNotFound.

Inductive Response (A : Type) :=
  | Json (a : A)
  | Status (code : Z) (message : Message)
  | Unhandled (e : string).
Arguments Json {A} _.
Arguments Status {A} _ _.
Arguments Unhandled {A} _.

Record CreateBookingBody := mkBody {
  body_rideId : string;
  body_passengerId : string;
  body_seatsBooked : option float
}.

(** [z.number().min(1).default(1)]: NaN is no number for zod, and any
    number from 1 up passes, fractions included.  (An infinite
    [seatsBooked], which a body can spell as an overflowing literal, passes
    here as in zod 3; the capacity test refuses it on every ride with a
    finite counter.) *)
Definition createBookingSchema_safeParse (body : CreateBookingBody)
  : option (string * string * float) :=
  let seatsBooked := default 1%float (body_seatsBooked body) in
  if (1 <=? seatsBooked)%float
  then Some (body_rideId body, body_passengerId body, seatsBooked)
  else None.

Definition Handler (A : Type) : Type := Store → Response A * Store.

Definition post_bookings_try (uuid : string) (body : CreateBookingBody)
  : Async (Response Booking) :=
  match createBookingSchema_safeParse body with
  | None => mret (Status 400 ValidationFailed)
  | Some (rideId, passengerId, seatsBooked) =>
      ride ← getRide rideId;
      match ride with
      | None => mret (Status 404 RideNotFound)
      | Some ride =>
          if (Ride.seatsAvailable (fields ride) <? seatsBooked)%float then
            mret (Status 400 (OnlySeatsAvailable (Ride.seatsAvailable (fields ride))))
          else
            booking ← createBooking uuid
              {| Booking.rideId := rideId; Booking.passengerId := passengerId;
                 Booking.status := Booking.pending;
                 Booking.seatsBooked := seatsBooked |};
            let newSeatsAvailable :=
              (Ride.seatsAvailable (fields ride) - seatsBooked)%float in
            updateRide rideId (Ride.only_seatsAvailable newSeatsAvailable);;
            mret (Json booking)
      end
  end.

Definition post_bookings (uuid : string) (body : CreateBookingBody)
  : Handler Booking :=
  λ st, match post_bookings_try uuid body st with
        | (Returned r, st') => (r, st')
        | (Thrown _, st') => (Status 400 BookingFailed, st')
        end.

Definition patch_bookings (id : string) (data : Booking.partial)
  : Handler Booking :=
  λ st, match updateBooking id data st with
        | (Returned (Some booking), st') => (Json booking, st')
        | (Returned None, st') => (Status 404 BookingNotFound, st')
        | (Thrown e, st') => (Unhandled e, st')
        end.

Definition delete_rides (id : string) : Handler bool :=
  λ st, match deleteRide id st with
        | (Returned true, st') => (Json true, st')
        | (Returned false, st') => (Status 404 RideNotFound, st')
        | (Thrown e, st') => (Unhandled e, st')
        end.

Inductive Request :=
  | PostBooking (uuid : string) (body : CreateBookingBody)
  | PatchBooking (id : string) (data : Booking.partial)
  | DeleteRide (id : string).

Definition handle (req : Request) (st : Store) : Store :=
  match req with
  | PostBooking uuid body => (post_bookings uuid body st).2
  | PatchBooking id data => (patch_bookings id data st).2
  | DeleteRide id => (delete_rides id st).2
  end.

Definition serve (reqs : list Request) (st : Store) : Store :=
  foldl (λ st req, handle req st) st reqs.

(** ** The client *)


(** [ride.seatsAvailable === 0] *)
Definition RideCard_book_disabled (ride : Ride) : bool :=
  (Ride.seatsAvailable (fields ride) =? 0)%float.

(** [seatsBooked: 1] *)
Definition dashboard_request (rideId : string) (user : User) : CreateBookingBody :=
  {| body_rideId := rideId; body_passengerId := id_of user;
     body_seatsBooked := Some 1%float |}.

(** ** Closed forms of the writes *)

Definition refund_due (data : Booking.partial) (old : Booking.Status) : bool :=
  bool_decide (Booking.p_status data = Some Booking.rejected)
    && bool_decide (old = Booking.pending)
  || bool_decide (Booking.p_status data = Some Booking.cancelled)
     && (bool_decide (old = Booking.accepted) || bool_decide (old = Booking.pending)).

(** The ride [r] with [n] written to [seatsAvailable]. *)
Definition with_seatsAvailable (n : float) (r : Ride.t) : Ride.t :=
  Ride.patch (Ride.only_seatsAvailable n) r.

Definition pending_booking (rideId passengerId : string) (seatsBooked : float)
  : Booking.t :=
  {| Booking.rideId := rideId; Booking.passengerId := passengerId;
     Booking.status := Booking.pending; Booking.seatsBooked := seatsBooked |}.

Definition reject_if_pending_on (rideId : string) (b : Booking.t) : Booking.t :=
  if bool_decide (Booking.rideId b = rideId)
     && bool_decide (Booking.status b = Booking.pending)
  then Booking.patch (Booking.only_status Booking.rejected) b
  else b.

Definition status_only (data : Booking.partial) : option Booking.Status :=
  match data with
  | {| Booking.p_rideId := None; Booking.p_passengerId := None;
       Booking.p_status := Some s; Booking.p_seatsBooked := None |} => Some s
  | _ => None
  end.

(** ** The law, in exact arithmetic *)

(** The seats a booking holds on ride [k], as an exact value. *)
Definition occupies (k : string) (b : Booking.t) : Z :=
  if bool_decide (Booking.rideId b = k) && holds_seats (Booking.status b)
  then exact0 (Booking.seatsBooked b)
  else 0.

Definition seatsReserved (bs : gmap string Booking.t) (k : string) : Z :=
  map_fold (λ _ b acc, occupies k b + acc) 0 bs.

(** Every seat count of the store is a finite number. *)
Definition finite_seats (st : Store) : Prop :=
  map_Forall (λ _ r, is_Some (exact (Ride.seatsAvailable r))
                     ∧ is_Some (exact (Ride.seatsTotal r))) (rides st)
  ∧ map_Forall (λ _ b, is_Some (exact (Booking.seatsBooked b))) (bookings st).

(** Seat conservation: the seat counts are finite and, for every ride, the
    exact sum of [seatsAvailable] and of the seats its bookings hold is
    [seatsTotal]. *)
Definition conservation (st : Store) : Prop :=
  finite_seats st
  ∧ ∀ k r, rides st !! k = Some r →
      exact0 (Ride.seatsAvailable r) + seatsReserved (bookings st) k
      = exact0 (Ride.seatsTotal r).

(** [0 <= seatsAvailable && seatsAvailable <= seatsTotal], as JavaScript
    evaluates it. *)
Definition seats_within_bounds (st : Store) : Prop :=
  ∀ k r, rides st !! k = Some r →
    (0 <=? Ride.seatsAvailable r)%float = true
    ∧ (Ride.seatsAvailable r <=? Ride.seatsTotal r)%float = true.

(** No counter and no [seatsBooked] is negative (or NaN). *)
Definition nonneg_counters (st : Store) : Prop :=
  (∀ k r, rides st !! k = Some r → (0 <=? Ride.seatsAvailable r)%float = true)
  ∧ (∀ i b, bookings st !! i = Some b → (0 <=? Booking.seatsBooked b)%float = true).

Definition sets_status_only (req : Request) : bool :=
  match req with
  | PatchBooking _ data => bool_decide (is_Some (status_only data))
  | _ => true
  end.

(** Every seat count of the store is a whole number from 0 to
    [Number.MAX_SAFE_INTEGER]. *)
Definition whole_seats (st : Store) : Prop :=
  map_Forall (λ _ r, is_Some (seats_of (Ride.seatsAvailable r))
                     ∧ is_Some (seats_of (Ride.seatsTotal r))) (rides st)
  ∧ map_Forall (λ _ b, is_Some (seats_of (Booking.seatsBooked b))) (bookings st).

Definition accepted {A : Type} (answer : Response A) : bool :=
  match answer with
  | Json _ => true
  | _ => false
  end.

(** A request is accounted for when it is a [DELETE]; a [POST] that is
    refused, or asks for a whole number of seats (or none, which is one);
    or a [PATCH] of the status alone that names a missing booking or makes
    an accounted change. *)
Definition accounted_request (req : Request) (st : Store) : bool :=
  match req with
  | PostBooking uuid body =>
      match body_seatsBooked body with
      | Some n => bool_decide (is_Some (seats_of n))
                  || negb (accepted (post_bookings uuid body st).1)
      | None => true
      end
  | PatchBooking id data =>
      match status_only data with
      | Some s =>
          match bookings st !! id with
          | Some b => accounted (Booking.status b) s
          | None => true
          end
      | None => false
      end
  | DeleteRide _ => true
  end.

Fixpoint accounted_run (reqs : list Request) (st : Store) : bool :=
  match reqs with
  | [] => true
  | req :: reqs' => accounted_request req st && accounted_run reqs' (handle req st)
  end.

(** ** Sample stores *)

Definition campus_ride (seatsTotal seatsAvailable : float) : Ride.t :=
  {| Ride.driverId := "driver-1"; Ride.vehicleId := None;
     Ride.sourceAddress := "Hostel"; Ride.destAddress := "Campus";
     Ride.departureTime := 0;
     Ride.seatsTotal := seatsTotal; Ride.seatsAvailable := seatsAvailable;
     Ride.costPerSeat := 150; Ride.isActive := true;
     Ride.status := Ride.scheduled |}.

Definition booking_on (status : Booking.Status) (seatsBooked : float) : Booking.t :=
  {| Booking.rideId := "ride-1"; Booking.passengerId := "passenger-1";
     Booking.status := status; Booking.seatsBooked := seatsBooked |}.

Definition request_seats (n : float) : CreateBookingBody :=
  {| body_rideId := "ride-1"; body_passengerId := "passenger-1";
     body_seatsBooked := Some n |}.

(** A fresh ride with [n] seats. *)
Definition fresh_ride (n : float) : Store :=
  {| users := ∅; vehicles := ∅;
     rides := {[ "ride-1" := campus_ride n n ]}; bookings := ∅ |}.

Definition set_status (id : string) (s : Booking.Status) : Request :=
  PatchBooking id (Booking.only_status s).

(** Scenario A: request two seats, accept, cancel. *)
Definition scenario_A : list Request :=
  [ PostBooking "booking-1" (request_seats 2);
    set_status "booking-1" Booking.accepted;
    set_status "booking-1" Booking.cancelled ].

(** Accept, then reject: the second change is not accounted for. *)
Definition accept_then_reject : list Request :=
  [ PostBooking "booking-1" (request_seats 2);
    set_status "booking-1" Booking.accepted;
    set_status "booking-1" Booking.rejected ].

(** Cancel, reopen, cancel again: the refund is written twice. *)
Definition cancel_twice : list Request :=
  [ PostBooking "booking-1" (request_seats 2);
    set_status "booking-1" Booking.cancelled;
    set_status "booking-1" Booking.pending;
    set_status "booking-1" Booking.cancelled ].

(** Two requests, of 1.1 and of 1.2 seats, each then cancelled by its
    passenger: every status change is one of the table. *)
Definition fractional_run : list Request :=
  [ PostBooking "booking-1" (request_seats 1.1);
    PostBooking "booking-2" (request_seats 1.2);
    set_status "booking-1" Booking.cancelled;
    set_status "booking-2" Booking.cancelled ].

(** A ride of three seats with one booking of two, in status [old]. *)
Definition store_with (old : Booking.Status) : Store :=
  {| users := ∅; vehicles := ∅;
     rides := {[ "ride-1" := campus_ride 3 (if holds_seats old then 1 else 3) ]};
     bookings := {[ "booking-1" := booking_on old 2 ]} |}.


(** A ride of six seats, all free, with a cancelled booking. *)
Definition store_cancelled (seatsBooked : float) : Store :=
  {| users := ∅; vehicles := ∅;
     rides := {[ "ride-1" := campus_ride 6 6 ]};
     bookings := {[ "booking-1" := booking_on Booking.cancelled seatsBooked ]} |}.

(** Reopen a booking and cancel it again, [n] times over. *)
Fixpoint reopen_and_cancel (n : nat) (id : string) : list Request :=
  match n with
  | O => []
  | S n' =>
      set_status id Booking.pending :: set_status id Booking.cancelled
      :: reopen_and_cancel n' id
  end.

End Double.

Ltac unfold_async :=
  unfold mbind, mret, Async_bind, Async_ret, when in *.

Ltac unfold_double :=
  unfold mbind, mret, Double.Async_bind, Double.Async_ret, Double.when in *.

(** * Verification *)

(** ** Equations of the storage methods *)

Lemma set_bookings_id st : set_bookings (λ m, m) st = st.
Proof. by destruct st. Qed.

Lemma updateBooking_eq id data st :
  updateBooking id data st =
  match bookings st !! id with
  | None => (Returned None, st)
  | Some b =>
      let b' := Booking.patch data b in
      let st1 := set_bookings (insert id b') st in
      (Returned (Some (mapDoc id b')),
       match rides st !! Booking.rideId b' with
       | Some r =>
           if refund_due data (Booking.status b)
           then refund (Booking.rideId b') r (Booking.seatsBooked b') st1
           else st1
       | None => st1
       end)
  end.
Proof.
  unfold updateBooking, getBooking, getRide, updateRide, refund_due, refund,
    BookingModel_findById, BookingModel_findByIdAndUpdate,
    RideModel_findById, RideModel_findByIdAndUpdate.
  unfold_async.
  destruct (bookings st !! id) as [b|] eqn:Hb; simpl; [|done].
  rewrite Hb. simpl.
  destruct (rides st !! _) as [r|] eqn:Hr; simpl; [|done].
  destruct data as [pr pp [[]|] ps], b as [br bp [] bs]; simpl in *;
    rewrite ?Hr; simpl; try done.
Qed.

Lemma post_bookings_eq uuid body st :
  post_bookings uuid body st =
  match createBookingSchema_safeParse body with
  | None => (Status 400 ValidationFailed, st)
  | Some (rideId, passengerId, seatsBooked) =>
      match rides st !! rideId with
      | None => (Status 404 RideNotFound, st)
      | Some r =>
          if Ride.seatsAvailable r <? seatsBooked
          then (Status 400 (OnlySeatsAvailable (Ride.seatsAvailable r)), st)
          else
            let nb := pending_booking rideId passengerId seatsBooked in
            if bookingSchema_valid nb then
              match bookings st !! uuid with
              | Some _ => (Status 400 BookingFailed, st)
              | None =>
                  (Json (mapDoc uuid nb),
                   reserve rideId r seatsBooked (set_bookings (insert uuid nb) st))
              end
            else (Status 400 BookingFailed, st)
      end
  end.
Proof.
  unfold post_bookings, post_bookings_try, createBooking, getRide, updateRide,
    reserve, pending_booking, BookingModel_create,
    RideModel_findById, RideModel_findByIdAndUpdate.
  destruct (createBookingSchema_safeParse body) as [[[rideId passengerId] n]|];
    unfold_async; [|done].
  destruct (rides st !! rideId) as [r|] eqn:Hr; simpl; [|done].
  destruct (Ride.seatsAvailable r <? n); [done|].
  destruct (bookingSchema_valid _); simpl; [|done].
  destruct (bookings st !! uuid); simpl; [done|].
  by rewrite Hr.
Qed.

Lemma BookingModel_findByIdAndUpdate_alter k data st :
  BookingModel_findByIdAndUpdate k data st =
  (Returned (Booking.patch data <$> bookings st !! k),
   set_bookings (alter (Booking.patch data) k) st).
Proof.
  unfold BookingModel_findByIdAndUpdate.
  destruct (bookings st !! k) as [d|] eqn:Hk; simpl; f_equal.
  - unfold set_bookings. f_equal. apply map_eq. intros j.
    rewrite lookup_alter, lookup_insert. case_decide; subst; by rewrite ?Hk.
  - unfold set_bookings. destruct st; simpl in *. f_equal.
    apply map_eq. intros j. rewrite lookup_alter. case_decide; subst; by rewrite ?Hk.
Qed.

Lemma for_of_reject (l : list (string * Booking.t)) st :
  for_of l (λ booking,
    BookingModel_findByIdAndUpdate booking.1 (Booking.only_status Booking.rejected);;
    mret tt) st =
  (Returned tt,
   set_bookings (λ m, foldl (λ m kb,
      alter (Booking.patch (Booking.only_status Booking.rejected)) kb.1 m) m l) st).
Proof.
  revert st. induction l as [|kb l IH]; intros st; simpl.
  - unfold_async. by rewrite set_bookings_id.
  - unfold_async. rewrite BookingModel_findByIdAndUpdate_alter.
    unfold_async. rewrite IH. by destruct st.
Qed.

Lemma lookup_foldl_alter {A} (f : A → A) (l : list (string * A)) (m : gmap string A) k :
  (∀ x, f (f x) = f x) →
  foldl (λ m kb, alter f kb.1 m) m l !! k =
  if bool_decide (k ∈ l.*1) then f <$> m !! k else m !! k.
Proof.
  intros Hf. revert m. induction l as [|[j x] l IH]; intros m; [done|].
  rewrite fmap_cons. cbn [foldl fst]. rewrite IH, lookup_alter.
  destruct (decide (k = j)) as [->|Hne].
  - rewrite decide_True by done.
    rewrite (bool_decide_eq_true_2 (j ∈ j :: l.*1)) by set_solver.
    case_bool_decide; [|done].
    destruct (m !! j); simpl; by rewrite ?Hf.
  - rewrite decide_False by done.
    case_bool_decide as H1; case_bool_decide as H2; try done.
    + exfalso. apply H2, elem_of_cons. by right.
    + apply elem_of_cons in H2 as [?|?]; done.
Qed.

Lemma deleteRide_eq id st :
  deleteRide id st =
  (Returned (bool_decide (is_Some (rides st !! id))),
   {| users := users st; vehicles := vehicles st;
      rides := delete id (rides st);
      bookings := reject_if_pending_on id <$> bookings st |}).
Proof.
  unfold deleteRide, BookingModel_find, RideModel_findByIdAndDelete.
  unfold mbind at 1, Async_bind at 1.
  unfold mbind at 1, Async_bind at 1.
  rewrite for_of_reject. unfold_async. simpl.
  f_equal. unfold set_rides, set_bookings; simpl. f_equal.
  apply map_eq. intros k.
  rewrite lookup_foldl_alter by (by intros []).
  rewrite lookup_fmap. unfold reject_if_pending_on.
  destruct (bookings st !! k) as [b|] eqn:Hk; simpl.
  - case_bool_decide as Hin.
    + apply list_elem_of_fmap in Hin as [[k' b'] [-> Hin]].
      apply list_elem_of_filter in Hin as [Hq Hin]. simpl in *.
      apply elem_of_map_to_list in Hin. rewrite Hk in Hin. inversion Hin; subst.
      by rewrite Hq.
    + destruct (bool_decide _ && bool_decide _) eqn:Hq; [|done].
      exfalso. apply Hin. apply list_elem_of_fmap. exists (k, b). split; [done|].
      apply list_elem_of_filter. split; [done|]. by apply elem_of_map_to_list.
  - by case_bool_decide.
Qed.

(** ** Seat accounting *)

Section SeatAccounting.
Context (k : string).
Implicit Types (bs : gmap string Booking.t) (b : Booking.t) (i : string).

Lemma occupies_other b :
  Booking.rideId b ≠ k → occupies k b = 0.
Proof. intros. unfold occupies. by rewrite bool_decide_eq_false_2. Qed.

Lemma seatsReserved_insert_fresh bs i b :
  bs !! i = None →
  seatsReserved (<[i:=b]> bs) k = occupies k b + seatsReserved bs k.
Proof.
  intros Hi. unfold seatsReserved.
  rewrite map_fold_insert_L; [done| |done].
  intros. lia.
Qed.

Lemma seatsReserved_fmap (g : Booking.t → Booking.t) bs :
  (∀ b, occupies k (g b) = occupies k b) →
  seatsReserved (g <$> bs) k = seatsReserved bs k.
Proof.
  intros Hg. induction bs as [|i b bs Hi IH] using map_ind.
  - by rewrite fmap_empty.
  - rewrite fmap_insert.
    rewrite !seatsReserved_insert_fresh by (by rewrite ?lookup_fmap, ?Hi).
    by rewrite IH, Hg.
Qed.

End SeatAccounting.

(** ** Request sequences *)

Lemma status_only_Some data s :
  status_only data = Some s → data = Booking.only_status s.
Proof. destruct data as [[?|] [?|] [?|] [?|]]; simpl; try done. by intros [= ->]. Qed.

Lemma patch_bookings_store id data st :
  (patch_bookings id data st).2 = (updateBooking id data st).2.
Proof.
  unfold patch_bookings. by destruct (updateBooking id data st) as [[[]|] ?].
Qed.

Lemma delete_rides_store id st :
  (delete_rides id st).2 = (deleteRide id st).2.
Proof.
  unfold delete_rides. by destruct (deleteRide id st) as [[[]|] ?].
Qed.

Lemma safeParse_min body rideId passengerId n :
  createBookingSchema_safeParse body = Some (rideId, passengerId, n) → 1 ≤ n.
Proof.
  unfold createBookingSchema_safeParse.
  destruct (_ <? 1) eqn:Hn; [done|]. intros [= _ _ <-]. lia.
Qed.

(** ** The scenarios, run *)

(** Scenario A: two of three seats requested (1 left), accepted (still 1),
    cancelled (3 again). *)
Example scenario_A_seats :
  Ride.seatsAvailable <$> rides (serve (take 1 scenario_A) store_A) !! "ride-1" = Some 1
  ∧ Ride.seatsAvailable <$> rides (serve (take 2 scenario_A) store_A) !! "ride-1" = Some 1
  ∧ Ride.seatsAvailable <$> rides (serve scenario_A store_A) !! "ride-1" = Some 3
  ∧ Booking.status <$> bookings (serve scenario_A store_A) !! "booking-1"
    = Some Booking.cancelled.
Proof. repeat split; vm_compute; reflexivity. Qed.

(** Scenario D, as the code runs it: both bookings rejected, the ride gone. *)
Example scenario_D_store :
  (delete_rides "ride-1" store_D).1 = Json true
  ∧ (delete_rides "ride-1" store_D).2
    = {| users := ∅; vehicles := ∅; rides := ∅;
         bookings := {[ "booking-1" := booking_on Booking.rejected 1;
                        "booking-2" := booking_on Booking.rejected 2 ]} |}.
Proof. split; vm_compute; reflexivity. Qed.

(** ** Binary64 arithmetic on whole seat counts

    Sums, differences and comparisons of whole numbers up to
    [Number.MAX_SAFE_INTEGER] are exact: the canonical double of [n] has
    mantissa [mant n] and exponent [expo n], and the IEEE operations on
    two such doubles round nothing away. *)

Lemma iter_xO_mul m d : Z.pos (Pos.iter xO m d) = Z.pos m * 2 ^ Z.pos d.
Proof.
  induction d using Pos.peano_ind.
  - simpl. lia.
  - rewrite Pos.iter_succ, Pos2Z.inj_xO, IHd, Pos2Z.inj_succ.
    rewrite Z.pow_succ_r by apply Pos2Z.is_nonneg. ring.
Qed.

Lemma shiftl_mul m k : Z.pos (Pos.shiftl m k) = Z.pos m * 2 ^ Z.of_N k.
Proof.
  destruct k as [|d]; [|apply iter_xO_mul].
  change (Z.pos m = Z.pos m * 1). ring.
Qed.

Lemma digits_bounds p :
  2 ^ (Z.pos (digits2_pos p) - 1) ≤ Z.pos p < 2 ^ Z.pos (digits2_pos p).
Proof.
  induction p as [p IH|p IH|]; simpl digits2_pos.
  - rewrite Pos2Z.inj_succ. change (Z.pos p~1) with (2 * Z.pos p + 1).
    replace (Z.succ (Z.pos (digits2_pos p)) - 1) with (Z.succ (Z.pos (digits2_pos p) - 1)) by lia.
    rewrite !Z.pow_succ_r by lia. lia.
  - rewrite Pos2Z.inj_succ. change (Z.pos p~0) with (2 * Z.pos p).
    replace (Z.succ (Z.pos (digits2_pos p)) - 1) with (Z.succ (Z.pos (digits2_pos p) - 1)) by lia.
    rewrite !Z.pow_succ_r by lia. lia.
  - simpl. lia.
Qed.

Lemma digits_unique p d :
  2 ^ (d - 1) ≤ Z.pos p < 2 ^ d → Z.pos (digits2_pos p) = d.
Proof.
  intros [Hlo Hhi]. pose proof (digits_bounds p) as [Hlo' Hhi'].
  assert (0 < d).
  { destruct (Z.lt_ge_cases 0 d); [done|]. rewrite (Z.pow_neg_r 2 (d - 1)) in Hlo by lia.
    assert (2 ^ d ≤ 1); [|lia].
    destruct (Z.eq_dec d 0) as [->|]; [simpl; lia|]. rewrite Z.pow_neg_r by lia. lia. }
  destruct (Z.lt_trichotomy (Z.pos (digits2_pos p)) d) as [Hlt|[?|Hgt]]; [|done|].
  - assert (2 ^ Z.pos (digits2_pos p) ≤ 2 ^ (d - 1)) by (apply Z.pow_le_mono_r; lia). lia.
  - assert (2 ^ d ≤ 2 ^ (Z.pos (digits2_pos p) - 1)) by (apply Z.pow_le_mono_r; lia). lia.
Qed.

Lemma digits_shiftl m k :
  Z.pos (digits2_pos (Pos.shiftl m k)) = Z.pos (digits2_pos m) + Z.of_N k.
Proof.
  apply digits_unique. rewrite shiftl_mul.
  pose proof (digits_bounds m) as [Hlo Hhi].
  replace (Z.pos (digits2_pos m) + Z.of_N k - 1) with ((Z.pos (digits2_pos m) - 1) + Z.of_N k) by lia.
  rewrite !Z.pow_add_r by lia.
  assert (0 < 2 ^ Z.of_N k) by (apply Z.pow_pos_nonneg; lia).
  split; nia.
Qed.

Lemma shiftl_shiftl m a b : Pos.shiftl (Pos.shiftl m a) b = Pos.shiftl m (a + b).
Proof.
  apply Pos2Z.inj. rewrite !shiftl_mul, N2Z.inj_add, Z.pow_add_r by lia. ring.
Qed.

Lemma shr_1_exact q : shr_1 (exactly (Z.pos q~0)) = exactly (Z.pos q).
Proof. done. Qed.

Lemma iter_shr_exact j : ∀ q,
  iter_pos shr_1 j (exactly (Z.pos (Pos.iter xO q j))) = exactly (Z.pos q).
Proof.
  induction j as [j IH|j IH|]; intros q; cbn [iter_pos Pos.iter].
  - by rewrite shr_1_exact, !IH.
  - by rewrite !IH.
  - done.
Qed.

Lemma shl_align_eq mx ex ex' :
  shl_align mx ex ex' = (Pos.shiftl mx (Z.to_N (ex - ex')), Z.min ex ex').
Proof.
  unfold shl_align. destruct (ex' - ex) as [|d|d] eqn:Hd.
  - replace (ex - ex') with 0 by lia. simpl. f_equal. lia.
  - replace (ex - ex') with (Z.neg d) by lia. simpl. f_equal. lia.
  - replace (ex - ex') with (Z.pos d) by lia. simpl. f_equal. lia.
Qed.

Lemma fexp_normal e : -1021 ≤ e → fexp prec emax e = e - 53.
Proof. intros. unfold fexp, SpecFloat.emin, prec, emax. lia. Qed.

Lemma round_aux_aligned s m e :
  Z.pos (digits2_pos m) = 53 → -1074 ≤ e ≤ 971 →
  binary_round_aux prec emax s (Z.pos m) e loc_Exact = S754_finite s m e.
Proof.
  intros Hd He. unfold binary_round_aux, shr_fexp. simpl Zdigits2. rewrite Hd.
  rewrite fexp_normal by lia. replace (53 + e - 53 - e) with 0 by lia. simpl.
  rewrite Hd. rewrite fexp_normal by lia. replace (53 + e - 53 - e) with 0 by lia. simpl.
  replace (e <=? emax - prec) with true; [done|].
  symmetry. apply Z.leb_le. unfold emax, prec. lia.
Qed.

Lemma round_aux_shift s q j e :
  Z.pos (digits2_pos q) = 53 → -1074 ≤ e + Z.pos j ≤ 971 →
  binary_round_aux prec emax s (Z.pos (Pos.iter xO q j)) e loc_Exact
  = S754_finite s q (e + Z.pos j).
Proof.
  intros Hd He. unfold binary_round_aux, shr_fexp. simpl Zdigits2.
  pose proof (digits_shiftl q (N.pos j)) as Hdig.
  change (Pos.shiftl q (N.pos j)) with (Pos.iter xO q j) in Hdig.
  change (Z.of_N (N.pos j)) with (Z.pos j) in Hdig. rewrite Hdig, Hd.
  rewrite fexp_normal by lia.
  replace (53 + Z.pos j + e - 53 - e) with (Z.pos j) by lia.
  unfold shr. change (shr_record_of_loc (Z.pos (Pos.iter xO q j)) loc_Exact)
    with (exactly (Z.pos (Pos.iter xO q j))).
  rewrite iter_shr_exact. simpl. rewrite Hd.
  rewrite fexp_normal by lia.
  replace (53 + (e + Z.pos j) - 53 - (e + Z.pos j)) with 0 by lia. simpl.
  replace (e + Z.pos j <=? emax - prec) with true; [done|].
  symmetry. apply Z.leb_le. unfold emax, prec. lia.
Qed.

Lemma binary_round_whole s p k :
  Z.pos (digits2_pos p) ≤ 53 →
  binary_round prec emax s (Pos.shiftl p k) (- Z.of_N k)
  = S754_finite s (Pos.shiftl p (Z.to_N (53 - Z.pos (digits2_pos p))))
                (Z.pos (digits2_pos p) - 53).
Proof.
  intros Hd. unfold binary_round.
  rewrite digits_shiftl.
  replace (Z.pos (digits2_pos p) + Z.of_N k + - Z.of_N k)
    with (Z.pos (digits2_pos p)) by lia.
  rewrite fexp_normal by lia. rewrite shl_align_eq.
  set (d := Z.pos (digits2_pos p)) in *.
  destruct (Z.le_gt_cases (Z.of_N k) (53 - d)) as [Hk|Hk].
  - rewrite shiftl_shiftl.
    replace (k + Z.to_N (- Z.of_N k - (d - 53)))%N with (Z.to_N (53 - d)) by lia.
    rewrite Z.min_r by lia.
    apply round_aux_aligned; [|lia].
    rewrite digits_shiftl. fold d. lia.
  - replace (Z.to_N (- Z.of_N k - (d - 53))) with 0%N by lia.
    rewrite Z.min_l by lia.
    change (Pos.shiftl (Pos.shiftl p k) 0) with (Pos.shiftl p k).
    replace k with (Z.to_N (53 - d) + Z.to_N (Z.of_N k - (53 - d)))%N at 1 by lia.
    rewrite <-shiftl_shiftl.
    destruct (Z.to_N (Z.of_N k - (53 - d))) as [|j] eqn:Hj; [lia|].
    change (Pos.shiftl ?x (N.pos j)) with (Pos.iter xO x j).
    rewrite round_aux_shift.
    + f_equal. lia.
    + rewrite digits_shiftl. fold d. lia.
    + lia.
Qed.

Lemma safe_digits p : safe (Z.pos p) → Z.pos (digits2_pos p) ≤ 53.
Proof.
  intros [_ Hp]. unfold max_safe in Hp. pose proof (digits_bounds p) as [Hlo _].
  destruct (Z.le_gt_cases (Z.pos (digits2_pos p)) 53) as [|Hgt]; [done|].
  assert (2 ^ 53 ≤ 2 ^ (Z.pos (digits2_pos p) - 1)) by (apply Z.pow_le_mono_r; lia).
  change (2 ^ 53) with 9007199254740992 in *. lia.
Qed.

Lemma canon_shift p k :
  safe (Z.pos p) →
  binary_round prec emax false (Pos.shiftl p k) (- Z.of_N k)
  = S754_finite false (mant p) (expo p).
Proof. intros Hp. apply binary_round_whole. by apply safe_digits. Qed.

Lemma canon_pos p :
  safe (Z.pos p) → canon (Z.pos p) = S754_finite false (mant p) (expo p).
Proof. intros Hp. apply (canon_shift p 0 Hp). Qed.

Lemma canon_0 : canon 0 = S754_zero false.
Proof. done. Qed.

Lemma mant_value p :
  safe (Z.pos p) → Z.pos (mant p) = Z.pos p * 2 ^ (- expo p).
Proof.
  intros Hp%safe_digits. unfold mant, expo. rewrite shiftl_mul.
  f_equal. f_equal. lia.
Qed.

Lemma mant_digits p : safe (Z.pos p) → Z.pos (digits2_pos (mant p)) = 53.
Proof. intros Hp%safe_digits. unfold mant. rewrite digits_shiftl. lia. Qed.

Lemma expo_range p : safe (Z.pos p) → -52 ≤ expo p ≤ 0.
Proof.
  intros Hp%safe_digits. unfold expo.
  pose proof (Pos2Z.is_pos (digits2_pos p)). lia.
Qed.

Lemma valid_canon n : safe n → valid_binary (canon n) = true.
Proof.
  intros Hn. destruct n as [|p|p]; [done| |destruct Hn; lia].
  rewrite canon_pos by done. simpl. unfold bounded, canonical_mantissa.
  rewrite (mant_digits p Hn). pose proof (expo_range p Hn).
  rewrite fexp_normal by lia.
  apply andb_true_iff. split; [apply Z.eqb_eq; lia|apply Z.leb_le].
  unfold emax, prec. lia.
Qed.

Lemma Prim2SF_whole n : safe n → Prim2SF (whole n) = canon n.
Proof. intros Hn. apply Prim2SF_SF2Prim. by apply valid_canon. Qed.

(** Aligned to a common exponent, the mantissa is the integer shifted. *)
Lemma aligned p e :
  safe (Z.pos p) → e ≤ expo p →
  (shl_align (mant p) (expo p) e).1 = Pos.shiftl p (Z.to_N (- e)).
Proof.
  intros Hp He. rewrite shl_align_eq. simpl. unfold mant.
  rewrite shiftl_shiftl. f_equal.
  pose proof (expo_range p Hp). unfold expo in *. lia.
Qed.

Lemma SFadd_canon a b :
  safe a → safe b → safe (a + b) →
  SF64add (canon a) (canon b) = canon (a + b).
Proof.
  intros Ha Hb Hab.
  destruct a as [|p|p]; [|destruct b as [|q|q]|destruct Ha; lia].
  - rewrite canon_0. simpl. destruct b as [|q|q]; [done| |destruct Hb; lia].
    change (0 + Z.pos q) with (Z.pos q). by rewrite canon_pos by done.
  - rewrite Z.add_0_r, canon_0, canon_pos by done. done.
  - rewrite !canon_pos by done. unfold SF64add, SFadd.
    pose proof (expo_range p Ha). pose proof (expo_range q Hb).
    rewrite !aligned by (done || lia).
    cbn [cond_Zopp].
    set (k := Z.to_N (- Z.min (expo p) (expo q))).
    assert (Hsum : Z.pos (Pos.shiftl p k) + Z.pos (Pos.shiftl q k)
                   = Z.pos (Pos.shiftl (p + q) k)).
    { rewrite !shiftl_mul, Pos2Z.inj_add. ring. }
    rewrite Hsum.
    replace (Z.min (expo p) (expo q)) with (- Z.of_N k) by (unfold k; lia).
    change (Z.pos p + Z.pos q) with (Z.pos (p + q)) in *.
    cbn [binary_normalize].
    rewrite canon_shift by done. by rewrite canon_pos.
  - destruct Hb; lia.
Qed.

Lemma SFsub_canon a b :
  safe a → safe b → b ≤ a →
  SF64sub (canon a) (canon b) = canon (a - b).
Proof.
  intros Ha Hb Hab.
  destruct a as [|p|p]; [|destruct b as [|q|q]|destruct Ha; lia].
  - assert (b = 0) as -> by (destruct Hb; lia). done.
  - rewrite Z.sub_0_r, canon_0, canon_pos by done. done.
  - assert (Hsafe : safe (Z.pos p - Z.pos q)) by (destruct Ha, Hb; split; lia).
    rewrite !canon_pos by done. unfold SF64sub, SFsub.
    pose proof (expo_range p Ha). pose proof (expo_range q Hb).
    rewrite !aligned by (done || lia).
    cbn [cond_Zopp].
    set (k := Z.to_N (- Z.min (expo p) (expo q))).
    replace (Z.min (expo p) (expo q)) with (- Z.of_N k) by (unfold k; lia).
    destruct (Z.pos p - Z.pos q) as [|r|r] eqn:Hr; [| |lia].
    + assert (p = q) as -> by lia. by rewrite Z.sub_diag.
    + assert (Hdiff : Z.pos (Pos.shiftl p k) - Z.pos (Pos.shiftl q k)
                      = Z.pos (Pos.shiftl r k)).
      { rewrite !shiftl_mul. rewrite <-Hr. ring. }
      rewrite Hdiff. cbn [binary_normalize].
      rewrite canon_shift by done. by rewrite canon_pos.
  - destruct Hb; lia.
Qed.

Lemma SFcompare_canon a b :
  safe a → safe b → SFcompare (canon a) (canon b) = Some (a ?= b).
Proof.
  intros Ha Hb.
  destruct a as [|p|p], b as [|q|q];
    try (destruct Ha; lia); try (destruct Hb; lia);
    rewrite ?canon_0, ?canon_pos by done; try done.
  cbn [SFcompare].
  pose proof (digits_bounds p) as [Hp1 Hp2].
  pose proof (digits_bounds q) as [Hq1 Hq2].
  pose proof (mant_value p Ha) as Hmp. pose proof (mant_value q Hb) as Hmq.
  pose proof (safe_digits p Ha). pose proof (safe_digits q Hb).
  unfold expo in *.
  set (dp := Z.pos (digits2_pos p)) in *. set (dq := Z.pos (digits2_pos q)) in *.
  f_equal. symmetry.
  destruct (Z.compare_spec (dp - 53) (dq - 53)) as [Heq|Hlt|Hgt].
  - replace (Pos.compare_cont Eq (mant p) (mant q))
      with (Z.pos (mant p) ?= Z.pos (mant q)) by done.
    rewrite Hmp, Hmq. replace (dq - 53) with (dp - 53) by lia.
    assert (0 < 2 ^ (- (dp - 53))) by (apply Z.pow_pos_nonneg; lia).
    destruct (Z.compare_spec (Z.pos p) (Z.pos q)) as [->|?|?].
    + symmetry. apply Z.compare_refl.
    + symmetry. apply Z.compare_lt_iff. nia.
    + symmetry. apply Z.compare_gt_iff. nia.
  - apply Z.compare_lt_iff.
    assert (2 ^ dp ≤ 2 ^ (dq - 1)) by (apply Z.pow_le_mono_r; lia). lia.
  - apply Z.compare_gt_iff.
    assert (2 ^ dq ≤ 2 ^ (dp - 1)) by (apply Z.pow_le_mono_r; lia). lia.
Qed.

(** ** Whole numbers as doubles *)

Lemma whole_add a b :
  safe a → safe b → safe (a + b) → (whole a + whole b)%float = whole (a + b).
Proof.
  intros Ha Hb Hab. apply Prim2SF_inj.
  rewrite add_spec, !Prim2SF_whole by done. by apply SFadd_canon.
Qed.

Lemma whole_sub a b :
  safe a → safe b → b ≤ a → (whole a - whole b)%float = whole (a - b).
Proof.
  intros Ha Hb Hab. apply Prim2SF_inj.
  assert (safe (a - b)) by (destruct Ha, Hb; split; lia).
  rewrite sub_spec, !Prim2SF_whole by done. by apply SFsub_canon.
Qed.

Lemma whole_ltb a b : safe a → safe b → (whole a <? whole b)%float = (a <? b).
Proof.
  intros Ha Hb. rewrite ltb_spec, !Prim2SF_whole by done.
  unfold SFltb. rewrite SFcompare_canon by done. unfold Z.ltb.
  by destruct (a ?= b).
Qed.

Lemma whole_leb a b : safe a → safe b → (whole a <=? whole b)%float = (a <=? b).
Proof.
  intros Ha Hb. rewrite leb_spec, !Prim2SF_whole by done.
  unfold SFleb. rewrite SFcompare_canon by done. unfold Z.leb.
  by destruct (a ?= b).
Qed.

Lemma whole_eqb a b : safe a → safe b → (whole a =? whole b)%float = (a =? b).
Proof.
  intros Ha Hb. rewrite eqb_spec, !Prim2SF_whole by done.
  unfold SFeqb. rewrite SFcompare_canon by done. by rewrite Z.eqb_compare.
Qed.

Lemma whole_not_nan a : safe a → is_nan (whole a) = false.
Proof. intros Ha. unfold is_nan. rewrite whole_eqb by done. by rewrite Z.eqb_refl. Qed.

Lemma exact_whole n : safe n → exact (whole n) = Some (n * unit_scale).
Proof.
  intros Hn. unfold exact. rewrite Prim2SF_whole by done.
  destruct n as [|p|p]; [done| |destruct Hn; lia].
  rewrite canon_pos by done. cbn [cond_Zopp]. f_equal.
  rewrite mant_value by done. pose proof (expo_range p Hn).
  unfold unit_scale. rewrite <-Z.mul_assoc, <-Z.pow_add_r by lia.
  f_equal. f_equal. lia.
Qed.

Lemma seats_of_Some x n : seats_of x = Some n → safe n ∧ x = whole n.
Proof.
  unfold seats_of.
  set (m := match Prim2SF x with
            | S754_finite false m e => Z.shiftl (Z.pos m) e
            | _ => 0
            end).
  assert (0 ≤ m).
  { unfold m. destruct (Prim2SF x) as [| | |[] p e]; try done.
    by apply Z.shiftl_nonneg. }
  destruct (m <=? max_safe) eqn:Hle; [|done]. simpl.
  destruct (PrimFloat.Leibniz.eqb x (whole m)) eqn:Heq; [|done].
  intros [= <-]. apply Z.leb_le in Hle.
  split; [done|]. by apply FloatAxioms.Leibniz.eqb_spec.
Qed.

Lemma seats_of_whole n : safe n → seats_of (whole n) = Some n.
Proof.
  intros Hn. unfold seats_of. rewrite Prim2SF_whole by done.
  assert (match canon n with
          | S754_finite false m e => Z.shiftl (Z.pos m) e
          | _ => 0
          end = n) as ->.
  { destruct n as [|p|p]; [done| |destruct Hn; lia].
    rewrite canon_pos by done. rewrite mant_value by done.
    pose proof (expo_range p Hn).
    replace (expo p) with (- - expo p) at 2 by lia.
    rewrite Z.shiftl_opp_r, Z.shiftr_div_pow2 by lia.
    apply Z.div_mul. apply Z.pow_nonzero; lia. }
  destruct Hn as [? Hle]. rewrite (proj2 (Z.leb_le _ _) Hle). simpl.
  by rewrite (proj2 (FloatAxioms.Leibniz.eqb_spec _ _) eq_refl).
Qed.

Lemma seats_samples :
  seats_of 6%float = Some 6 ∧ seats_of 1.5%float = None
  ∧ seats_of (-0)%float = None ∧ seats_of nan = None ∧ seats_of infinity = None
  ∧ seats_of 9007199254740991%float = Some 9007199254740991
  ∧ seats_of 9007199254740992%float = None
  ∧ exact 0.5%float = exact (whole 1) ≫= λ u, Some (u / 2).
Proof. repeat split; vm_compute; reflexivity. Qed.

(** ** Signs and NaN

    What the accounting needs of sums and differences of arbitrary doubles:
    a sum of two numbers that are not negative is a number that is not
    negative; so is the difference [x - y] when [x < y] is false, unless it
    is NaN (∞ - ∞). *)

Lemma shr_1_nonneg mrs : 0 ≤ shr_m mrs → 0 ≤ shr_m (shr_1 mrs).
Proof. destruct mrs as [[|[p|p|]|p] r s]; simpl; lia. Qed.

Lemma iter_shr_nonneg p : ∀ mrs, 0 ≤ shr_m mrs → 0 ≤ shr_m (iter_pos shr_1 p mrs).
Proof.
  induction p as [p IH|p IH|]; intros mrs Hm; cbn [iter_pos Pos.iter].
  - by apply IH, IH, shr_1_nonneg.
  - by apply IH, IH.
  - by apply shr_1_nonneg.
Qed.

Lemma shr_fexp_nonneg m e l : 0 ≤ m → 0 ≤ shr_m (shr_fexp prec emax m e l).1.
Proof.
  intros Hm. unfold shr_fexp, shr.
  assert (0 ≤ shr_m (shr_record_of_loc m l)) by (by destruct l as [|[]]).
  destruct (fexp _ _ _ - e); simpl; [done| |done]. by apply iter_shr_nonneg.
Qed.

Lemma round_nearest_even_nonneg m l : 0 ≤ m → 0 ≤ round_nearest_even m l.
Proof. intros. destruct l as [|[]]; simpl; try lia. destruct (Z.even m); lia. Qed.

(** Rounding keeps the sign, and yields no NaN. *)
Lemma round_aux_sign s m e l :
  0 ≤ m →
  match binary_round_aux prec emax s m e l with
  | S754_zero s' | S754_infinity s' | S754_finite s' _ _ => s' = s
  | S754_nan => False
  end.
Proof.
  intros Hm. unfold binary_round_aux.
  pose proof (shr_fexp_nonneg m e l Hm) as H1.
  destruct (shr_fexp prec emax m e l) as [mrs' e']. simpl in H1.
  pose proof (shr_fexp_nonneg _ e' loc_Exact
                (round_nearest_even_nonneg _ (loc_of_shr_record mrs') H1)) as H2.
  destruct (shr_fexp prec emax (round_nearest_even _ _) e' loc_Exact) as [mrs'' e''].
  simpl in H2. destruct (shr_m mrs''); [done| |lia].
  by destruct (e'' <=? emax - prec).
Qed.

Lemma binary_round_sign s m e :
  match binary_round prec emax s m e with
  | S754_zero s' | S754_infinity s' | S754_finite s' _ _ => s' = s
  | S754_nan => False
  end.
Proof.
  unfold binary_round. destruct (shl_align m e _) as [mz ez].
  by apply round_aux_sign.
Qed.

Lemma normalize_not_nan M e : binary_normalize prec emax M e false ≠ S754_nan.
Proof.
  destruct M as [|m|m]; simpl; [done| |].
  - pose proof (binary_round_sign false m e). by destruct (binary_round _ _ _ _ _).
  - pose proof (binary_round_sign true m e). by destruct (binary_round _ _ _ _ _).
Qed.

Lemma normalize_nonneg M e :
  0 ≤ M → SFleb (S754_zero false) (binary_normalize prec emax M e false) = true.
Proof.
  intros HM. destruct M as [|m|m]; simpl; [done| |lia].
  pose proof (binary_round_sign false m e) as Hs.
  destruct (binary_round _ _ _ _ _) as [?|?| |? ? ?]; try done; by subst.
Qed.

Lemma SFcompare_refl x : x ≠ S754_nan → SFcompare x x = Some Eq.
Proof.
  destruct x as [s|[]| |[] m e]; try done; intros _; simpl;
    by rewrite Z.compare_refl, ?Pos.compare_cont_refl.
Qed.

Lemma is_nan_Prim2SF x : is_nan x = true ↔ Prim2SF x = S754_nan.
Proof.
  unfold is_nan. rewrite eqb_spec. unfold SFeqb. split.
  - destruct (Prim2SF x) eqn:Hx; try done; rewrite SFcompare_refl; done.
  - by intros ->.
Qed.

Lemma not_nan_Prim2SF x : is_nan x = false ↔ Prim2SF x ≠ S754_nan.
Proof.
  rewrite <-is_nan_Prim2SF. by destruct (is_nan x).
Qed.

(** The numbers that are not negative: ±0, the positive ones and +∞. *)
Lemma nonneg_Prim2SF x :
  (0 <=? x)%float = true ↔
  match Prim2SF x with
  | S754_zero _ | S754_finite false _ _ | S754_infinity false => True
  | _ => False
  end.
Proof.
  rewrite leb_spec. change (Prim2SF 0) with (S754_zero false).
  by destruct (Prim2SF x) as [?|[]| |[] ? ?].
Qed.

Lemma nonneg_not_nan x : (0 <=? x)%float = true → is_nan x = false.
Proof.
  intros Hx%nonneg_Prim2SF. apply not_nan_Prim2SF. by destruct (Prim2SF x).
Qed.

(** From 1 up: a positive number or +∞. *)
Lemma min_one_Prim2SF x :
  (1 <=? x)%float = true →
  match Prim2SF x with
  | S754_finite false _ _ | S754_infinity false => True
  | _ => False
  end.
Proof.
  rewrite leb_spec. change (Prim2SF 1) with (S754_finite false 4503599627370496 (-52)).
  by destruct (Prim2SF x) as [?|[]| |[] ? ?].
Qed.

Lemma min_one_nonneg x : (1 <=? x)%float = true → (0 <=? x)%float = true.
Proof.
  intros Hx%min_one_Prim2SF. apply nonneg_Prim2SF. by destruct (Prim2SF x) as [?|[]| |[] ? ?].
Qed.

Lemma add_nonneg x y :
  (0 <=? x)%float = true → (0 <=? y)%float = true → (0 <=? x + y)%float = true.
Proof.
  rewrite !nonneg_Prim2SF, add_spec. unfold SF64add.
  destruct (Prim2SF x) as [sx|[]| |[] mx ex]; try done;
    destruct (Prim2SF y) as [sy|[]| |[] my ey]; try done; intros _ _.
  - by destruct sx, sy.
  - cbn [SFadd cond_Zopp].
    match goal with |- context [binary_normalize _ _ ?M ?e _] =>
      pose proof (normalize_nonneg M e) as Hn end.
    destruct (binary_normalize _ _ _ _ _) as [?|[]| |[] ? ?]; try done;
      by (discriminate Hn; lia) || (specialize (Hn ltac:(lia)); done).
Qed.

(** In a valid double the mantissa has 53 digits, or the exponent is the
    least one. *)
Lemma valid_digits m e :
  valid_binary (S754_finite false m e) = true →
  -1074 ≤ e ∧ Z.pos (digits2_pos m) ≤ 53 ∧ (-1074 < e → Z.pos (digits2_pos m) = 53).
Proof.
  simpl. unfold bounded, canonical_mantissa, fexp, SpecFloat.emin, prec, emax.
  intros [H%Z.eqb_eq _]%andb_true_iff. lia.
Qed.

(** Where [x < y] is false for two valid positive doubles, the mantissa of
    [y] is at most that of [x] once both are aligned. *)
Lemma compare_aligned mx ex my ey :
  valid_binary (S754_finite false mx ex) = true →
  valid_binary (S754_finite false my ey) = true →
  SFltb (S754_finite false mx ex) (S754_finite false my ey) = false →
  Z.pos (shl_align my ey (Z.min ex ey)).1 ≤ Z.pos (shl_align mx ex (Z.min ex ey)).1.
Proof.
  intros (Hex & Hdx & Hnx)%valid_digits (Hey & Hdy & Hny)%valid_digits.
  unfold SFltb. cbn [SFcompare]. rewrite !shl_align_eq. cbn [fst].
  rewrite !shiftl_mul.
  destruct (ex ?= ey) eqn:Hc; [|done|].
  - apply Z.compare_eq in Hc. subst ey. rewrite Z.min_id, Z.sub_diag. simpl.
    destruct (Pos.compare_cont Eq mx my) eqn:Hm; try done; intros _.
    + apply Pos.compare_eq in Hm. subst. lia.
    + change (Pos.compare_cont Eq mx my) with (mx ?= my)%positive in Hm.
      apply Pos.compare_gt_iff in Hm. lia.
  - intros _. apply Z.compare_gt_iff in Hc.
    replace (Z.min ex ey) with ey by lia. rewrite Z.sub_diag.
    rewrite !Z2N.id by lia. change (2 ^ 0) with 1.
    pose proof (digits_bounds mx) as [Hmx _].
    pose proof (digits_bounds my) as [_ Hmy].
    rewrite Hnx in Hmx by lia.
    assert (2 ^ Z.pos (digits2_pos my) ≤ 2 ^ 53) by (apply Z.pow_le_mono_r; lia).
    assert (2 ^ 1 ≤ 2 ^ (ex - ey)) by (apply Z.pow_le_mono_r; lia).
    change (2 ^ (53 - 1)) with 4503599627370496 in Hmx.
    change (2 ^ 53) with 9007199254740992 in *. change (2 ^ 1) with 2 in *.
    assert (Z.pos mx * 2 ≤ Z.pos mx * 2 ^ (ex - ey))
      by (apply Z.mul_le_mono_nonneg_l; lia).
    lia.
Qed.

Lemma sub_nonneg x y :
  (0 <=? x)%float = true → (1 <=? y)%float = true → (x <? y)%float = false →
  is_nan (x - y) = true ∨ (0 <=? x - y)%float = true.
Proof.
  intros Hx%nonneg_Prim2SF Hy%min_one_Prim2SF. rewrite ltb_spec.
  rewrite is_nan_Prim2SF, nonneg_Prim2SF, sub_spec. unfold SF64sub.
  pose proof (Prim2SF_valid x) as Hvx. pose proof (Prim2SF_valid y) as Hvy.
  destruct (Prim2SF x) as [sx|[]| |[] mx ex]; try done;
    destruct (Prim2SF y) as [sy|[]| |[] my ey]; try done; intros Hlt;
    try (by left); try (by right).
  right. cbn [SFsub cond_Zopp].
  pose proof (compare_aligned mx ex my ey Hvx Hvy Hlt) as Hle.
  match goal with |- context [binary_normalize _ _ ?M ?e _] =>
    pose proof (normalize_nonneg M e ltac:(lia)) as Hn end.
  by destruct (binary_normalize _ _ _ _ _) as [?|[]| |[] ? ?].
Qed.

(** A finite number less a number from 1 up that it is not below is no
    NaN. *)
Lemma sub_not_nan x y :
  is_Some (exact x) → (1 <=? y)%float = true → (x <? y)%float = false →
  is_nan (x - y) = false.
Proof.
  intros [u Hx] Hy%min_one_Prim2SF. rewrite ltb_spec.
  rewrite not_nan_Prim2SF, sub_spec. unfold SF64sub, exact in *.
  destruct (Prim2SF x) as [sx|[]| |sx mx ex]; try done;
    destruct (Prim2SF y) as [sy|[]| |[] my ey]; try done; intros Hlt; try done.
  all: cbn [SFsub]; apply normalize_not_nan.
Qed.

Lemma unit_scale_pos : 0 < unit_scale.
Proof. unfold unit_scale. by apply Z.pow_pos_nonneg. Qed.

Lemma exact0_whole n : safe n → exact0 (whole n) = n * unit_scale.
Proof. intros Hn. unfold exact0. by rewrite exact_whole. Qed.

Lemma whole_is x :
  is_Some (seats_of x) → ∃ n, safe n ∧ x = whole n.
Proof. intros [n Hn]. apply seats_of_Some in Hn. by exists n. Qed.

Lemma is_whole n : safe n → is_Some (seats_of (whole n)).
Proof. intros Hn. rewrite seats_of_whole by done. by eexists. Qed.

Lemma whole_finite x : is_Some (seats_of x) → is_Some (exact x).
Proof. intros (n & Hn & ->)%whole_is. rewrite exact_whole by done. by eexists. Qed.

Lemma whole_nonneg x : is_Some (seats_of x) → 0 ≤ exact0 x.
Proof.
  intros (n & Hn & ->)%whole_is. rewrite exact0_whole by done.
  pose proof unit_scale_pos. destruct Hn. by apply Z.mul_nonneg_nonneg; lia.
Qed.

(** Whole numbers compare as their exact values do. *)
Lemma scale_le a b : a * unit_scale ≤ b * unit_scale → a ≤ b.
Proof. pose proof unit_scale_pos. intros. by apply (Z.mul_le_mono_pos_r a b unit_scale). Qed.

Lemma accounted_spec old new :
  accounted old new = true
  ↔ releases_seats old new = holds_seats old && negb (holds_seats new)
    ∧ (holds_seats new = true → holds_seats old = true).
Proof. destruct old, new; simpl; intuition congruence. Qed.

(** ** The booking core over binary64 *)

Section DoubleSeats.
Import Double.

Lemma Double_set_bookings_id st : set_bookings (λ m, m) st = st.
Proof. by destruct st. Qed.

Lemma Double_refund_due_status data old s :
  Booking.p_status data = Some s → refund_due data old = releases_seats old s.
Proof. intros Hs. unfold refund_due. rewrite Hs. by destruct old, s. Qed.

Lemma Double_status_only_Some data s :
  status_only data = Some s → data = Booking.only_status s.
Proof. destruct data as [[?|] [?|] [?|] [?|]]; simpl; try done. by intros [= ->]. Qed.

Lemma Double_updateBooking_eq id data st :
  updateBooking id data st =
  match bookings st !! id with
  | None => (Returned None, st)
  | Some b =>
      if castable (Booking.p_seatsBooked data) then
        let b' := Booking.patch data b in
        let st1 := set_bookings (insert id b') st in
        match rides st !! Booking.rideId b' with
        | Some r =>
            if refund_due data (Booking.status b) then
              let n := (Ride.seatsAvailable r + Booking.seatsBooked b')%float in
              if is_nan n then (Thrown "CastError", st1)
              else (Returned (Some (mapDoc id b')),
                    set_rides (insert (Booking.rideId b') (with_seatsAvailable n r)) st1)
            else (Returned (Some (mapDoc id b')), st1)
        | None => (Returned (Some (mapDoc id b')), st1)
        end
      else (Thrown "CastError", st)
  end.
Proof.
  unfold updateBooking, getBooking, getRide, updateRide, refund_due, with_seatsAvailable,
    BookingModel_findById, BookingModel_findByIdAndUpdate,
    RideModel_findById, RideModel_findByIdAndUpdate.
  unfold_double.
  destruct (bookings st !! id) as [b|] eqn:Hb; simpl; [|done].
  destruct (castable _); simpl; [|done].
  rewrite Hb. simpl.
  destruct (rides st !! _) as [r|] eqn:Hr; simpl; [|done].
  destruct data as [pr pp [[]|] ps], b as [br bp [] bs]; simpl in *;
    try done; destruct (is_nan _); simpl; rewrite ?Hr; done.
Qed.

Lemma Double_post_bookings_eq uuid body st :
  post_bookings uuid body st =
  match createBookingSchema_safeParse body with
  | None => (Status 400 ValidationFailed, st)
  | Some (rideId, passengerId, seatsBooked) =>
      match rides st !! rideId with
      | None => (Status 404 RideNotFound, st)
      | Some r =>
          if (Ride.seatsAvailable r <? seatsBooked)%float
          then (Status 400 (OnlySeatsAvailable (Ride.seatsAvailable r)), st)
          else
            let nb := pending_booking rideId passengerId seatsBooked in
            if bookingSchema_valid nb then
              match bookings st !! uuid with
              | Some _ => (Status 400 BookingFailed, st)
              | None =>
                  let st1 := set_bookings (insert uuid nb) st in
                  let n := (Ride.seatsAvailable r - seatsBooked)%float in
                  if is_nan n then (Status 400 BookingFailed, st1)
                  else (Json (mapDoc uuid nb),
                        set_rides (insert rideId (with_seatsAvailable n r)) st1)
              end
            else (Status 400 BookingFailed, st)
      end
  end.
Proof.
  unfold post_bookings, post_bookings_try, createBooking, getRide, updateRide,
    with_seatsAvailable, pending_booking, BookingModel_create,
    RideModel_findById, RideModel_findByIdAndUpdate.
  destruct (createBookingSchema_safeParse body) as [[[rideId passengerId] n]|];
    unfold_double; [|done].
  destruct (rides st !! rideId) as [r|] eqn:Hr; simpl; [|done].
  destruct (Ride.seatsAvailable r <? n)%float; [done|].
  destruct (bookingSchema_valid _); simpl; [|done].
  destruct (bookings st !! uuid); simpl; [done|].
  destruct (is_nan _); simpl; [done|]. by rewrite Hr.
Qed.

Lemma Double_findByIdAndUpdate_alter k s st :
  BookingModel_findByIdAndUpdate k (Booking.only_status s) st =
  (Returned (Booking.patch (Booking.only_status s) <$> bookings st !! k),
   set_bookings (alter (Booking.patch (Booking.only_status s)) k) st).
Proof.
  unfold BookingModel_findByIdAndUpdate. simpl.
  destruct (bookings st !! k) as [d|] eqn:Hk; simpl; f_equal.
  - unfold set_bookings. f_equal. apply map_eq. intros j.
    rewrite lookup_alter, lookup_insert. case_decide; subst; by rewrite ?Hk.
  - unfold set_bookings. destruct st; simpl in *. f_equal.
    apply map_eq. intros j. rewrite lookup_alter. case_decide; subst; by rewrite ?Hk.
Qed.

Lemma Double_for_of_reject (l : list (string * Booking.t)) st :
  for_of l (λ booking,
    BookingModel_findByIdAndUpdate booking.1 (Booking.only_status Booking.rejected);;
    mret tt) st =
  (Returned tt,
   set_bookings (λ m, foldl (λ m kb,
      alter (Booking.patch (Booking.only_status Booking.rejected)) kb.1 m) m l) st).
Proof.
  revert st. induction l as [|kb l IH]; intros st; simpl.
  - unfold_double. by rewrite Double_set_bookings_id.
  - unfold_double. rewrite Double_findByIdAndUpdate_alter.
    unfold_double. rewrite IH. by destruct st.
Qed.

Lemma Double_deleteRide_eq id st :
  deleteRide id st =
  (Returned (bool_decide (is_Some (rides st !! id))),
   {| users := users st; vehicles := vehicles st;
      rides := delete id (rides st);
      bookings := reject_if_pending_on id <$> bookings st |}).
Proof.
  unfold deleteRide, BookingModel_find, RideModel_findByIdAndDelete.
  unfold mbind at 1, Async_bind at 1.
  unfold mbind at 1, Async_bind at 1.
  rewrite Double_for_of_reject. unfold_double. simpl.
  f_equal. unfold set_rides, set_bookings; simpl. f_equal.
  apply map_eq. intros k.
  rewrite lookup_foldl_alter by (by intros []).
  rewrite lookup_fmap. unfold reject_if_pending_on.
  destruct (bookings st !! k) as [b|] eqn:Hk; simpl.
  - case_bool_decide as Hin.
    + apply list_elem_of_fmap in Hin as [[k' b'] [-> Hin]].
      apply list_elem_of_filter in Hin as [Hq Hin]. simpl in *.
      apply elem_of_map_to_list in Hin. rewrite Hk in Hin. inversion Hin; subst.
      by rewrite Hq.
    + destruct (bool_decide _ && bool_decide _) eqn:Hq; [|done].
      exfalso. apply Hin. apply list_elem_of_fmap. exists (k, b). split; [done|].
      apply list_elem_of_filter. split; [done|]. by apply elem_of_map_to_list.
  - by case_bool_decide.
Qed.

Lemma Double_patch_bookings_store id data st :
  (patch_bookings id data st).2 = (updateBooking id data st).2.
Proof.
  unfold patch_bookings. by destruct (updateBooking id data st) as [[[]|] ?].
Qed.

Lemma Double_delete_rides_store id st :
  (delete_rides id st).2 = (deleteRide id st).2.
Proof.
  unfold delete_rides. by destruct (deleteRide id st) as [[[]|] ?].
Qed.

(** *** Seat accounting in exact arithmetic *)

Section Accounting.
Context (k : string).
Implicit Types (bs : gmap string Booking.t) (b : Booking.t) (i : string).

Lemma held_other b : Booking.rideId b ≠ k → occupies k b = 0.
Proof. intros. unfold occupies. by rewrite bool_decide_eq_false_2. Qed.

Lemma held_empty : seatsReserved ∅ k = 0.
Proof. unfold seatsReserved. by rewrite map_fold_empty. Qed.

Lemma held_insert_fresh bs i b :
  bs !! i = None →
  seatsReserved (<[i:=b]> bs) k = occupies k b + seatsReserved bs k.
Proof.
  intros Hi. unfold seatsReserved.
  rewrite map_fold_insert_L; [done| |done].
  intros. lia.
Qed.

Lemma held_insert bs i b0 b :
  bs !! i = Some b0 →
  seatsReserved (<[i:=b]> bs) k
  = occupies k b - occupies k b0 + seatsReserved bs k.
Proof.
  intros Hi.
  rewrite <-(insert_delete_eq bs i b).
  rewrite held_insert_fresh by apply lookup_delete_eq.
  rewrite <-(insert_delete_id bs i b0) at 2 by done.
  rewrite (held_insert_fresh (delete i bs)) by apply lookup_delete_eq.
  lia.
Qed.

Lemma held_fmap (g : Booking.t → Booking.t) bs :
  (∀ b, occupies k (g b) = occupies k b) →
  seatsReserved (g <$> bs) k = seatsReserved bs k.
Proof.
  intros Hg. induction bs as [|i b bs Hi IH] using map_ind.
  - by rewrite fmap_empty.
  - rewrite fmap_insert.
    rewrite !held_insert_fresh by (by rewrite ?lookup_fmap, ?Hi).
    by rewrite IH, Hg.
Qed.

Lemma held_nonneg bs :
  (∀ j b, bs !! j = Some b → 0 ≤ exact0 (Booking.seatsBooked b)) →
  0 ≤ seatsReserved bs k.
Proof.
  induction bs as [|i b bs Hi IH] using map_ind; intros Hbs.
  - by rewrite held_empty.
  - rewrite held_insert_fresh by done.
    assert (0 ≤ seatsReserved bs k).
    { apply IH. intros j b' Hj. apply (Hbs j).
      rewrite lookup_insert_ne; [done|]. intros ->. congruence. }
    assert (0 ≤ exact0 (Booking.seatsBooked b)).
    { apply (Hbs i). by rewrite lookup_insert_eq. }
    unfold occupies. destruct (_ && _); lia.
Qed.

(** The seats one booking holds are among those reserved. *)
Lemma held_member bs i b :
  (∀ j b', bs !! j = Some b' → 0 ≤ exact0 (Booking.seatsBooked b')) →
  bs !! i = Some b →
  occupies k b ≤ seatsReserved bs k.
Proof.
  intros Hbs Hi.
  rewrite <-(insert_delete_id bs i b) by done.
  rewrite held_insert_fresh by apply lookup_delete_eq.
  assert (0 ≤ seatsReserved (delete i bs) k); [|lia].
  apply held_nonneg. intros j b' Hj. apply (Hbs j).
  by apply lookup_delete_Some in Hj as [_ ?].
Qed.

End Accounting.

(** *** Whole seat counts *)

Lemma whole_seats_finite st : whole_seats st → finite_seats st.
Proof.
  intros [Hr Hb]. split.
  - eapply map_Forall_impl; [exact Hr|]. intros k r [? ?]. split; by apply whole_finite.
  - eapply map_Forall_impl; [exact Hb|]. intros ? ? ?. by apply whole_finite.
Qed.

Lemma whole_seats_nonneg st i b :
  whole_seats st → bookings st !! i = Some b → 0 ≤ exact0 (Booking.seatsBooked b).
Proof. intros [_ Hb] Hi. apply whole_nonneg. by apply (Hb i). Qed.

Lemma one_is_whole : is_Some (seats_of 1%float).
Proof. exists 1. vm_compute. reflexivity. Qed.

(** A request the handler refuses leaves the store as it was. *)
Lemma post_refused_store uuid body st :
  finite_seats st →
  accepted (post_bookings uuid body st).1 = false →
  (post_bookings uuid body st).2 = st.
Proof.
  intros [Hf _]. rewrite Double_post_bookings_eq.
  unfold createBookingSchema_safeParse.
  destruct (1 <=? _)%float eqn:Hmin; [|done].
  destruct (rides st !! body_rideId body) as [r|] eqn:Hr; [|done].
  destruct (Ride.seatsAvailable r <? _)%float eqn:Hlt; [done|]. cbn zeta.
  destruct (bookingSchema_valid _); [|done].
  destruct (bookings st !! uuid) eqn:Hu; [done|].
  rewrite sub_not_nan; [done| |done..]. by apply (Hf _ _ Hr).
Qed.

Lemma whole_post uuid body st :
  whole_seats st → conservation st →
  is_Some (seats_of (default 1%float (body_seatsBooked body))) →
  whole_seats (post_bookings uuid body st).2
  ∧ conservation (post_bookings uuid body st).2.
Proof.
  intros Hw Hc Hn. rewrite Double_post_bookings_eq.
  unfold createBookingSchema_safeParse.
  destruct (1 <=? _)%float eqn:Hmin; [|done].
  destruct (rides st !! body_rideId body) as [r|] eqn:Hr; [|done].
  destruct (Ride.seatsAvailable r <? _)%float eqn:Hlt; [done|]. cbn zeta.
  destruct (bookingSchema_valid _); [|done].
  destruct (bookings st !! uuid) eqn:Hu; [done|].
  destruct (whole_is _ Hn) as (N & HN & EN).
  pose proof Hw as [Hwr Hwb]. destruct (Hwr _ _ Hr) as [Ha Ht].
  destruct (whole_is _ Ha) as (A & HA & EA).
  rewrite EN, EA in *. rewrite whole_ltb in Hlt by done. apply Z.ltb_ge in Hlt.
  assert (HAN : safe (A - N)) by (unfold safe in *; lia).
  rewrite whole_sub by done. rewrite whole_not_nan by done. cbn [snd].
  assert (Hw' : whole_seats
    (set_rides (insert (body_rideId body) (with_seatsAvailable (whole (A - N)) r))
       (set_bookings
          (insert uuid (pending_booking (body_rideId body) (body_passengerId body)
                          (whole N))) st))).
  { split; simpl.
    - apply map_Forall_insert_2; [|done]. simpl. split; [by apply is_whole|done].
    - apply map_Forall_insert_2; [|done]. simpl. by apply is_whole. }
  split; [done|]. split; [by apply whole_seats_finite|].
  destruct Hc as [_ Hc]. intros k r'. simpl. rewrite held_insert_fresh by done.
  specialize (Hc k). rewrite lookup_insert. case_decide as Hk.
  - subst k. intros [= <-]. simpl. specialize (Hc r Hr). rewrite EA in Hc.
    unfold occupies, pending_booking. simpl.
    rewrite bool_decide_eq_true_2 by done. simpl.
    rewrite !exact0_whole in * by done. lia.
  - intros Hk'. rewrite held_other by done. rewrite <-(Hc r' Hk'). lia.
Qed.

Lemma whole_patch id s st :
  whole_seats st → conservation st →
  (∀ b, bookings st !! id = Some b → accounted (Booking.status b) s = true) →
  whole_seats (patch_bookings id (Booking.only_status s) st).2
  ∧ conservation (patch_bookings id (Booking.only_status s) st).2.
Proof.
  intros Hw Hc Hacc. rewrite Double_patch_bookings_store, Double_updateBooking_eq.
  destruct (bookings st !! id) as [b|] eqn:Hb; [|done].
  specialize (Hacc b eq_refl). apply accounted_spec in Hacc as [Hrel Htake].
  cbn [castable Booking.only_status Booking.p_seatsBooked].
  rewrite (Double_refund_due_status _ _ s) by done. cbn zeta.
  set (b' := Booking.patch (Booking.only_status s) b).
  assert (Hb' : Booking.rideId b' = Booking.rideId b
                ∧ Booking.seatsBooked b' = Booking.seatsBooked b
                ∧ Booking.status b' = s) by done.
  destruct Hb' as (Hrid & Hsb & Hst). rewrite Hrid, Hsb.
  pose proof Hw as [Hwr Hwb].
  destruct (whole_is _ (Hwb _ _ Hb)) as (S & HS & ES).
  assert (Hwb' : map_Forall (λ _ b, is_Some (seats_of (Booking.seatsBooked b)))
                   (<[id:=b']> (bookings st))).
  { apply map_Forall_insert_2; [|done]. rewrite Hsb. by apply (Hwb _ _ Hb). }
  assert (Hheld : ∀ k, seatsReserved (<[id:=b']> (bookings st)) k
                       = occupies k b' - occupies k b + seatsReserved (bookings st) k)
    by (intros; by apply held_insert).
  assert (Hocc : ∀ k, k ≠ Booking.rideId b → occupies k b' = 0 ∧ occupies k b = 0).
  { intros k Hk. split; apply held_other; congruence. }
  assert (Hsame : holds_seats (Booking.status b) = holds_seats s →
                  ∀ k, occupies k b' = occupies k b).
  { intros Hh k. unfold occupies. by rewrite Hrid, Hsb, Hst, Hh. }
  destruct Hc as [_ Hc].
  assert (Hstay : ∀ st1 : Store,
    rides st1 = rides st → bookings st1 = <[id:=b']> (bookings st) →
    (∀ k, is_Some (rides st !! k) → occupies k b' = occupies k b) →
    whole_seats st1 ∧ conservation st1).
  { intros st1 Hr1 Hb1 Ho.
    assert (Hw1 : whole_seats st1) by (split; [by rewrite Hr1|by rewrite Hb1]).
    split; [done|]. split; [by apply whole_seats_finite|].
    intros k r'. rewrite Hr1, Hb1, Hheld. intros Hk.
    rewrite Ho by (by eexists). rewrite <-(Hc k r' Hk). lia. }
  destruct (rides st !! Booking.rideId b) as [r|] eqn:Hr.
  - destruct (releases_seats (Booking.status b) s) eqn:Hrl.
    + symmetry in Hrel. apply andb_true_iff in Hrel as [Hold Hnew].
      apply negb_true_iff in Hnew.
      destruct (Hwr _ _ Hr) as [Ha Ht].
      destruct (whole_is _ Ha) as (A & HA & EA).
      destruct (whole_is _ Ht) as (T & HT & ET).
      pose proof (Hc _ r Hr) as Hlaw.
      pose proof (held_member (Booking.rideId b) (bookings st) id b
                    (λ j b0, whole_seats_nonneg st j b0 Hw) Hb) as Hmem.
      assert (Hob : occupies (Booking.rideId b) b = S * unit_scale).
      { unfold occupies. rewrite bool_decide_eq_true_2, Hold by done. simpl.
        rewrite ES. by apply exact0_whole. }
      rewrite EA, ET, !exact0_whole in Hlaw by done.
      assert (HAS : safe (A + S)).
      { split; [unfold safe in *; lia|].
        transitivity T; [|by destruct HT]. apply scale_le. lia. }
      rewrite EA, ES, whole_add by done. rewrite whole_not_nan by done. cbn [snd].
      assert (Hw1 : whole_seats
        (set_rides (insert (Booking.rideId b) (with_seatsAvailable (whole (A + S)) r))
           (set_bookings (insert id b') st))).
      { split; simpl; [|done].
        apply map_Forall_insert_2; [|done]. simpl. split; [by apply is_whole|done]. }
      split; [done|]. split; [by apply whole_seats_finite|].
      intros k r'. simpl. rewrite Hheld. rewrite lookup_insert. case_decide as Hk.
      * subst k. intros [= <-]. simpl. rewrite ET, !exact0_whole by done.
        assert (occupies (Booking.rideId b) b' = 0).
        { unfold occupies. by rewrite Hst, Hnew, andb_false_r. }
        lia.
      * intros Hk'. destruct (Hocc k) as [-> ->]; [done|].
        rewrite <-(Hc k r' Hk'). lia.
    + apply Hstay; [done..|]. intros k _. apply Hsame.
      destruct (holds_seats (Booking.status b)), (holds_seats s); simpl in *;
        try done. by rewrite Htake.
  - apply Hstay; [done..|]. intros k [r' Hk].
    destruct (Hocc k) as [-> ->]; [congruence|done].
Qed.

Lemma whole_delete id st :
  whole_seats st → conservation st →
  whole_seats (delete_rides id st).2 ∧ conservation (delete_rides id st).2.
Proof.
  intros Hw Hc. rewrite Double_delete_rides_store, Double_deleteRide_eq. cbn [snd].
  assert (Hw1 : whole_seats
    {| users := users st; vehicles := vehicles st; rides := delete id (rides st);
       bookings := reject_if_pending_on id <$> bookings st |}).
  { destruct Hw as [Hwr Hwb]. split; simpl.
    - by apply map_Forall_delete.
    - apply map_Forall_fmap. eapply map_Forall_impl; [exact Hwb|].
      intros i b Hb. simpl. unfold reject_if_pending_on. by destruct (_ && _). }
  split; [done|]. split; [by apply whole_seats_finite|].
  destruct Hc as [_ Hc]. intros k r. simpl. rewrite lookup_delete. case_decide as Hk; [done|].
  intros Hr. rewrite held_fmap; [by apply Hc|].
  intros b. unfold reject_if_pending_on.
  destruct (bool_decide (Booking.rideId b = id) && _) eqn:Hq; [|done].
  apply andb_true_iff in Hq as [Hq _]. apply bool_decide_eq_true in Hq.
  rewrite !held_other; simpl; congruence.
Qed.

Lemma accounted_handle req st :
  whole_seats st → conservation st → accounted_request req st = true →
  whole_seats (handle req st) ∧ conservation (handle req st).
Proof.
  intros Hw Hc Hreq. destruct req as [uuid body|id data|id]; simpl in *.
  - destruct (body_seatsBooked body) as [n|] eqn:Hn.
    + apply orb_true_iff in Hreq as [Hwhole|Hrefused].
      * apply whole_post; [done..|]. rewrite Hn. by apply bool_decide_eq_true in Hwhole.
      * apply negb_true_iff in Hrefused.
        rewrite post_refused_store; [done| |done]. by apply whole_seats_finite.
    + apply whole_post; [done..|]. rewrite Hn. apply one_is_whole.
  - destruct (status_only data) as [s|] eqn:Hs; [|done].
    apply Double_status_only_Some in Hs as ->.
    apply whole_patch; [done..|]. intros b Hb. by rewrite Hb in Hreq.
  - by apply whole_delete.
Qed.

Lemma accounted_serve reqs st :
  whole_seats st → conservation st → accounted_run reqs st = true →
  whole_seats (serve reqs st) ∧ conservation (serve reqs st).
Proof.
  revert st. induction reqs as [|req reqs IH]; intros st Hw Hc Hrun; [done|].
  simpl in Hrun. apply andb_true_iff in Hrun as [Hreq Hrest].
  change (serve (req :: reqs) st) with (serve reqs (handle req st)).
  destruct (accounted_handle req st Hw Hc Hreq). by apply IH.
Qed.

(** A fresh ride obeys the law, whatever finite number of seats it has. *)
Lemma conservation_fresh_ride n : is_Some (exact n) → conservation (fresh_ride n).
Proof.
  intros Hn. split; [split|]; simpl.
  - by apply map_Forall_singleton.
  - apply map_Forall_empty.
  - intros k r [<- <-]%lookup_singleton_Some. simpl. rewrite held_empty. lia.
Qed.

Lemma whole_fresh_ride n : is_Some (seats_of n) → whole_seats (fresh_ride n).
Proof.
  intros Hn. split; simpl.
  - by apply map_Forall_singleton.
  - apply map_Forall_empty.
Qed.

(** *** Counters never go negative *)

Lemma Double_nonneg_post uuid body st :
  nonneg_counters st → nonneg_counters (post_bookings uuid body st).2.
Proof.
  intros [Hr Hb]. rewrite Double_post_bookings_eq.
  unfold createBookingSchema_safeParse.
  destruct (1 <=? _)%float eqn:Hmin; [|done].
  destruct (rides st !! body_rideId body) as [r|] eqn:Hride; [|done].
  destruct (Ride.seatsAvailable r <? _)%float eqn:Hlt; [done|]. cbn zeta.
  destruct (bookingSchema_valid _); [|done].
  destruct (bookings st !! uuid) eqn:Hu; [done|].
  assert (Hb' : ∀ i b,
    <[uuid:=pending_booking (body_rideId body) (body_passengerId body)
              (default 1%float (body_seatsBooked body))]> (bookings st) !! i = Some b →
    (0 <=? Booking.seatsBooked b)%float = true).
  { intros i b. rewrite lookup_insert. case_decide.
    - intros [= <-]. simpl. by apply min_one_nonneg.
    - apply Hb. }
  destruct (is_nan _) eqn:Hnan; [by split|]. split; [|done].
  simpl. intros k r'. rewrite lookup_insert. case_decide.
  - intros [= <-]. simpl.
    destruct (sub_nonneg _ _ (Hr _ _ Hride) Hmin Hlt); [congruence|done].
  - apply Hr.
Qed.

Lemma Double_nonneg_patch id s st :
  nonneg_counters st →
  nonneg_counters (patch_bookings id (Booking.only_status s) st).2.
Proof.
  intros [Hr Hb]. rewrite Double_patch_bookings_store, Double_updateBooking_eq.
  destruct (bookings st !! id) as [b|] eqn:Hid; [|done].
  cbn [castable Booking.only_status Booking.p_seatsBooked]. cbn zeta.
  assert (Hb' : ∀ i b',
    <[id := Booking.patch (Booking.only_status s) b]> (bookings st) !! i = Some b' →
    (0 <=? Booking.seatsBooked b')%float = true).
  { intros i b'. rewrite lookup_insert. case_decide.
    - intros [= <-]. simpl. by apply (Hb id).
    - apply Hb. }
  destruct (rides st !! _) as [r|] eqn:Hride; [|by split].
  destruct (refund_due _ _); [|by split].
  destruct (is_nan _); [by split|]. split; [|done].
  simpl. intros k r'. rewrite lookup_insert. case_decide.
  - intros [= <-]. simpl. apply add_nonneg; [by apply (Hr _ _ Hride)|by apply (Hb id)].
  - apply Hr.
Qed.

Lemma Double_nonneg_delete id st :
  nonneg_counters st → nonneg_counters (delete_rides id st).2.
Proof.
  intros [Hr Hb]. rewrite Double_delete_rides_store, Double_deleteRide_eq. split; simpl.
  - intros k r. rewrite lookup_delete. case_decide; [done|]. apply Hr.
  - intros i b. rewrite lookup_fmap.
    destruct (bookings st !! i) as [b0|] eqn:Hi; [|done].
    intros [= <-]. specialize (Hb _ _ Hi).
    unfold reject_if_pending_on. by destruct (_ && _).
Qed.

Lemma Double_nonneg_handle req st :
  sets_status_only req = true →
  nonneg_counters st → nonneg_counters (handle req st).
Proof.
  destruct req as [uuid body|id data|id]; simpl; intros Hs Hn.
  - by apply Double_nonneg_post.
  - apply bool_decide_eq_true in Hs as [s Hs].
    apply Double_status_only_Some in Hs as ->. by apply Double_nonneg_patch.
  - by apply Double_nonneg_delete.
Qed.

Lemma Double_nonneg_serve reqs st :
  forallb sets_status_only reqs = true →
  nonneg_counters st → nonneg_counters (serve reqs st).
Proof.
  revert st. induction reqs as [|req reqs IH]; intros st Hs Hn; [done|].
  simpl in Hs. apply andb_true_iff in Hs as [Hreq Hrest].
  change (serve (req :: reqs) st) with (serve reqs (handle req st)).
  apply IH; [done|]. by apply Double_nonneg_handle.
Qed.

(** Where the seat counts are whole and the law holds, the counter is
    within its bounds. *)
Lemma bounds_of_whole st :
  whole_seats st → conservation st → seats_within_bounds st.
Proof.
  intros Hw [_ Hc] k r Hk. pose proof Hw as [Hwr Hwb].
  destruct (Hwr _ _ Hk) as [Ha Ht].
  destruct (whole_is _ Ha) as (A & HA & EA).
  destruct (whole_is _ Ht) as (T & HT & ET).
  pose proof (Hc k r Hk) as Hlaw.
  pose proof (held_nonneg k (bookings st) (λ j b, whole_seats_nonneg st j b Hw)).
  rewrite EA, ET, !exact0_whole in Hlaw by done. rewrite EA, ET.
  change 0%float with (whole 0). rewrite !whole_leb by (done || by vm_compute).
  split; apply Z.leb_le; [by destruct HA|]. apply scale_le. lia.
Qed.

Lemma nonneg_fresh_ride n : (0 <=? n)%float = true → nonneg_counters (fresh_ride n).
Proof.
  intros Hn. split; simpl.
  - by intros k r [<- <-]%lookup_singleton_Some.
  - intros i b. by rewrite lookup_empty.
Qed.

(** *** Requests and status changes on whole seat counts *)

Lemma Double_updateBooking_status id s st b r :
  bookings st !! id = Some b → rides st !! Booking.rideId b = Some r →
  (updateBooking id (Booking.only_status s) st).2 =
  let b' := Booking.patch (Booking.only_status s) b in
  let st1 := set_bookings (insert id b') st in
  if releases_seats (Booking.status b) s then
    let n := (Ride.seatsAvailable r + Booking.seatsBooked b)%float in
    if is_nan n then st1
    else set_rides (insert (Booking.rideId b) (with_seatsAvailable n r)) st1
  else st1.
Proof.
  intros Hb Hr. rewrite Double_updateBooking_eq, Hb.
  cbn [castable Booking.only_status Booking.p_seatsBooked]. cbn zeta.
  rewrite (Double_refund_due_status _ _ s) by done.
  change (Booking.rideId (Booking.patch (Booking.only_status s) b))
    with (Booking.rideId b).
  change (Booking.seatsBooked (Booking.patch (Booking.only_status s) b))
    with (Booking.seatsBooked b).
  rewrite Hr. destruct (releases_seats _ _); [|done]. by destruct (is_nan _).
Qed.

Lemma with_seatsAvailable_back (r : Ride.t) (n : float) :
  with_seatsAvailable (Ride.seatsAvailable r) (with_seatsAvailable n r) = r.
Proof. by destruct r. Qed.

(** An accepted request for a whole number of seats on a ride whose
    counter is whole. *)
Lemma post_bookings_whole uuid body st booking st1 :
  whole_seats st →
  is_Some (seats_of (default 1%float (body_seatsBooked body))) →
  post_bookings uuid body st = (Json booking, st1) →
  ∃ r A N,
    rides st !! body_rideId body = Some r
    ∧ bookings st !! uuid = None
    ∧ safe A ∧ safe N ∧ N ≤ A
    ∧ Ride.seatsAvailable r = whole A
    ∧ default 1%float (body_seatsBooked body) = whole N
    ∧ st1 = set_rides
              (insert (body_rideId body) (with_seatsAvailable (whole (A - N)) r))
              (set_bookings
                 (insert uuid (pending_booking (body_rideId body) (body_passengerId body)
                                 (whole N))) st).
Proof.
  intros [Hwr _] Hn. rewrite Double_post_bookings_eq.
  unfold createBookingSchema_safeParse.
  destruct (1 <=? _)%float eqn:Hmin; [|done].
  destruct (rides st !! body_rideId body) as [r|] eqn:Hr; [|done].
  destruct (Ride.seatsAvailable r <? _)%float eqn:Hlt; [done|]. cbn zeta.
  destruct (bookingSchema_valid _); [|done].
  destruct (bookings st !! uuid) eqn:Hu; [done|].
  destruct (whole_is _ Hn) as (N & HN & EN).
  destruct (Hwr _ _ Hr) as [Ha _].
  destruct (whole_is _ Ha) as (A & HA & EA).
  rewrite EN, EA in *. rewrite whole_ltb in Hlt by done. apply Z.ltb_ge in Hlt.
  assert (HAN : safe (A - N)) by (unfold safe in *; lia).
  rewrite whole_sub by done. rewrite whole_not_nan by done.
  intros [= <- <-]. by exists r, A, N.
Qed.

(** A status change that is not accounted for breaks the law for the ride
    of the booking. *)
Lemma unaccounted_patch_breaks id s st b r :
  conservation st →
  bookings st !! id = Some b → rides st !! Booking.rideId b = Some r →
  exact0 (Booking.seatsBooked b) ≠ 0 →
  accounted (Booking.status b) s = false →
  ¬ conservation (patch_bookings id (Booking.only_status s) st).2.
Proof.
  intros [_ Hc] Hb Hr Hs Hacc [_ Hc'].
  rewrite Double_patch_bookings_store,
    (Double_updateBooking_status id s st b r Hb Hr) in Hc'. cbn zeta in Hc'.
  assert (Hrel : releases_seats (Booking.status b) s = false)
    by (by destruct (Booking.status b), s).
  rewrite Hrel in Hc'. specialize (Hc' (Booking.rideId b) r Hr). simpl in Hc'.
  rewrite (held_insert _ _ _ b) in Hc' by done. specialize (Hc _ _ Hr).
  unfold occupies in Hc'. simpl in Hc'.
  rewrite bool_decide_eq_true_2 in Hc' by done. simpl in Hc'.
  destruct (Booking.status b), s; simpl in *; try done; lia.
Qed.

(** The accepted prefixes of a run. *)
Lemma accounted_run_take n reqs st :
  accounted_run reqs st = true → accounted_run (take n reqs) st = true.
Proof.
  revert n st. induction reqs as [|req reqs IH]; intros [|n] st; try done.
  simpl. intros [Hreq Hrest]%andb_true_iff. rewrite Hreq. simpl. by apply IH.
Qed.

Lemma sets_status_only_take n reqs :
  forallb sets_status_only reqs = true →
  forallb sets_status_only (take n reqs) = true.
Proof.
  revert n. induction reqs as [|req reqs IH]; intros [|n]; try done.
  simpl. intros [Hreq Hrest]%andb_true_iff. rewrite Hreq. simpl. by apply IH.
Qed.

Lemma whole_store_with old : whole_seats (store_with old).
Proof. apply (bool_decide_unpack _). destruct old; vm_compute; exact I. Qed.

Lemma conservation_store_with old : conservation (store_with old).
Proof.
  split; [apply whole_seats_finite, whole_store_with|].
  intros k r. simpl. intros [<- <-]%lookup_singleton_Some.
  destruct old; vm_compute; reflexivity.
Qed.

End DoubleSeats.

(** ** C1: seat conservation *)

(** C1, counterexample.  From a fresh ride of three seats (whole numbers,
    the law holds), request two seats, accept the booking, then reject it:
    [updateBooking] writes [rejected] without a refund, so no booking is
    pending or accepted while [seatsAvailable] stays at 1, and 1 + 0 ≠ 3. *)
Lemma seat_conservation_fails :
  Double.whole_seats (Double.fresh_ride 3)
  ∧ Double.conservation (Double.fresh_ride 3)
  ∧ ¬ Double.conservation (Double.serve Double.accept_then_reject (Double.fresh_ride 3)).
Proof.
  split; [apply whole_fresh_ride; exists 3; by vm_compute|].
  split; [apply conservation_fresh_ride; vm_compute; by eexists|]. intros [_ Hc].
  assert (Hr : Double.rides (Double.serve Double.accept_then_reject (Double.fresh_ride 3))
                 !! "ride-1" = Some (Double.campus_ride 3 1)) by (vm_compute; reflexivity).
  specialize (Hc _ _ Hr). vm_compute in Hc. discriminate.
Qed.

(** The law is also lost where every status change is one of the table, if
    the seats requested are not whole numbers: on a ride of 6 seats, two
    requests of 1.1 and 1.2 seats, both then cancelled, leave
    [seatsAvailable] at 6.000000000000001 with nothing reserved, because
    the differences and sums of the program are rounded. *)
Example fractional_run_breaks_conservation :
  Double.conservation (Double.fresh_ride 6)
  ∧ Double.rides (Double.serve Double.fractional_run (Double.fresh_ride 6)) !! "ride-1"
    = Some (Double.campus_ride 6 6.0000000000000009)
  ∧ Double.finite_seats (Double.serve Double.fractional_run (Double.fresh_ride 6))
  ∧ ¬ Double.conservation (Double.serve Double.fractional_run (Double.fresh_ride 6)).
Proof.
  split; [apply conservation_fresh_ride; vm_compute; by eexists|].
  assert (Hr : Double.rides (Double.serve Double.fractional_run (Double.fresh_ride 6))
                 !! "ride-1" = Some (Double.campus_ride 6 6.0000000000000009))
    by (vm_compute; reflexivity).
  split; [done|]. split.
  - apply (bool_decide_unpack _). vm_compute. exact I.
  - intros [_ Hc]. specialize (Hc _ _ Hr). vm_compute in Hc. discriminate.
Qed.

(** The status changes that are not accounted for are the ones that break
    the law: where it holds, setting a booking that has a ride, and a
    [seatsBooked] other than 0, from accepted to rejected, or from rejected
    or cancelled to pending or accepted, leaves a store where it does not
    hold. *)
Lemma unaccounted_changes_break_the_law
    (id : string) (s : Booking.Status) (st : Double.Store)
    (b : Double.Booking.t) (r : Double.Ride.t) :
  Double.conservation st →
  Double.bookings st !! id = Some b →
  Double.rides st !! Double.Booking.rideId b = Some r →
  exact0 (Double.Booking.seatsBooked b) ≠ 0 →
  accounted (Double.Booking.status b) s = false →
  ¬ Double.conservation (Double.handle (Double.set_status id s) st).
Proof. apply unaccounted_patch_breaks. Qed.

(** So it is for a booking of two seats on a ride of three, whatever the
    change. *)
Example unaccounted_changes_on_a_whole_store (old new : Booking.Status) :
  Double.whole_seats (Double.store_with old)
  ∧ Double.conservation (Double.store_with old)
  ∧ (accounted old new = false →
     ¬ Double.conservation
         (Double.handle (Double.set_status "booking-1" new) (Double.store_with old))).
Proof.
  split; [apply whole_store_with|]. split; [apply conservation_store_with|].
  apply (unaccounted_changes_break_the_law "booking-1" new (Double.store_with old)
           (Double.booking_on old 2)
           (Double.campus_ride 3 (if holds_seats old then 1 else 3))).
  - apply conservation_store_with.
  - reflexivity.
  - reflexivity.
  - vm_compute. discriminate.
Qed.

(** C1, amended.  Seat counts are binary64 numbers, and the law is read in
    exact arithmetic.  Started from a store in which every seat count is a
    whole number up to [Number.MAX_SAFE_INTEGER] and the law holds, both
    are so again after every sequence of [POST /api/bookings],
    [DELETE /api/rides/:id] and status-only [PATCH /api/bookings/:id]
    requests in which every accepted [POST] asks for a whole number of
    seats and every status change is accounted for, that is, is none of
    accepted → rejected, rejected → pending, rejected → accepted,
    cancelled → pending, cancelled → accepted. *)
Theorem seat_conservation_along_accounted_runs
    (reqs : list Double.Request) (st : Double.Store) :
  Double.whole_seats st →
  Double.conservation st →
  Double.accounted_run reqs st = true →
  Double.whole_seats (Double.serve reqs st)
  ∧ Double.conservation (Double.serve reqs st).
Proof.
  revert st. induction reqs as [|req reqs IH]; intros st Hw Hc Hrun; [done|].
  simpl in Hrun. apply andb_true_iff in Hrun as [Hreq Hrest].
  change (Double.serve (req :: reqs) st)
    with (Double.serve reqs (Double.handle req st)).
  destruct (accounted_handle req st Hw Hc Hreq) as [Hw1 Hc1].
  by apply IH.
Qed.

Lemma seat_conservation_along_accounted_runs_witness :
  Double.whole_seats (Double.serve Double.scenario_A (Double.fresh_ride 3))
  ∧ Double.conservation (Double.serve Double.scenario_A (Double.fresh_ride 3)).
Proof.
  apply (seat_conservation_along_accounted_runs Double.scenario_A (Double.fresh_ride 3)).
  - apply whole_fresh_ride. exists 3. vm_compute. reflexivity.
  - apply conservation_fresh_ride. vm_compute. eexists. reflexivity.
  - vm_compute. reflexivity.
Defined.

(** ** C8: bounds of the seat counter *)

(** C8, counterexample.  No write of [seatsAvailable] is clamped.  Request
    two of three seats, cancel, set the booking back to pending (a status
    write with no seat effect), and cancel again: the second refund brings
    [seatsAvailable] to 5 on a ride with [seatsTotal] 3. *)
Lemma seats_bound_fails :
  Double.seats_within_bounds (Double.fresh_ride 3)
  ∧ forallb Double.sets_status_only Double.cancel_twice = true
  ∧ Double.rides (Double.serve Double.cancel_twice (Double.fresh_ride 3)) !! "ride-1"
    = Some (Double.campus_ride 3 5)
  ∧ ¬ Double.seats_within_bounds (Double.serve Double.cancel_twice (Double.fresh_ride 3)).
Proof.
  assert (Hr : Double.rides (Double.serve Double.cancel_twice (Double.fresh_ride 3))
                 !! "ride-1" = Some (Double.campus_ride 3 5)) by (vm_compute; reflexivity).
  split; [|split; [|split]].
  - intros k r. simpl. intros [<- <-]%lookup_singleton_Some. by vm_compute.
  - vm_compute. reflexivity.
  - done.
  - intros Hb. destruct (Hb _ _ Hr) as [_ Hle]. vm_compute in Hle. discriminate.
Qed.

(** C8, amended.  Nothing is clamped, but along every sequence of
    [POST /api/bookings], [DELETE /api/rides/:id] and status-only
    [PATCH /api/bookings/:id] requests, started where no [seatsAvailable]
    and no [seatsBooked] is negative, [0 <= seatsAvailable] is true of
    every ride after each request, for whole numbers and fractions alike
    (the capacity test precedes each deduction and refunds only add).  The
    upper bound [seatsAvailable <= seatsTotal] holds after each request of
    the sequences that are accounted for, started where the seat counts are
    whole numbers and seat conservation holds. *)
Theorem seats_bounds_without_clamp
    (reqs : list Double.Request) (st : Double.Store) (n : nat) :
  forallb Double.sets_status_only reqs = true →
  Double.nonneg_counters st →
  Double.nonneg_counters (Double.serve (take n reqs) st)
  ∧ (Double.whole_seats st → Double.conservation st →
     Double.accounted_run reqs st = true →
     Double.seats_within_bounds (Double.serve (take n reqs) st)).
Proof.
  intros Hs Hn. split.
  - apply Double_nonneg_serve; [|done]. by apply sets_status_only_take.
  - intros Hw Hc Hrun.
    destruct (accounted_serve (take n reqs) st Hw Hc); [by apply accounted_run_take|].
    by apply bounds_of_whole.
Qed.

Lemma seats_bounds_without_clamp_witness :
  Double.nonneg_counters (Double.serve (take 2 Double.scenario_A) (Double.fresh_ride 3))
  ∧ Double.seats_within_bounds
      (Double.serve (take 2 Double.scenario_A) (Double.fresh_ride 3)).
Proof.
  destruct (seats_bounds_without_clamp Double.scenario_A (Double.fresh_ride 3) 2)
    as [Hn Hb].
  - vm_compute. reflexivity.
  - apply nonneg_fresh_ride. vm_compute. reflexivity.
  - split; [exact Hn|]. apply Hb.
    + apply whole_fresh_ride. exists 3. vm_compute. reflexivity.
    + apply conservation_fresh_ride. vm_compute. eexists. reflexivity.
    + vm_compute. reflexivity.
Defined.

(** ** C2 and C5: [POST /api/bookings] *)







(** ** C3, C4, C6, C10: [updateBooking] on the status alone *)

Lemma refund_due_status s old :
  refund_due (Booking.only_status s) old = releases_seats old s.
Proof. by destruct s, old. Qed.

Lemma releases_in_table old s : releases_seats old s = true → in_table old s = true.
Proof. by destruct s, old. Qed.

Lemma updateBooking_status_eq id s st b :
  bookings st !! id = Some b →
  let b' := Booking.patch (Booking.only_status s) b in
  let st1 := set_bookings (insert id b') st in
  updateBooking id (Booking.only_status s) st =
  (Returned (Some (mapDoc id b')),
   match rides st !! Booking.rideId b with
   | Some r =>
       if releases_seats (Booking.status b) s
       then refund (Booking.rideId b) r (Booking.seatsBooked b) st1
       else st1
   | None => st1
   end).
Proof.
  intros Hb. rewrite updateBooking_eq, Hb. simpl.
  by rewrite refund_due_status.
Qed.

(** C3, counterexample.  In Scenario B's store the booking is accepted;
    [PATCH] with [{ status: rejected }] is answered with the updated booking
    and the stored status becomes [rejected].  In Scenario E's store the
    booking is already cancelled; cancelling again is answered the same
    way.  Neither call is refused. *)
Lemma accepted_to_rejected_not_refused :
  Booking.status <$> bookings store_B !! "booking-1" = Some Booking.accepted
  ∧ ¬ transition_refused "booking-1" Booking.rejected store_B
  ∧ Booking.status <$> bookings store_E !! "booking-1" = Some Booking.cancelled
  ∧ ¬ transition_refused "booking-1" Booking.cancelled store_E.
Proof.
  repeat split; try reflexivity.
  - intros [(code & message & Hanswer) _]. vm_compute in Hanswer. discriminate.
  - intros [(code & message & Hanswer) _]. vm_compute in Hanswer. discriminate.
Qed.

(** C3, amended.  [updateBooking] checks no transition.  For every stored
    booking and every status change outside the table — accepted →
    rejected, anything from rejected or cancelled, and the rest — the
    [PATCH] succeeds: it answers the updated booking, stores the new
    status, and leaves every ride, so every [seatsAvailable], unchanged. *)
Theorem status_change_never_refused
    (id : string) (s : Booking.Status) (st : Store) (b : Booking.t) :
  bookings st !! id = Some b →
  in_table (Booking.status b) s = false →
  let b' := Booking.patch (Booking.only_status s) b in
  patch_bookings id (Booking.only_status s) st
  = (Json (mapDoc id b'), set_bookings (insert id b') st)
  ∧ Booking.status b' = s
  ∧ bookings (patch_bookings id (Booking.only_status s) st).2 !! id = Some b'
  ∧ rides (patch_bookings id (Booking.only_status s) st).2 = rides st.
Proof.
  intros Hb Ht b'.
  assert (Heq : patch_bookings id (Booking.only_status s) st
                = (Json (mapDoc id b'), set_bookings (insert id b') st)).
  { unfold patch_bookings. rewrite (updateBooking_status_eq id s st b Hb).
    simpl. fold b'.
    assert (releases_seats (Booking.status b) s = false) as ->.
    { destruct (releases_seats _ _) eqn:Hrel; [|done].
      apply releases_in_table in Hrel. congruence. }
    by destruct (rides st !! Booking.rideId b). }
  rewrite Heq. simpl. by rewrite lookup_insert_eq.
Qed.

Lemma status_change_never_refused_witness :
  patch_bookings "booking-1" (Booking.only_status Booking.rejected) store_B
  = (Json (mapDoc "booking-1" (booking_on Booking.rejected 2)),
     set_bookings (insert "booking-1" (booking_on Booking.rejected 2)) store_B).
Proof.
  apply (status_change_never_refused "booking-1" Booking.rejected store_B
           (booking_on Booking.accepted 2)); reflexivity.
Defined.



(** C6.  Accepting a pending booking stores [accepted] on the booking and
    touches nothing else: the rides, so every [seatsAvailable], are what
    they were. *)
Theorem accept_leaves_ride (id : string) (st : Store) (b : Booking.t) :
  bookings st !! id = Some b →
  Booking.status b = Booking.pending →
  let b' := Booking.patch (Booking.only_status Booking.accepted) b in
  updateBooking id (Booking.only_status Booking.accepted) st
  = (Returned (Some (mapDoc id b')), set_bookings (insert id b') st)
  ∧ Booking.status b' = Booking.accepted
  ∧ rides (updateBooking id (Booking.only_status Booking.accepted) st).2 = rides st
  ∧ users (updateBooking id (Booking.only_status Booking.accepted) st).2 = users st
  ∧ vehicles (updateBooking id (Booking.only_status Booking.accepted) st).2 = vehicles st.
Proof.
  intros Hb Hs b'.
  rewrite (updateBooking_status_eq id _ st b Hb), Hs. simpl.
  by destruct (rides st !! Booking.rideId b).
Qed.

Lemma accept_leaves_ride_witness :
  rides (updateBooking "booking-1" (Booking.only_status Booking.accepted) store_C).2
  = {[ "ride-1" := campus_ride 3 1 ]}.
Proof.
  apply (accept_leaves_ride "booking-1" store_C (booking_on Booking.pending 2));
    reflexivity.
Defined.

(** C10.  Cancelling or rejecting a booking that is already cancelled or
    rejected returns the booking with the new status written and leaves
    the store's rides untouched; hence issuing the same cancellation or
    rejection a second time, whatever the booking's status was before the
    first, changes no ride. *)
Theorem no_double_refund
    (id : string) (s : Booking.Status) (st : Store) (b : Booking.t) :
  bookings st !! id = Some b →
  s = Booking.cancelled ∨ s = Booking.rejected →
  let b' := Booking.patch (Booking.only_status s) b in
  let once := (updateBooking id (Booking.only_status s) st).2 in
  (Booking.status b = Booking.cancelled ∨ Booking.status b = Booking.rejected →
     updateBooking id (Booking.only_status s) st
     = (Returned (Some (mapDoc id b')), set_bookings (insert id b') st))
  ∧ updateBooking id (Booking.only_status s) once
    = (Returned (Some (mapDoc id b')), once).
Proof.
  intros Hb Hs b' once. split.
  - intros Hold. rewrite (updateBooking_status_eq id s st b Hb). simpl.
    assert (releases_seats (Booking.status b) s = false) as ->
      by (by destruct Hs as [-> | ->], Hold as [-> | ->]).
    by destruct (rides st !! Booking.rideId b).
  - assert (Hb1 : bookings once !! id = Some b').
    { unfold once. rewrite (updateBooking_status_eq id s st b Hb). simpl.
      destruct (rides st !! Booking.rideId b); [destruct (releases_seats _ _)|];
        simpl; by rewrite lookup_insert_eq. }
    rewrite (updateBooking_status_eq id s once b' Hb1). simpl.
    assert (releases_seats s s = false) as -> by (by destruct Hs as [-> | ->]).
    assert (set_bookings (insert id (Booking.patch (Booking.only_status s) b')) once
            = once) as ->.
    { destruct once as [u v rs bs]. unfold set_bookings. simpl in *. f_equal.
      by apply insert_id. }
    by destruct (rides once !! Booking.rideId b).
Qed.

(** Scenario E: the booking is cancelled already; cancelling again. *)
Lemma no_double_refund_witness :
  updateBooking "booking-1" (Booking.only_status Booking.cancelled) store_E
  = (Returned (Some (mapDoc "booking-1" (booking_on Booking.cancelled 2))),
     set_bookings (insert "booking-1" (booking_on Booking.cancelled 2)) store_E).
Proof.
  destruct (no_double_refund "booking-1" Booking.cancelled store_E
              (booking_on Booking.cancelled 2)) as [Hfirst _].
  - reflexivity.
  - left. reflexivity.
  - apply Hfirst. left. reflexivity.
Defined.

(** ** C7: [deleteRide] *)

(** C7, counterexample.  Scenario D: after [DELETE /api/rides/ride-1] the
    ride document is gone — there is no inactive ride, and no counter to
    which the three seats could have been refunded. *)
Lemma deleteRide_keeps_no_ride :
  rides (delete_rides "ride-1" store_D).2 !! "ride-1" = None
  ∧ ¬ deactivated_with_refund "ride-1" 3 store_D (delete_rides "ride-1" store_D).2.
Proof.
  assert (Hgone : rides (delete_rides "ride-1" store_D).2 !! "ride-1" = None)
    by (vm_compute; reflexivity).
  split; [exact Hgone|].
  intros (r & r' & _ & Hr' & _). rewrite Hgone in Hr'. discriminate.
Qed.

(** C7, amended.  [deleteRide] sets to [rejected] every booking of the ride
    that is pending, changing nothing else of it, and removes the ride
    document; it writes no [isActive] and no seat counter.  Bookings that
    are not pending on that ride, the other rides, the users and the
    vehicles are untouched, and the result tells whether the ride existed. *)
Theorem deleteRide_rejects_and_removes (id : string) (st : Store) :
  ∃ st', deleteRide id st = (Returned (bool_decide (is_Some (rides st !! id))), st')
    ∧ rides st' = delete id (rides st)
    ∧ rides st' !! id = None
    ∧ (∀ i b, bookings st !! i = Some b →
         Booking.rideId b = id → Booking.status b = Booking.pending →
         bookings st' !! i
         = Some (Booking.patch (Booking.only_status Booking.rejected) b))
    ∧ (∀ i b, bookings st !! i = Some b →
         Booking.rideId b ≠ id ∨ Booking.status b ≠ Booking.pending →
         bookings st' !! i = Some b)
    ∧ (∀ i, bookings st !! i = None → bookings st' !! i = None)
    ∧ users st' = users st
    ∧ vehicles st' = vehicles st.
Proof.
  eexists. split; [apply deleteRide_eq|]. simpl.
  split; [done|]. split; [apply lookup_delete_eq|].
  split; [|split; [|split; [|done]]].
  - intros i b Hb Hid Hs. rewrite lookup_fmap, Hb. simpl.
    unfold reject_if_pending_on. by rewrite !bool_decide_eq_true_2.
  - intros i b Hb Hne. rewrite lookup_fmap, Hb. simpl.
    unfold reject_if_pending_on.
    destruct Hne as [Hne|Hne]; rewrite (bool_decide_eq_false_2 _ Hne);
      [done|by rewrite andb_false_r].
  - intros i Hb. by rewrite lookup_fmap, Hb.
Qed.

(** Scenario D: both pending bookings end rejected. *)
Lemma deleteRide_rejects_and_removes_witness :
  ∃ st', deleteRide "ride-1" store_D = (Returned true, st')
    ∧ rides st' !! "ride-1" = None
    ∧ bookings st' !! "booking-1" = Some (booking_on Booking.rejected 1)
    ∧ bookings st' !! "booking-2" = Some (booking_on Booking.rejected 2).
Proof.
  destruct (deleteRide_rejects_and_removes "ride-1" store_D)
    as (st' & Hrun & _ & Hgone & Hrej & _).
  exists st'. split; [exact Hrun|]. split; [exact Hgone|]. split.
  - apply (Hrej "booking-1" (booking_on Booking.pending 1)); reflexivity.
  - apply (Hrej "booking-2" (booking_on Booking.pending 2)); reflexivity.
Defined.

(** ** C9: the read projections *)

Lemma getBookingWithDetails_reads id st :
  ∃ v, getBookingWithDetails id st = (Returned v, st).
Proof.
  unfold getBookingWithDetails, getBooking, getRide, getUser,
    BookingModel_findById, RideModel_findById, UserModel_findById.
  unfold_async.
  destruct (bookings st !! id) as [b|]; simpl; [|by eexists].
  destruct (rides st !! Booking.rideId b) as [r|]; simpl; by eexists.
Qed.

Lemma push_details_reads bs results st :
  ∃ v, push_details bs results st = (Returned v, st).
Proof.
  revert results. induction bs as [|b bs IH]; intros results; simpl.
  - by eexists.
  - destruct (getBookingWithDetails_reads b.1 st) as [v Hv].
    unfold_async. rewrite Hv. destruct v; apply IH.
Qed.

Lemma read_reads c st : ∃ v, read c st = (Returned v, st).
Proof.
  destruct c; simpl;
    unfold getBookingsByRide, getBookingsByPassenger, BookingModel_find;
    unfold_async; apply push_details_reads.
Qed.

(** C9.  [getBookingsByRide] and [getBookingsByPassenger] return a value
    (they do not throw) and leave the whole store — users, vehicles, rides
    and bookings — as it was; any sequence of such calls leaves the store
    unchanged, and each call in it returns exactly what it returns on the
    initial store, so equal calls return equal results. *)
Theorem read_projections_pure (st : Store) :
  (∀ rideId, ∃ v, getBookingsByRide rideId st = (Returned v, st))
  ∧ (∀ passengerId, ∃ v, getBookingsByPassenger passengerId st = (Returned v, st))
  ∧ (∀ cs, ∃ vs, read_all cs st = (Returned vs, st)
           ∧ Forall2 (λ c v, read c st = (Returned v, st)) cs vs).
Proof.
  split; [|split].
  - intros rideId. apply (read_reads (ListForRide rideId)).
  - intros passengerId. apply (read_reads (ListForPassenger passengerId)).
  - induction cs as [|c cs (vs & Hrun & Hall)]; simpl.
    + exists []. by split.
    + destruct (read_reads c st) as [v Hv].
      exists (v :: vs). unfold_async. rewrite Hv, Hrun.
      split; [done|]. by constructor.
Qed.

(** * Further properties of the booking core *)

(** ** [updateBooking] with an arbitrary body *)




(** ** Reserve, then release *)

Lemma post_bookings_Json uuid body st booking st1 :
  post_bookings uuid body st = (Json booking, st1) →
  ∃ r n,
    rides st !! body_rideId body = Some r
    ∧ bookings st !! uuid = None
    ∧ 1 ≤ n ≤ Ride.seatsAvailable r
    ∧ n = default 1 (body_seatsBooked body)
    ∧ booking = mapDoc uuid (pending_booking (body_rideId body) (body_passengerId body) n)
    ∧ st1 = reserve (body_rideId body) r n
              (set_bookings
                 (insert uuid (pending_booking (body_rideId body) (body_passengerId body) n))
                 st).
Proof.
  rewrite post_bookings_eq.
  destruct (createBookingSchema_safeParse body) as [[[rideId passengerId] n]|] eqn:Hp;
    [|done].
  pose proof (safeParse_min _ _ _ _ Hp) as Hn.
  unfold createBookingSchema_safeParse in Hp.
  destruct (_ <? 1); [done|]. injection Hp as <- <- Hdef.
  destruct (rides st !! _) as [r|] eqn:Hr; [|done].
  destruct (Ride.seatsAvailable r <? n) eqn:Hlt; [done|]. simpl.
  destruct (bookingSchema_valid _); [|done].
  destruct (bookings st !! uuid) eqn:Hu; [done|].
  intros [= <- <-]. exists r, n. apply Z.ltb_ge in Hlt.
  repeat split; try done; lia.
Qed.

(** X3.  For whole numbers of seats, reserve and release are inverse on
    the rides: after a successful [POST /api/bookings] for a whole number
    of seats, on a store of whole seat counts, cancelling or rejecting the
    new booking, at once or after it has been accepted and then cancelled,
    puts back the rides collection exactly as it was before the request;
    the booking stays, with its final status.  For fractions they are not:
    on a ride of 5 seats with 3.9 left after a request of 1.1, requesting
    1.2 seats and cancelling leaves 3.9000000000000004. *)
Theorem request_then_release_restores_rides :
  (∀ (uuid : string) (body : Double.CreateBookingBody) (st st1 : Double.Store)
     (booking : Double.Booking) (s : Booking.Status),
     Double.whole_seats st →
     is_Some (seats_of (default 1%float (Double.body_seatsBooked body))) →
     Double.post_bookings uuid body st = (Double.Json booking, st1) →
     s = Booking.cancelled ∨ s = Booking.rejected →
     Double.rides (Double.patch_bookings uuid (Double.Booking.only_status s) st1).2
     = Double.rides st
     ∧ Double.Booking.status
         <$> Double.bookings
               (Double.patch_bookings uuid (Double.Booking.only_status s) st1).2 !! uuid
       = Some s
     ∧ Double.rides
         (Double.patch_bookings uuid (Double.Booking.only_status Booking.cancelled)
            (Double.patch_bookings uuid (Double.Booking.only_status Booking.accepted)
               st1).2).2
       = Double.rides st)
  ∧ (let st := Double.handle (Double.PostBooking "booking-0" (Double.request_seats 1.1))
                 (Double.fresh_ride 5) in
     let st1 := Double.handle (Double.PostBooking "booking-1" (Double.request_seats 1.2))
                  st in
     let st2 := Double.handle (Double.set_status "booking-1" Booking.cancelled) st1 in
     Double.Ride.seatsAvailable <$> Double.rides st !! "ride-1" = Some 3.9%float
     ∧ Double.Booking.status <$> Double.bookings st1 !! "booking-1" = Some Booking.pending
     ∧ Double.Ride.seatsAvailable <$> Double.rides st2 !! "ride-1"
       = Some 3.9000000000000004%float
     ∧ (3.9 =? 3.9000000000000004)%float = false).
Proof.
  split; [|repeat split; vm_compute; reflexivity].
  intros uuid body st st1 booking s Hw Hn Hpost Hs.
  apply post_bookings_whole in Hpost
    as (r & A & N & Hr & Hu & HA & HN & HNA & EA & EN & ->); [|done..].
  assert (HAN : safe (A - N)) by (unfold safe in *; lia).
  set (nb := Double.pending_booking (Double.body_rideId body)
               (Double.body_passengerId body) (whole N)).
  set (r1 := Double.with_seatsAvailable (whole (A - N)) r).
  set (st1 := Double.set_rides _ _).
  assert (Hb1 : Double.bookings st1 !! uuid = Some nb)
    by (unfold st1; simpl; by rewrite lookup_insert_eq).
  assert (Hr1 : Double.rides st1 !! Double.Booking.rideId nb = Some r1)
    by (unfold st1; simpl; by rewrite lookup_insert_eq).
  assert (Hsum : (Double.Ride.seatsAvailable r1 + Double.Booking.seatsBooked nb)%float
                 = Double.Ride.seatsAvailable r).
  { simpl. rewrite EA, whole_add by (done || (replace (A - N + N) with A by lia; done)).
    f_equal. lia. }
  assert (Hnan : is_nan (Double.Ride.seatsAvailable r1
                         + Double.Booking.seatsBooked nb)%float = false).
  { rewrite Hsum, EA. by apply whole_not_nan. }
  assert (Hback : <[Double.body_rideId body :=
                      Double.with_seatsAvailable (Double.Ride.seatsAvailable r) r1]>
                    (Double.rides st1) = Double.rides st).
  { unfold st1, r1. simpl. rewrite insert_insert_eq, with_seatsAvailable_back.
    by apply insert_id. }
  assert (Hrel : releases_seats Booking.pending s = true)
    by (by destruct Hs as [-> | ->]).
  rewrite !Double_patch_bookings_store.
  rewrite (Double_updateBooking_status uuid s st1 nb r1 Hb1 Hr1).
  rewrite (Double_updateBooking_status uuid Booking.accepted st1 nb r1 Hb1 Hr1).
  cbn zeta. change (Double.Booking.status nb) with Booking.pending.
  rewrite Hrel, Hnan, Hsum. cbn [releases_seats].
  split; [exact Hback|]. split.
  - simpl. by rewrite lookup_insert_eq.
  - set (nb2 := Double.Booking.patch (Double.Booking.only_status Booking.accepted) nb).
    set (st2 := Double.set_bookings (insert uuid nb2) st1).
    assert (Hb2 : Double.bookings st2 !! uuid = Some nb2)
      by (unfold st2; simpl; by rewrite lookup_insert_eq).
    assert (Hr2 : Double.rides st2 !! Double.Booking.rideId nb2 = Some r1) by exact Hr1.
    rewrite (Double_updateBooking_status uuid Booking.cancelled st2 nb2 r1 Hb2 Hr2).
    cbn zeta. change (Double.Booking.status nb2) with Booking.accepted.
    change (Double.Booking.seatsBooked nb2) with (Double.Booking.seatsBooked nb).
    cbn [releases_seats]. rewrite Hnan, Hsum. exact Hback.
Qed.

(** Scenario A, from the fresh ride: two seats requested, then cancelled. *)
Lemma request_then_release_restores_rides_witness :
  Double.rides
    (Double.patch_bookings "booking-1" (Double.Booking.only_status Booking.cancelled)
       (Double.post_bookings "booking-1" (Double.request_seats 2) (Double.fresh_ride 3)).2).2
  = Double.rides (Double.fresh_ride 3).
Proof.
  destruct (proj1 request_then_release_restores_rides
              "booking-1" (Double.request_seats 2) (Double.fresh_ride 3)
              (Double.post_bookings "booking-1" (Double.request_seats 2)
                 (Double.fresh_ride 3)).2
              (mapDoc "booking-1" (Double.booking_on Booking.pending 2))
              Booking.cancelled) as (H & _ & _).
  - apply whole_fresh_ride. exists 3. vm_compute. reflexivity.
  - exists 2. vm_compute. reflexivity.
  - vm_compute. reflexivity.
  - by left.
  - exact H.
Defined.

(** ** After [deleteRide] *)

Lemma reject_if_pending_on_idemp id b :
  reject_if_pending_on id (reject_if_pending_on id b) = reject_if_pending_on id b.
Proof.
  unfold reject_if_pending_on.
  destruct (bool_decide (Booking.rideId b = id)
            && bool_decide (Booking.status b = Booking.pending)) eqn:Hq; rewrite ?Hq;
    [|done].
  simpl. by rewrite andb_false_r.
Qed.

(** X4.  Deleting a ride twice is deleting it once: the second call finds
    nothing, returns [false] (the route answers 404 "Ride not found") and
    leaves the store as the first call left it. *)
Theorem deleteRide_twice (id : string) (st : Store) :
  deleteRide id (deleteRide id st).2 = (Returned false, (deleteRide id st).2)
  ∧ delete_rides id (delete_rides id st).2
    = (Status 404 RideNotFound, (delete_rides id st).2).
Proof.
  assert (Htwice : deleteRide id (deleteRide id st).2
                   = (Returned false, (deleteRide id st).2)).
  { rewrite (deleteRide_eq id st). cbn [snd]. rewrite deleteRide_eq. cbn.
    rewrite lookup_delete_eq.
    rewrite bool_decide_eq_false_2 by (by intros [? ?]).
    f_equal. f_equal.
    - by rewrite delete_delete_eq.
    - rewrite <-map_fmap_compose. apply map_fmap_ext.
      intros i b _. apply reject_if_pending_on_idemp. }
  split; [done|].
  rewrite delete_rides_store. unfold delete_rides at 1. by rewrite Htwice.
Qed.

(** X5.  Once a ride is deleted, the seats of its bookings are owed to
    nobody: whatever status is later written to a booking of that ride,
    no ride of the store changes, and the deleted ride does not come
    back. *)
Theorem no_refund_after_deleteRide
    (id bid : string) (s : Booking.Status) (st : Store) (b : Booking.t) :
  let st1 := (deleteRide id st).2 in
  bookings st1 !! bid = Some b →
  Booking.rideId b = id →
  rides (updateBooking bid (Booking.only_status s) st1).2 = rides st1
  ∧ rides (updateBooking bid (Booking.only_status s) st1).2 !! id = None.
Proof.
  intros st1 Hb Hid.
  assert (Hgone : rides st1 !! id = None).
  { unfold st1. rewrite deleteRide_eq. simpl. apply lookup_delete_eq. }
  rewrite (updateBooking_status_eq bid s st1 b Hb). cbn [snd].
  rewrite Hid, Hgone. by split.
Qed.

(** Scenario D: the two bookings were rejected by the deletion; cancelling
    one of them afterwards finds no ride to credit. *)
Lemma no_refund_after_deleteRide_witness :
  rides (updateBooking "booking-2" (Booking.only_status Booking.cancelled)
           (deleteRide "ride-1" store_D).2).2 = ∅.
Proof.
  etransitivity.
  - apply (no_refund_after_deleteRide "ride-1" "booking-2" Booking.cancelled
             store_D (booking_on Booking.rejected 2)).
    + vm_compute. reflexivity.
    + reflexivity.
  - vm_compute. reflexivity.
Defined.

(** ** The listings *)

Lemma getBookingWithDetails_eq id st :
  getBookingWithDetails id st = (Returned (details_of st id), st).
Proof.
  unfold getBookingWithDetails, details_of, getBooking, getRide, getUser,
    BookingModel_findById, RideModel_findById, UserModel_findById.
  unfold_async.
  destruct (bookings st !! id) as [b|]; simpl; [|done].
  by destruct (rides st !! Booking.rideId b) as [r|].
Qed.

Lemma push_details_eq bs results st :
  push_details bs results st
  = (Returned (results ++ omap (λ kb, details_of st kb.1) bs), st).
Proof.
  revert results. induction bs as [|b bs IH]; intros results; simpl.
  - unfold_async. by rewrite app_nil_r.
  - unfold_async. rewrite getBookingWithDetails_eq.
    destruct (details_of st b.1) as [d|]; rewrite IH; [|done].
    by rewrite <-app_assoc.
Qed.

Lemma getBookingsByRide_eq rideId st :
  getBookingsByRide rideId st
  = (Returned (omap (λ kb, details_of st kb.1) (bookings_where (on_ride rideId) st)), st).
Proof.
  unfold getBookingsByRide, BookingModel_find. unfold_async.
  by rewrite push_details_eq.
Qed.

Lemma getBookingsByPassenger_eq passengerId st :
  getBookingsByPassenger passengerId st
  = (Returned (omap (λ kb, details_of st kb.1)
                 (bookings_where
                    (λ b, bool_decide (Booking.passengerId b = passengerId)) st)), st).
Proof.
  unfold getBookingsByPassenger, BookingModel_find. unfold_async.
  by rewrite push_details_eq.
Qed.

Lemma elem_of_bookings_where query st k b :
  (k, b) ∈ bookings_where query st ↔ bookings st !! k = Some b ∧ query b = true.
Proof.
  unfold bookings_where. rewrite list_elem_of_filter, elem_of_map_to_list.
  simpl. tauto.
Qed.

Lemma omap_all_None {A B} (f : A → option B) (l : list A) :
  (∀ x, x ∈ l → f x = None) → omap f l = [].
Proof.
  induction l as [|x l IH]; intros Hl; [done|]. simpl.
  rewrite (Hl x) by (by left). apply IH. intros y Hy. apply Hl. by right.
Qed.

Lemma omap_all_Some {A B} (f : A → option B) (g : A → B) (l : list A) :
  (∀ x, x ∈ l → f x = Some (g x)) → omap f l = g <$> l.
Proof.
  induction l as [|x l IH]; intros Hl; [done|]. simpl.
  rewrite (Hl x) by (by left). simpl. f_equal. apply IH.
  intros y Hy. apply Hl. by right.
Qed.

(** X6.  The bookings of a deleted ride drop out of every listing although
    they stay in the store: after [deleteRide], [getBookingsByRide] of that
    ride is empty whatever bookings it had, and no passenger's listing
    shows a booking of that ride. *)
Theorem deleted_ride_bookings_unlisted (id : string) (st : Store) :
  let st1 := (deleteRide id st).2 in
  getBookingsByRide id st1 = (Returned [], st1)
  ∧ (∀ passengerId ds d,
       getBookingsByPassenger passengerId st1 = (Returned ds, st1) →
       d ∈ ds → Booking.rideId (fields (bd_booking d)) ≠ id)
  ∧ (∀ i b, bookings st !! i = Some b → is_Some (bookings st1 !! i)).
Proof.
  intros st1.
  assert (Hgone : rides st1 !! id = None).
  { unfold st1. rewrite deleteRide_eq. simpl. apply lookup_delete_eq. }
  split; [|split].
  - rewrite getBookingsByRide_eq. f_equal. f_equal. apply omap_all_None.
    intros [k b] [Hb Hq]%elem_of_bookings_where. simpl.
    unfold on_ride in Hq. apply bool_decide_eq_true in Hq.
    unfold details_of. rewrite Hb. simpl. by rewrite Hq, Hgone.
  - intros passengerId ds d. rewrite getBookingsByPassenger_eq.
    intros [= <-] Hd. apply list_elem_of_omap in Hd as ([k b] & _ & Hd).
    simpl in Hd. unfold details_of in Hd.
    destruct (bookings st1 !! k) as [b'|]; simpl in Hd; [|done].
    destruct (rides st1 !! Booking.rideId b') as [r|] eqn:Hr; simpl in Hd; [|done].
    injection Hd as <-. simpl. intros Heq. rewrite Heq in Hr. congruence.
  - intros i b Hb. unfold st1. rewrite deleteRide_eq. simpl.
    rewrite lookup_fmap, Hb. by eexists.
Qed.

Lemma details_of_booking st k d :
  details_of st k = Some d →
  ∃ b r, bookings st !! k = Some b ∧ rides st !! Booking.rideId b = Some r
    ∧ bd_booking d = mapDoc k b ∧ bd_ride d = mapDoc (Booking.rideId b) r
    ∧ bd_passenger d
      = getSafeDriver (mapDoc (Booking.passengerId b)
                         <$> users st !! Booking.passengerId b)
                      (Booking.passengerId b)
    ∧ bd_driver d
      = stripPassword <$> (mapDoc (Ride.driverId r) <$> users st !! Ride.driverId r).
Proof.
  unfold details_of.
  destruct (bookings st !! k) as [b|]; simpl; [|done].
  destruct (rides st !! Booking.rideId b) as [r|] eqn:Hr; simpl; [|done].
  intros [= <-]. exists b, r. repeat split; done.
Qed.

(** X7.  [getBookingsByRide] of an existing ride lists the stored bookings
    of that ride, all of them whatever their status and each once, and
    attaches the ride to each. *)
Theorem getBookingsByRide_lists_the_ride
    (rideId : string) (st : Store) (r : Ride.t) :
  rides st !! rideId = Some r →
  ∃ ds, getBookingsByRide rideId st = (Returned ds, st)
    ∧ (∀ i b, mapDoc i b ∈ bd_booking <$> ds
              ↔ bookings st !! i = Some b ∧ Booking.rideId b = rideId)
    ∧ NoDup ((λ d, id_of (bd_booking d)) <$> ds)
    ∧ (∀ d, d ∈ ds → bd_ride d = mapDoc rideId r).
Proof.
  intros Hr. eexists. split; [apply getBookingsByRide_eq|].
  set (g := λ kb : string * Booking.t,
         {| bd_booking := mapDoc kb.1 kb.2; bd_ride := mapDoc rideId r;
            bd_passenger :=
              getSafeDriver (mapDoc (Booking.passengerId kb.2)
                               <$> users st !! Booking.passengerId kb.2)
                            (Booking.passengerId kb.2);
            bd_driver :=
              stripPassword <$> (mapDoc (Ride.driverId r)
                                   <$> users st !! Ride.driverId r) |}).
  rewrite (omap_all_Some _ g).
  2:{ intros [k b] [Hb Hq]%elem_of_bookings_where. simpl.
      apply bool_decide_eq_true in Hq. simpl in Hq. unfold details_of.
      rewrite Hb. simpl. rewrite Hq, Hr. done. }
  split; [|split].
  - intros i b. rewrite <-list_fmap_compose. rewrite list_elem_of_fmap. split.
    + intros ([k b'] & Heq & Hin). simpl in Heq. injection Heq as -> ->.
      apply elem_of_bookings_where in Hin as [Hb Hq].
      apply bool_decide_eq_true in Hq. done.
    + intros [Hb Hq]. exists (i, b). split; [done|].
      apply elem_of_bookings_where. split; [done|]. by apply bool_decide_eq_true.
  - rewrite <-list_fmap_compose.
    assert (((λ d, id_of (bd_booking d)) ∘ g) = fst) as -> by done.
    unfold bookings_where.
    apply (sublist_NoDup _ ((map_to_list (bookings st)).*1)).
    + apply NoDup_fst_map_to_list.
    + apply fmap_sublist, sublist_filter.
  - intros d ([k b] & -> & _)%list_elem_of_fmap. done.
Qed.

(** Scenario D's store: both pending bookings are listed. *)
Lemma getBookingsByRide_lists_the_ride_witness :
  ∃ ds, getBookingsByRide "ride-1" store_D = (Returned ds, store_D)
    ∧ mapDoc "booking-1" (booking_on Booking.pending 1) ∈ bd_booking <$> ds
    ∧ mapDoc "booking-2" (booking_on Booking.pending 2) ∈ bd_booking <$> ds.
Proof.
  destruct (getBookingsByRide_lists_the_ride "ride-1" store_D (campus_ride 3 0))
    as (ds & Hrun & Hin & _).
  - reflexivity.
  - exists ds. split; [exact Hrun|].
    split; apply Hin; split; reflexivity.
Defined.

(** X8.  No stored password leaves through the booking listings: in every
    entry either listing returns, the driver carries no password, and the
    passenger carries none either unless the passenger's user document is
    missing, in which case the entry shows the placeholder user whose
    password is the empty string. *)
Theorem listings_carry_no_stored_password
    (c : ReadCall) (st : Store) (ds : list BookingWithDetails)
    (d : BookingWithDetails) :
  read c st = (Returned ds, st) →
  d ∈ ds →
  (∀ u, bd_driver d = Some u → User.password (fields u) = None)
  ∧ (∀ p, User.password (fields (bd_passenger d)) = Some p →
       p = EmptyString
       ∧ users st !! Booking.passengerId (fields (bd_booking d)) = None).
Proof.
  intros Hread Hd.
  assert (∃ k, details_of st k = Some d) as [k Hk].
  { destruct c; simpl in Hread;
      rewrite ?getBookingsByRide_eq, ?getBookingsByPassenger_eq in Hread;
      injection Hread as <-;
      apply list_elem_of_omap in Hd as ([k b] & _ & Hd); by exists k. }
  apply details_of_booking in Hk as (b & r & _ & _ & -> & _ & -> & ->).
  simpl. split.
  - intros u. destruct (users st !! Ride.driverId r); simpl; [|done].
    by intros [= <-].
  - intros p. destruct (users st !! Booking.passengerId b); simpl; [done|].
    by intros [= <-].
Qed.

(** Scenario D's store has no user documents: the listed passenger is the
    placeholder. *)
Lemma listings_carry_no_stored_password_witness :
  ∃ ds d, read (ListForRide "ride-1") store_D = (Returned ds, store_D)
    ∧ d ∈ ds
    ∧ bd_driver d = None
    ∧ (∀ p, User.password (fields (bd_passenger d)) = Some p → p = EmptyString).
Proof.
  eexists _, _. split; [apply getBookingsByRide_eq|].
  split; [vm_compute; apply list_elem_of_here|].
  split; [reflexivity|].
  intros p Hp.
  eapply (listings_carry_no_stored_password (ListForRide "ride-1") store_D).
  - apply getBookingsByRide_eq.
  - vm_compute. apply list_elem_of_here.
  - exact Hp.
Defined.

(** X9.  A booking just made is listed: after a successful
    [POST /api/bookings], both the ride's listing and the passenger's show
    the booking that was answered, with status pending. *)
Theorem new_booking_is_listed
    (uuid : string) (body : CreateBookingBody) (st st1 : Store) (booking : Booking) :
  post_bookings uuid body st = (Json booking, st1) →
  Booking.status (fields booking) = Booking.pending
  ∧ (∃ ds, getBookingsByRide (body_rideId body) st1 = (Returned ds, st1)
       ∧ booking ∈ bd_booking <$> ds)
  ∧ (∃ ds, getBookingsByPassenger (body_passengerId body) st1 = (Returned ds, st1)
       ∧ booking ∈ bd_booking <$> ds).
Proof.
  intros Hpost.
  apply post_bookings_Json in Hpost as (r & n & Hr & Hu & Hn & _ & -> & ->).
  set (nb := pending_booking (body_rideId body) (body_passengerId body) n).
  set (st1 := reserve _ r n _).
  assert (Hb1 : bookings st1 !! uuid = Some nb) by (simpl; by rewrite lookup_insert_eq).
  assert (Hr1 : ∃ r1, rides st1 !! Booking.rideId nb = Some r1)
    by (eexists; simpl; by rewrite lookup_insert_eq).
  destruct Hr1 as [r1 Hr1].
  assert (Hd : ∃ d, details_of st1 uuid = Some d ∧ bd_booking d = mapDoc uuid nb).
  { unfold details_of. rewrite Hb1. cbn [mbind option_bind]. rewrite Hr1.
    eexists. split; [reflexivity|done]. }
  destruct Hd as (d & Hd & Hdb).
  split; [done|]. split.
  - eexists. split; [apply getBookingsByRide_eq|].
    apply list_elem_of_fmap. exists d. split; [done|].
    apply list_elem_of_omap. exists (uuid, nb). split; [|done].
    apply elem_of_bookings_where. split; [done|]. by apply bool_decide_eq_true.
  - eexists. split; [apply getBookingsByPassenger_eq|].
    apply list_elem_of_fmap. exists d. split; [done|].
    apply list_elem_of_omap. exists (uuid, nb). split; [|done].
    apply elem_of_bookings_where. split; [done|]. by apply bool_decide_eq_true.
Qed.

Lemma new_booking_is_listed_witness :
  ∃ ds, getBookingsByRide "ride-1"
          (post_bookings "booking-1" (request_seats 2) store_A).2
        = (Returned ds, (post_bookings "booking-1" (request_seats 2) store_A).2)
    ∧ mapDoc "booking-1" (booking_on Booking.pending 2) ∈ bd_booking <$> ds.
Proof.
  destruct (new_booking_is_listed "booking-1" (request_seats 2) store_A
              (post_bookings "booking-1" (request_seats 2) store_A).2
              (mapDoc "booking-1" (booking_on Booking.pending 2)))
    as (_ & Hride & _).
  - vm_compute. reflexivity.
  - exact Hride.
Defined.

(** ** What booking traffic never does *)

Lemma same_but_seats_refl r : same_but_seats r r.
Proof. unfold same_but_seats. by destruct r. Qed.

Lemma same_but_seats_patch r r' n :
  same_but_seats r r' →
  same_but_seats r (Ride.patch (Ride.only_seatsAvailable n) r').
Proof. unfold same_but_seats. intros <-. by destruct r. Qed.

Lemma handle_rides_frame req st k r' :
  rides (handle req st) !! k = Some r' →
  ∃ r, rides st !! k = Some r ∧ same_but_seats r r'.
Proof.
  destruct req as [uuid body|id data|id]; simpl.
  - rewrite post_bookings_eq.
    destruct (createBookingSchema_safeParse body) as [[[rideId passengerId] n]|];
      [|eauto using same_but_seats_refl].
    destruct (rides st !! rideId) as [r|] eqn:Hr; [|eauto using same_but_seats_refl].
    destruct (_ <? n); [eauto using same_but_seats_refl|]. simpl.
    destruct (bookingSchema_valid _); [|eauto using same_but_seats_refl].
    destruct (bookings st !! uuid); [eauto using same_but_seats_refl|]. simpl.
    rewrite lookup_insert. case_decide as Hk; [|eauto using same_but_seats_refl].
    subst k. intros [= <-]. exists r. split; [done|].
    apply same_but_seats_patch, same_but_seats_refl.
  - rewrite patch_bookings_store, updateBooking_eq.
    destruct (bookings st !! id) as [b|]; [|eauto using same_but_seats_refl]. simpl.
    destruct (rides st !! _) as [r|] eqn:Hr; [|eauto using same_but_seats_refl].
    destruct (refund_due _ _); [|eauto using same_but_seats_refl]. simpl.
    rewrite lookup_insert. case_decide as Hk; [|eauto using same_but_seats_refl].
    subst k. intros [= <-]. exists r. split; [done|].
    apply same_but_seats_patch, same_but_seats_refl.
  - rewrite delete_rides_store, deleteRide_eq. simpl.
    rewrite lookup_delete. case_decide; [done|]. eauto using same_but_seats_refl.
Qed.

(** X10.  Booking traffic never creates a ride and writes no field of a
    ride but [seatsAvailable]: after any sequence of
    [POST /api/bookings], [PATCH /api/bookings/:id] (with any body) and
    [DELETE /api/rides/:id] requests, every ride of the store was already
    there, with the same [seatsTotal], price, driver, activity and status. *)
Theorem booking_traffic_frames_rides
    (reqs : list Request) (st : Store) (k : string) (r' : Ride.t) :
  rides (serve reqs st) !! k = Some r' →
  ∃ r, rides st !! k = Some r
    ∧ same_but_seats r r'
    ∧ Ride.seatsTotal r' = Ride.seatsTotal r
    ∧ Ride.costPerSeat r' = Ride.costPerSeat r
    ∧ Ride.isActive r' = Ride.isActive r
    ∧ Ride.status r' = Ride.status r
    ∧ Ride.driverId r' = Ride.driverId r.
Proof.
  intros Hk.
  assert (Hframe : ∃ r, rides st !! k = Some r ∧ same_but_seats r r').
  { revert st Hk. induction reqs as [|req reqs IH]; intros st Hk.
    - exists r'. split; [done|]. apply same_but_seats_refl.
    - change (serve (req :: reqs) st) with (serve reqs (handle req st)) in Hk.
      apply IH in Hk as (r1 & Hr1 & Hs1).
      apply handle_rides_frame in Hr1 as (r & Hr & Hs).
      exists r. split; [done|]. unfold same_but_seats in *.
      rewrite <-Hs1, <-Hs. by destruct r. }
  destruct Hframe as (r & Hr & Hs). exists r. split; [done|]. split; [done|].
  unfold same_but_seats in Hs. rewrite <-Hs. by destruct r.
Qed.

(** The run that overshoots [seatsTotal] still leaves it at 3. *)
Lemma booking_traffic_frames_rides_witness :
  ∃ r, rides store_A !! "ride-1" = Some r
    ∧ same_but_seats r (campus_ride 3 5)
    ∧ Ride.seatsTotal (campus_ride 3 5) = Ride.seatsTotal r.
Proof.
  destruct (booking_traffic_frames_rides cancel_twice store_A "ride-1" (campus_ride 3 5))
    as (r & Hr & Hs & Ht & _).
  - vm_compute. reflexivity.
  - exists r. split; [exact Hr|]. split; [exact Hs|exact Ht].
Defined.

Lemma handle_keeps_booking req st i b :
  sets_status_only req = true →
  bookings st !! i = Some b →
  ∃ b', bookings (handle req st) !! i = Some b' ∧ same_but_status b b'.
Proof.
  intros Hs Hb.
  assert (Hrefl : same_but_status b b) by done.
  destruct req as [uuid body|id data|id]; simpl.
  - rewrite post_bookings_eq.
    destruct (createBookingSchema_safeParse body) as [[[rideId passengerId] n]|];
      [|eauto].
    destruct (rides st !! rideId) as [r|]; [|eauto].
    destruct (_ <? n); [eauto|]. simpl.
    destruct (bookingSchema_valid _); [|eauto].
    destruct (bookings st !! uuid) eqn:Hu; [eauto|]. simpl.
    exists b. split; [|done]. rewrite lookup_insert_ne; [done|]. congruence.
  - simpl in Hs. apply bool_decide_eq_true in Hs as [s Hs].
    apply status_only_Some in Hs as ->.
    rewrite patch_bookings_store, updateBooking_eq.
    destruct (bookings st !! id) as [b0|] eqn:Hid; [|eauto]. simpl.
    assert (Hlook : ∃ b', <[id := Booking.patch (Booking.only_status s) b0]> (bookings st) !! i
                          = Some b' ∧ same_but_status b b').
    { rewrite lookup_insert. case_decide as Hk; [|eauto].
      subst i. eexists. split; [done|]. rewrite Hid in Hb. by injection Hb as ->. }
    destruct (rides st !! _); [destruct (refund_due _ _)|]; exact Hlook.
  - rewrite delete_rides_store, deleteRide_eq. simpl.
    rewrite lookup_fmap, Hb. simpl. eexists. split; [done|].
    unfold reject_if_pending_on. by destruct (_ && _).
Qed.

(** X11.  No booking is ever lost or re-targeted: along every sequence of
    [POST /api/bookings], [DELETE /api/rides/:id] and status-only
    [PATCH /api/bookings/:id] requests, a stored booking stays stored under
    its id with the same ride, passenger and [seatsBooked]; only its status
    may differ (also when its ride is deleted, or when a later request
    reuses its id, which is refused). *)
Theorem bookings_are_never_lost
    (reqs : list Request) (st : Store) (i : string) (b : Booking.t) :
  forallb sets_status_only reqs = true →
  bookings st !! i = Some b →
  ∃ b', bookings (serve reqs st) !! i = Some b' ∧ same_but_status b b'.
Proof.
  revert st b. induction reqs as [|req reqs IH]; intros st b Hs Hb.
  - by exists b.
  - simpl in Hs. apply andb_true_iff in Hs as [Hreq Hrest].
    change (serve (req :: reqs) st) with (serve reqs (handle req st)).
    destruct (handle_keeps_booking req st i b Hreq Hb) as (b1 & Hb1 & H1).
    destruct (IH _ b1 Hrest Hb1) as (b2 & Hb2 & H2).
    exists b2. split; [done|]. unfold same_but_status in *.
    destruct H1 as (? & ? & ?), H2 as (? & ? & ?). repeat split; congruence.
Qed.

(** Scenario D, then the ride is deleted and a request reuses an id. *)
Lemma bookings_are_never_lost_witness :
  ∃ b', bookings (serve [DeleteRide "ride-1";
                         PostBooking "booking-2" (request_seats 1)] store_D)
          !! "booking-2" = Some b'
    ∧ same_but_status (booking_on Booking.pending 2) b'.
Proof.
  apply (bookings_are_never_lost
           [DeleteRide "ride-1"; PostBooking "booking-2" (request_seats 1)]
           store_D "booking-2" (booking_on Booking.pending 2)).
  - vm_compute. reflexivity.
  - reflexivity.
Defined.

(** * The rides *)

Global Instance departs_before_total : Total departs_before.
Proof. intros a b. unfold departs_before. lia. Qed.

Global Instance departs_before_trans : Transitive departs_before.
Proof. intros a b c. unfold departs_before. lia. Qed.

Lemma vehicle_of_eq (kd : string * Ride.t) st :
  vehicle_of (mapDoc kd.1 kd.2) st
  = (Returned (match truthy (Ride.vehicleId kd.2) with
               | Some vehicleId => mapDoc vehicleId <$> vehicles st !! vehicleId
               | None => None
               end), st).
Proof.
  unfold vehicle_of, getVehicle, VehicleModel_findById. simpl.
  by destruct (truthy _).
Qed.

Lemma push_rides_eq rs results st :
  push_rides rs results st
  = (Returned (results ++ ((λ kd, entry_of st (Ride.driverId kd.2) kd) <$> rs)), st).
Proof.
  revert results. induction rs as [|kd rs IH]; intros results.
  - simpl. unfold_async. by rewrite app_nil_r.
  - cbn [push_rides]. unfold getUser, UserModel_findById, BookingModel_countDocuments.
    unfold_async. cbn [fields id_of mapDoc].
    rewrite (vehicle_of_eq kd st). rewrite IH.
    by rewrite <-app_assoc.
Qed.

Lemma push_rides_of_eq driverId rs results st :
  push_rides_of driverId rs results st
  = (Returned (results ++ (entry_of st driverId <$> rs)), st).
Proof.
  revert results. induction rs as [|kd rs IH]; intros results.
  - simpl. unfold_async. by rewrite app_nil_r.
  - cbn [push_rides_of]. unfold getUser, UserModel_findById, BookingModel_countDocuments.
    unfold_async. cbn [fields id_of mapDoc].
    rewrite (vehicle_of_eq kd st). rewrite IH.
    by rewrite <-app_assoc.
Qed.

Lemma getAllRides_eq st :
  getAllRides st
  = (Returned ((λ kd, entry_of st (Ride.driverId kd.2) kd)
                 <$> merge_sort departs_before
                       (filter (λ kd, Ride.isActive kd.2 = true) (map_to_list (rides st)))),
     st).
Proof.
  unfold getAllRides, RideModel_find_sort_departureTime. unfold_async.
  by rewrite push_rides_eq.
Qed.

Lemma getRidesByDriver_eq driverId st :
  getRidesByDriver driverId st
  = (Returned (entry_of st driverId
                 <$> filter (λ kd, bool_decide (Ride.driverId kd.2 = driverId) = true)
                       (map_to_list (rides st))),
     st).
Proof.
  unfold getRidesByDriver, RideModel_find. unfold_async.
  by rewrite push_rides_of_eq.
Qed.

(** X12.  [getAllRides] returns the active rides, every one of them and
    each once, in order of departure; inactive rides are never returned.
    Each entry counts the bookings stored for its ride, of any status. *)
Theorem getAllRides_active_by_departure (st : Store) :
  ∃ rs, getAllRides st = (Returned rs, st)
    ∧ (∀ k r, mapDoc k r ∈ rw_ride <$> rs
              ↔ rides st !! k = Some r ∧ Ride.isActive r = true)
    ∧ NoDup ((λ e, id_of (rw_ride e)) <$> rs)
    ∧ Sorted (λ a b, Ride.departureTime (fields a) ≤ Ride.departureTime (fields b))
        (rw_ride <$> rs)
    ∧ (∀ e, e ∈ rs →
         rw_bookingsCount e
         = length (filter (λ kb, Booking.rideId kb.2 = id_of (rw_ride e))
                     (map_to_list (bookings st)))).
Proof.
  eexists. split; [apply getAllRides_eq|].
  set (l := filter (λ kd, Ride.isActive kd.2 = true) (map_to_list (rides st))).
  pose proof (merge_sort_Permutation departs_before l) as Hperm.
  split; [|split; [|split]].
  - intros k r. rewrite <-list_fmap_compose, list_elem_of_fmap. split.
    + intros ([k' r'] & Heq & Hin). simpl in Heq. injection Heq as -> ->.
      rewrite Hperm in Hin. unfold l in Hin.
      apply list_elem_of_filter in Hin as [Hact Hin].
      by apply elem_of_map_to_list in Hin.
    + intros [Hr Hact]. exists (k, r). split; [done|].
      rewrite Hperm. apply list_elem_of_filter. split; [done|].
      by apply elem_of_map_to_list.
  - rewrite <-list_fmap_compose.
    assert (((λ e, id_of (rw_ride e)) ∘ (λ kd, entry_of st (Ride.driverId kd.2) kd))
            = fst) as -> by done.
    rewrite Hperm. apply (sublist_NoDup _ ((map_to_list (rides st)).*1)).
    + apply NoDup_fst_map_to_list.
    + apply fmap_sublist, sublist_filter.
  - rewrite <-list_fmap_compose.
    apply (Sorted_fmap _ departs_before); [done|].
    apply Sorted_merge_sort. apply _.
  - intros e ([k r] & -> & _)%list_elem_of_fmap. simpl.
    unfold bookings_where, on_ride. f_equal. apply list_filter_iff.
    intros [k' b]. simpl. split.
    + by intros ?%bool_decide_eq_true.
    + intros. by apply bool_decide_eq_true.
Qed.

Lemma getRideWithDriver_eq id st :
  getRideWithDriver id st
  = (Returned ((λ r, entry_of st (Ride.driverId r) (id, r)) <$> rides st !! id), st).
Proof.
  unfold getRideWithDriver, getRide, RideModel_findById, getUser, UserModel_findById,
    BookingModel_find.
  unfold_async.
  destruct (rides st !! id) as [r|]; simpl; [|done].
  unfold vehicle_of, getVehicle, VehicleModel_findById, entry_of. simpl.
  unfold_async. by destruct (truthy (Ride.vehicleId r)).
Qed.

Lemma bookingsCount_of_eq id st :
  bookingsCount_of id st
  = (λ _, length (bookings_where (on_ride id) st)) <$> rides st !! id.
Proof.
  unfold bookingsCount_of. rewrite getRideWithDriver_eq. simpl.
  by destruct (rides st !! id).
Qed.

Lemma bookings_where_insert_fresh q st st' i b :
  bookings st !! i = None →
  bookings st' = <[i:=b]> (bookings st) →
  length (bookings_where q st')
  = ((if q b then 1 else 0) + length (bookings_where q st))%nat.
Proof.
  intros Hi Hst'. unfold bookings_where. rewrite Hst'.
  rewrite (map_to_list_insert (bookings st) i b Hi).
  rewrite filter_cons.
  destruct (decide _) as [Hq|Hq]; simpl in Hq.
  - by rewrite Hq.
  - by destruct (q b).
Qed.

Lemma bookings_where_insert_same q st st' i b0 b :
  bookings st !! i = Some b0 →
  q b = q b0 →
  bookings st' = <[i:=b]> (bookings st) →
  length (bookings_where q st') = length (bookings_where q st).
Proof.
  intros Hi Hq Hst'.
  set (st0 := set_bookings (delete i) st).
  assert (H0 : bookings st0 !! i = None) by (simpl; apply lookup_delete_eq).
  rewrite (bookings_where_insert_fresh q st0 st' i b H0)
    by (rewrite Hst'; simpl; by rewrite insert_delete_eq).
  rewrite (bookings_where_insert_fresh q st0 st i b0 H0)
    by (simpl; by rewrite insert_delete_id).
  by rewrite Hq.
Qed.

Lemma updateBooking_bookings id data st b :
  bookings st !! id = Some b →
  bookings (updateBooking id data st).2 = <[id := Booking.patch data b]> (bookings st).
Proof.
  intros Hb. rewrite updateBooking_eq, Hb. simpl.
  by destruct (rides st !! _); [destruct (refund_due _ _)|].
Qed.

Lemma updateBooking_rides_dom id data st k :
  is_Some (rides (updateBooking id data st).2 !! k) ↔ is_Some (rides st !! k).
Proof.
  rewrite updateBooking_eq.
  destruct (bookings st !! id) as [b|]; [|done]. simpl.
  destruct (rides st !! _) as [r|] eqn:Hr; [|done].
  destruct (refund_due _ _); [|done]. simpl.
  rewrite lookup_insert. case_decide; [|done]. subst k. rewrite Hr.
  split; eauto.
Qed.

(** X13.  [bookingsCount] counts requests, not occupied seats: a
    successful [POST /api/bookings] raises the count that
    [getRideWithDriver] reports for the ride by one, and no status written
    to any booking (cancelled and rejected included) brings the count of
    any ride down, or up. *)
Theorem bookingsCount_counts_requests (st : Store) :
  (∀ uuid body booking st1,
     post_bookings uuid body st = (Json booking, st1) →
     ∃ n, bookingsCount_of (body_rideId body) st = Some n
          ∧ bookingsCount_of (body_rideId body) st1 = Some (S n))
  ∧ (∀ id bid s,
       bookingsCount_of id (patch_bookings bid (Booking.only_status s) st).2
       = bookingsCount_of id st).
Proof.
  split.
  - intros uuid body booking st1 Hpost.
    apply post_bookings_Json in Hpost as (r & n & Hr & Hu & Hn & _ & _ & ->).
    rewrite !bookingsCount_of_eq, Hr. simpl. rewrite lookup_insert_eq. simpl.
    eexists. split; [done|]. f_equal.
    rewrite (bookings_where_insert_fresh _ st _ uuid _ Hu) by done.
    unfold on_ride, pending_booking. simpl.
    by rewrite bool_decide_eq_true_2.
  - intros id bid s. rewrite patch_bookings_store, !bookingsCount_of_eq.
    pose proof (updateBooking_rides_dom bid (Booking.only_status s) st id) as Hdom.
    destruct (bookings st !! bid) as [b|] eqn:Hb.
    + rewrite (bookings_where_insert_same (on_ride id) st _ bid b
                 (Booking.patch (Booking.only_status s) b) Hb);
        [|done|by apply updateBooking_bookings].
      destruct (rides st !! id) as [r|] eqn:Hr.
      * destruct Hdom as [_ [r' ->]]; [by eexists|]. reflexivity.
      * destruct (rides (updateBooking bid (Booking.only_status s) st).2 !! id)
          eqn:Hr'; [|reflexivity].
        exfalso. assert (is_Some (@None Ride.t)) as [? ?]; [|done].
        apply Hdom. by eexists.
    + by rewrite updateBooking_eq, Hb.
Qed.

(** Scenario A: one request, accepted, then cancelled; the count is 1 from
    the request on. *)
Lemma bookingsCount_counts_requests_witness :
  bookingsCount_of "ride-1" (serve scenario_A store_A) = Some 1%nat.
Proof.
  change (serve scenario_A store_A)
    with ((patch_bookings "booking-1" (Booking.only_status Booking.cancelled)
            (patch_bookings "booking-1" (Booking.only_status Booking.accepted)
               (post_bookings "booking-1" (request_seats 2) store_A).2).2).2).
  rewrite (proj2 (bookingsCount_counts_requests _)).
  rewrite (proj2 (bookingsCount_counts_requests _)).
  destruct (proj1 (bookingsCount_counts_requests store_A)
              "booking-1" (request_seats 2)
              (mapDoc "booking-1" (booking_on Booking.pending 2))
              (post_bookings "booking-1" (request_seats 2) store_A).2)
    as (n & H0 & H1).
  - vm_compute. reflexivity.
  - etransitivity; [exact H1|]. vm_compute in H0. injection H0 as <-. reflexivity.
Defined.

Lemma patch_ride_status_eq id status st :
  patch_ride_status id status st
  = match rides st !! id with
    | Some r =>
        let r' :=
          Ride.patch
            {| Ride.p_seatsTotal := None; Ride.p_seatsAvailable := None;
               Ride.p_costPerSeat := None;
               Ride.p_isActive :=
                 match status with
                 | Ride.completed => Some false
                 | _ => None
                 end;
               Ride.p_status := Some status |} r in
        (Sent (Some (mapDoc id r')), set_rides (insert id r') st)
    | None => (Sent None, st)
    end.
Proof.
  unfold patch_ride_status, updateRide, RideModel_findByIdAndUpdate.
  unfold_async. by destruct (rides st !! id).
Qed.

Lemma patch_ride_statuses_inactive id statuses st r :
  rides st !! id = Some r → Ride.isActive r = false →
  ∃ r', rides (patch_ride_statuses id statuses st) !! id = Some r'
        ∧ Ride.isActive r' = false.
Proof.
  revert st r. induction statuses as [|s statuses IH]; intros st r Hr Hact.
  - by exists r.
  - cbn [patch_ride_statuses foldl].
    eapply (IH (patch_ride_status id s st).2).
    + rewrite patch_ride_status_eq, Hr. simpl. by rewrite lookup_insert_eq.
    + simpl. by destruct s.
Qed.

(** X14.  Completing a ride through [PATCH /api/rides/:id/status] marks it
    inactive and completed and changes nothing else: the ride keeps every
    other field (seat counters and cost included), and the other rides, the
    bookings (pending ones included: nothing is rejected, nothing is
    refunded), the users and the vehicles are as they were.  The ride
    leaves [getAllRides] and stays in its driver's [getRidesByDriver]; and
    no status written to it afterwards makes it active again. *)
Theorem completed_ride_leaves_the_listing (id : string) (st : Store) (r : Ride.t) :
  rides st !! id = Some r →
  let r1 :=
    {| Ride.driverId := Ride.driverId r; Ride.vehicleId := Ride.vehicleId r;
       Ride.sourceAddress := Ride.sourceAddress r;
       Ride.destAddress := Ride.destAddress r;
       Ride.departureTime := Ride.departureTime r;
       Ride.seatsTotal := Ride.seatsTotal r;
       Ride.seatsAvailable := Ride.seatsAvailable r;
       Ride.costPerSeat := Ride.costPerSeat r;
       Ride.isActive := false; Ride.status := Ride.completed |} in
  let st1 := (patch_ride_status id Ride.completed st).2 in
  st1 = {| users := users st; vehicles := vehicles st;
           rides := <[id := r1]> (rides st); bookings := bookings st |}
  ∧ (∀ rs, getAllRides st1 = (Returned rs, st1) →
       id ∉ (λ e, id_of (rw_ride e)) <$> rs)
  ∧ (∃ rs, getRidesByDriver (Ride.driverId r) st1 = (Returned rs, st1)
       ∧ id ∈ (λ e, id_of (rw_ride e)) <$> rs)
  ∧ (∀ statuses, ∃ r2,
       rides (patch_ride_statuses id statuses st1) !! id = Some r2
       ∧ Ride.isActive r2 = false).
Proof.
  intros Hr r1 st1.
  assert (Hst1 : st1 = {| users := users st; vehicles := vehicles st;
                          rides := <[id := r1]> (rides st); bookings := bookings st |}).
  { unfold st1. by rewrite patch_ride_status_eq, Hr. }
  assert (Hr1 : rides st1 !! id = Some r1).
  { rewrite Hst1. simpl. by rewrite lookup_insert_eq. }
  split; [exact Hst1|]. split; [|split].
  - intros rs. rewrite getAllRides_eq. intros [= <-].
    rewrite <-list_fmap_compose.
    intros ([k r'] & Hk & Hin)%list_elem_of_fmap. simpl in Hk. subst k.
    rewrite merge_sort_Permutation in Hin.
    apply list_elem_of_filter in Hin as [Hact Hin]. simpl in Hact.
    apply elem_of_map_to_list in Hin. rewrite Hr1 in Hin.
    injection Hin as <-. done.
  - eexists. split; [apply getRidesByDriver_eq|].
    rewrite <-list_fmap_compose. apply list_elem_of_fmap.
    exists (id, r1). split; [done|].
    apply list_elem_of_filter. split; [by apply bool_decide_eq_true|].
    by apply elem_of_map_to_list.
  - intros statuses. by apply (patch_ride_statuses_inactive id statuses st1 r1).
Qed.

(** Completing the ride that has an accepted booking: the booking and the
    seat counter are as before, the ride is no longer active, and the other
    ride is untouched. *)
Lemma completed_ride_leaves_the_listing_witness :
  (patch_ride_status "ride-1" Ride.completed store_two_rides).2
  = {| users := users store_two_rides; vehicles := vehicles store_two_rides;
       rides := <["ride-1" :=
                   {| Ride.driverId := "driver-1"; Ride.vehicleId := None;
                      Ride.sourceAddress := "Hostel"; Ride.destAddress := "Campus";
                      Ride.departureTime := 0;
                      Ride.seatsTotal := 3; Ride.seatsAvailable := 1;
                      Ride.costPerSeat := 150;
                      Ride.isActive := false; Ride.status := Ride.completed |}]>
                (rides store_two_rides);
       bookings := bookings store_two_rides |}.
Proof.
  destruct (completed_ride_leaves_the_listing "ride-1" store_two_rides (campus_ride 3 1))
    as (Hst1 & _).
  - reflexivity.
  - exact Hst1.
Defined.

(** The two rides of the sample store, the one departing earlier first. *)
Example getAllRides_sample :
  (λ e, id_of (rw_ride e)) <$>
    match (getAllRides store_two_rides).1 with
    | Returned rs => rs
    | Thrown _ => []
    end
  = ["ride-2"; "ride-1"].
Proof. vm_compute. reflexivity. Qed.

(** * Accounts *)

Lemma filter_unique {A} (P : A → Prop) `{∀ x, Decision (P x)} (l : list A) (x : A) :
  NoDup l → x ∈ filter P l → (∀ y, y ∈ filter P l → y = x) → filter P l = [x].
Proof.
  intros Hnd Hx Hall.
  assert (Hnd' : NoDup (filter P l)) by (by apply NoDup_filter).
  destruct (filter P l) as [|y [|z t]].
  - by apply elem_of_nil in Hx.
  - f_equal. apply Hall. by left.
  - exfalso. assert (y = x) as -> by (apply Hall; by left).
    assert (z = x) as -> by (apply Hall; right; by left).
    apply NoDup_cons in Hnd' as [Hnotin _]. apply Hnotin. by left.
Qed.

Lemma getUserByEmail_eq email st :
  getUserByEmail email st
  = (Returned ((λ kd, mapDoc kd.1 kd.2)
                 <$> head (filter (λ kd, bool_decide (User.email kd.2 = email) = true)
                                  (map_to_list (users st)))), st).
Proof. unfold getUserByEmail, UserModel_findOne. by unfold_async. Qed.

Lemma users_with_email_nil email (us : gmap string User.t) :
  filter (λ kd, bool_decide (User.email kd.2 = email) = true) (map_to_list us) = []
  ↔ ∀ k u, us !! k = Some u → User.email u ≠ email.
Proof.
  split.
  - intros Hnil k u Hk He.
    assert (Hin : (k, u) ∈ filter (λ kd, bool_decide (User.email kd.2 = email) = true)
                             (map_to_list us)).
    { apply list_elem_of_filter. split; [by apply bool_decide_eq_true|].
      by apply elem_of_map_to_list. }
    rewrite Hnil in Hin. by apply elem_of_nil in Hin.
  - intros Hall.
    destruct (filter _ _) as [|[k u] t] eqn:Hf; [done|]. exfalso.
    assert (Hin : (k, u) ∈ filter (λ kd, bool_decide (User.email kd.2 = email) = true)
                             (map_to_list us)) by (rewrite Hf; by left).
    apply list_elem_of_filter in Hin as [He Hin]. simpl in He.
    apply bool_decide_eq_true in He. apply elem_of_map_to_list in Hin.
    by apply (Hall k u).
Qed.

Lemma email_taken_false email (us : gmap string User.t) :
  email_taken email us = false ↔ ∀ k u, us !! k = Some u → User.email u ≠ email.
Proof.
  unfold email_taken. rewrite bool_decide_eq_false.
  split.
  - intros Hnil k u Hk He. apply Hnil. intros Hf.
    assert (Hin : (k, u) ∈ filter (λ kd, User.email kd.2 = email) (map_to_list us)).
    { apply list_elem_of_filter. split; [done|]. by apply elem_of_map_to_list. }
    rewrite Hf in Hin. by apply elem_of_nil in Hin.
  - intros Hall Hne. apply Hne.
    destruct (filter _ _) as [|[k u] t] eqn:Hf; [done|]. exfalso.
    assert (Hin : (k, u) ∈ filter (λ kd, User.email kd.2 = email) (map_to_list us))
      by (rewrite Hf; by left).
    apply list_elem_of_filter in Hin as [He Hin]. simpl in He.
    apply elem_of_map_to_list in Hin. by apply (Hall k u).
Qed.

(** The one user carrying an email is the one [findOne] returns. *)
Lemma getUserByEmail_unique st k u :
  users st !! k = Some u →
  (∀ j v, users st !! j = Some v → User.email v = User.email u → j = k) →
  getUserByEmail (User.email u) st = (Returned (Some (mapDoc k u)), st).
Proof.
  intros Hk Huniq. rewrite getUserByEmail_eq.
  rewrite (filter_unique _ _ (k, u)); [done|apply NoDup_map_to_list| |].
  - apply list_elem_of_filter. split; [by apply bool_decide_eq_true|].
    by apply elem_of_map_to_list.
  - intros [j v] [He Hin]%list_elem_of_filter. simpl in He.
    apply bool_decide_eq_true in He. apply elem_of_map_to_list in Hin.
    assert (j = k) as -> by (by apply (Huniq j v)).
    rewrite Hk in Hin. by injection Hin as ->.
Qed.

Lemma post_signup_Sent uuid data st user st1 :
  post_signup uuid (inl data) st = (Sent user, st1) →
  users st !! uuid = None
  ∧ (∀ k u, users st !! k = Some u → User.email u ≠ su_email data)
  ∧ user = stripPassword (mapDoc uuid (signed_up data))
  ∧ st1 = set_users (insert uuid (signed_up data)) st.
Proof.
  unfold post_signup. rewrite getUserByEmail_eq.
  destruct (head _) as [existing|] eqn:Hhead; simpl; [done|].
  unfold createUser, UserModel_create. unfold_async.
  fold (signed_up data).
  destruct (negb (userSchema_valid (signed_up data))); [done|].
  destruct (bool_decide (is_Some (users st !! uuid))) eqn:Hu; simpl; [done|].
  destruct (email_taken _ _) eqn:Htaken; simpl; [done|].
  intros [= <- <-].
  apply bool_decide_eq_false in Hu.
  split; [by destruct (users st !! uuid); [exfalso; apply Hu; eexists|]|].
  split; [|done]. by apply email_taken_false.
Qed.

(** X15.  Sign up, then log in: after a successful
    [POST /api/auth/signup], [POST /api/auth/login] with the same email and
    password answers the very user the signup answered, without the
    password, and any other password is answered 401.  The role defaults to
    passenger and the account is never an administrator. *)
Theorem signup_then_login
    (uuid : string) (data : SignupData) (st st1 : Store) (user : User) :
  post_signup uuid (inl data) st = (Sent user, st1) →
  post_login (inl (su_email data, su_password data)) st1 = (Sent user, st1)
  ∧ (∀ password, password ≠ su_password data →
       post_login (inl (su_email data, password)) st1
       = (Refused 401 "Invalid credentials", st1))
  ∧ id_of user = uuid
  ∧ User.password (fields user) = None
  ∧ User.isAdmin (fields user) = false
  ∧ User.role (fields user) = default User.passenger (su_role data)
  ∧ users st1 !! uuid = Some (signed_up data).
Proof.
  intros (Hfresh & Hnew & -> & ->)%post_signup_Sent.
  set (st1 := set_users (insert uuid (signed_up data)) st).
  assert (Hfind : getUserByEmail (su_email data) st1
                  = (Returned (Some (mapDoc uuid (signed_up data))), st1)).
  { apply (getUserByEmail_unique st1 uuid (signed_up data)).
    - simpl. by rewrite lookup_insert_eq.
    - intros j v. simpl. rewrite lookup_insert.
      destruct (decide (uuid = j)) as [->|Hj]; [done|].
      intros Hv He. exfalso. by apply (Hnew j v). }
  split; [|split; [|repeat split]].
  - unfold post_login. rewrite Hfind. simpl.
    by rewrite bool_decide_eq_false_2 by (by intros Hne; apply Hne).
  - intros password Hp. unfold post_login. rewrite Hfind. simpl.
    rewrite bool_decide_eq_true_2; [done|]. congruence.
  - simpl. by rewrite lookup_insert_eq.
Qed.

Lemma signup_then_login_witness :
  post_login (inl ("amina@university.edu.pk", "s3cret"))
    {| users := {[ "user-1" := signed_up amina ]}; vehicles := ∅;
       rides := ∅; bookings := ∅ |}
  = (Sent (stripPassword (mapDoc "user-1" (signed_up amina))), store_amina).
Proof.
  apply (signup_then_login "user-1" amina
           {| users := ∅; vehicles := ∅; rides := ∅; bookings := ∅ |}
           store_amina (stripPassword (mapDoc "user-1" (signed_up amina)))).
  vm_compute. reflexivity.
Defined.

(** X16.  A refused signup changes nothing: whatever
    [POST /api/auth/signup] refuses (a body the schema rejects, an email
    already registered, an id or a document the database rejects) it
    refuses with 400 and leaves the store as it was; and it does refuse
    "Email already registered" whenever some user carries the email. *)
Theorem signup_refusals (uuid : string) (result : SignupData + string) (st : Store) :
  (∀ code message st1,
     post_signup uuid result st = (Refused code message, st1) →
     code = 400 ∧ st1 = st)
  ∧ (∀ data k u,
       result = inl data → users st !! k = Some u →
       User.email u = su_email data →
       post_signup uuid result st = (Refused 400 "Email already registered", st)).
Proof.
  split.
  - intros code message st1. unfold post_signup.
    destruct result as [data|m]; [|by intros [= <- _ <-]].
    rewrite getUserByEmail_eq.
    destruct (head _) as [existing|]; simpl; [by intros [= <- _ <-]|].
    unfold createUser, UserModel_create. unfold_async.
    destruct (negb (userSchema_valid _)); [by intros [= <- _ <-]|].
    destruct (bool_decide _ || email_taken _ _); [by intros [= <- _ <-]|done].
  - intros data k u -> Hk He. unfold post_signup. rewrite getUserByEmail_eq.
    destruct (head _) as [existing|] eqn:Hhead; [done|]. exfalso.
    apply head_None in Hhead.
    by apply (proj1 (users_with_email_nil _ _) Hhead k u).
Qed.

Lemma signup_refusals_witness :
  post_signup "user-2" (inl amina) store_amina
  = (Refused 400 "Email already registered", store_amina).
Proof.
  apply (proj2 (signup_refusals "user-2" (inl amina) store_amina)
           amina "user-1" (signed_up amina)); reflexivity.
Defined.

Lemma unique_emails_insert_new (us : gmap string User.t) i u :
  unique_emails us →
  (∀ k v, us !! k = Some v → k ≠ i → User.email v ≠ User.email u) →
  unique_emails (<[i := u]> us).
Proof.
  intros Huniq Hnew a b x y. rewrite !lookup_insert.
  case_decide as Ha; case_decide as Hb; subst; try done.
  - intros [= <-] Hy He. exfalso. by apply (Hnew b y).
  - intros Hx [= <-] He. exfalso. by apply (Hnew a x).
  - apply Huniq.
Qed.

Lemma handle_user_unique req st :
  unique_emails (users st) → unique_emails (users (handle_user req st)).
Proof.
  intros Huniq. destruct req as [uuid result|id body|id cur new]; simpl.
  - destruct result as [data|m]; [|done].
    destruct (post_signup uuid (inl data) st) as [[user|code message|e] st1] eqn:Hs.
    + apply post_signup_Sent in Hs as (Hfresh & Hnew & _ & ->). simpl.
      apply unique_emails_insert_new; [done|].
      intros k v Hk _. by apply (Hnew k v).
    + apply (proj1 (signup_refusals uuid (inl data) st)) in Hs as [_ ->]. done.
    + exfalso. unfold post_signup in Hs. rewrite getUserByEmail_eq in Hs.
      destruct (head _); simpl in Hs; [done|].
      by destruct (createUser _ _ _) as [[?|?] ?].
  - unfold patch_user, updateUser, UserModel_findByIdAndUpdate. unfold_async.
    destruct (users st !! id) as [u|] eqn:Hu; simpl; [|done].
    destruct (up_email body) as [email|] eqn:He.
    + destruct (email_taken email _) eqn:Ht; simpl; [done|].
      apply unique_emails_insert_new; [done|].
      intros k v Hk Hne. unfold User_patch. simpl. rewrite He. simpl.
      apply (proj1 (email_taken_false _ _) Ht k v).
      by rewrite lookup_delete_ne.
    + simpl. apply unique_emails_insert_new; [done|].
      intros k v Hk Hne Heq. apply Hne. apply (Huniq k id v u Hk Hu).
      rewrite Heq. unfold User_patch. simpl. by rewrite He.
  - unfold post_password, getUser, UserModel_findById, updateUser,
      UserModel_findByIdAndUpdate. unfold_async.
    destruct (users st !! id) as [u|] eqn:Hu; simpl; [|done].
    destruct (bool_decide _); [done|]. simpl. rewrite Hu. simpl.
    apply unique_emails_insert_new; [done|].
    intros k v Hk Hne Heq. apply Hne. by apply (Huniq k id v u Hk Hu).
Qed.

(** X17.  The account routes keep emails unique: where no two users share
    an email, none do after any sequence of signups, [PATCH /api/users/:id]
    requests (whose body may carry any field, the email included) and
    password changes. *)
Theorem account_routes_keep_emails_unique (reqs : list UserRequest) (st : Store) :
  unique_emails (users st) → unique_emails (users (serve_users reqs st)).
Proof.
  revert st. induction reqs as [|req reqs IH]; intros st Huniq; [done|].
  change (serve_users (req :: reqs) st) with (serve_users reqs (handle_user req st)).
  by apply IH, handle_user_unique.
Qed.

Lemma unique_emails_store_amina : unique_emails (users store_amina).
Proof.
  intros i j u v. unfold store_amina. simpl.
  intros [<- _]%lookup_singleton_Some [<- _]%lookup_singleton_Some _. done.
Qed.

(** A second signup with the registered email, then an attempt to move
    another account onto it. *)
Lemma account_routes_keep_emails_unique_witness :
  unique_emails
    (users (serve_users
              [ Signup "user-2" (inl amina);
                Signup "user-2"
                  (inl {| su_email := "bilal@university.edu.pk"; su_password := "pw";
                          su_name := "Bilal"; su_role := Some User.driver;
                          su_phone := None |});
                PatchUser "user-2"
                  {| up_clerkId := None; up_name := None;
                     up_email := Some "amina@university.edu.pk";
                     up_password := None; up_role := None; up_avatar := None;
                     up_phone := None; up_cnic := None; up_cnicStatus := None;
                     up_isAdmin := None |} ]
              store_amina)).
Proof.
  apply account_routes_keep_emails_unique. apply unique_emails_store_amina.
Defined.

(** X18.  Changing a password: a wrong current password is answered 400
    "Incorrect current password" and nothing is written; the right one
    replaces the stored password and nothing else of the user.  Where
    emails are unique, the next login succeeds with the new password, and
    fails with the old one unless they are equal. *)
Theorem password_change
    (id currentPassword newPassword : string) (st : Store) (u : User.t) :
  users st !! id = Some u →
  (User.password u ≠ Some currentPassword →
     post_password id currentPassword newPassword st
     = (Refused 400 "Incorrect current password", st))
  ∧ (User.password u = Some currentPassword →
     let st1 := set_users (insert id (with_password newPassword u)) st in
     post_password id currentPassword newPassword st = (Sent password_updated, st1)
     ∧ User.password (with_password newPassword u) = Some newPassword
     ∧ User.email (with_password newPassword u) = User.email u
     ∧ (unique_emails (users st) →
        post_login (inl (User.email u, newPassword)) st1
        = (Sent (stripPassword (mapDoc id (with_password newPassword u))), st1)
        ∧ (currentPassword ≠ newPassword →
           post_login (inl (User.email u, currentPassword)) st1
           = (Refused 401 "Invalid credentials", st1)))).
Proof.
  intros Hu.
  assert (Hrun : post_password id currentPassword newPassword st
                 = if bool_decide (User.password u ≠ Some currentPassword)
                   then (Refused 400 "Incorrect current password", st)
                   else (Sent password_updated,
                         set_users (insert id (with_password newPassword u)) st)).
  { unfold post_password, getUser, UserModel_findById, updateUser,
      UserModel_findByIdAndUpdate. unfold_async. rewrite Hu. simpl.
    destruct (bool_decide _); [done|]. by rewrite Hu. }
  split.
  - intros Hne. by rewrite Hrun, bool_decide_eq_true_2.
  - intros Heq st1. rewrite Hrun.
    rewrite bool_decide_eq_false_2 by (by intros Hne; apply Hne).
    split; [done|]. split; [done|]. split; [done|].
    intros Huniq.
    assert (Hfind : getUserByEmail (User.email u) st1
                    = (Returned (Some (mapDoc id (with_password newPassword u))), st1)).
    { apply (getUserByEmail_unique st1 id (with_password newPassword u)).
      - simpl. by rewrite lookup_insert_eq.
      - intros j v. simpl. rewrite lookup_insert.
        destruct (decide (id = j)) as [->|Hj]; [done|].
        intros Hv He. by apply (Huniq j id v u). }
    split.
    + unfold post_login. rewrite Hfind. simpl.
      by rewrite bool_decide_eq_false_2 by (by intros Hne; apply Hne).
    + intros Hne. unfold post_login. rewrite Hfind. simpl.
      rewrite bool_decide_eq_true_2; [done|]. congruence.
Qed.

Lemma password_change_witness :
  post_password "user-1" "s3cret" "n3w" store_amina
  = (Sent password_updated,
     set_users (insert "user-1" (with_password "n3w" (signed_up amina))) store_amina)
  ∧ post_password "user-1" "guess" "n3w" store_amina
    = (Refused 400 "Incorrect current password", store_amina).
Proof.
  destruct (password_change "user-1" "s3cret" "n3w" store_amina (signed_up amina))
    as [_ Hok]; [reflexivity|].
  destruct (password_change "user-1" "guess" "n3w" store_amina (signed_up amina))
    as [Hbad _]; [reflexivity|].
  split.
  - apply Hok. reflexivity.
  - apply Hbad. discriminate.
Defined.

(** * Vehicles *)

Lemma getVehiclesByOwner_eq ownerId st :
  getVehiclesByOwner ownerId st
  = (Returned ((λ d, mapDoc d.1 d.2)
                 <$> filter (λ kd, bool_decide (Vehicle.ownerId kd.2 = ownerId) = true)
                       (map_to_list (vehicles st))), st).
Proof. unfold getVehiclesByOwner, VehicleModel_find. by unfold_async. Qed.

Lemma createVehicle_Returned uuid v st vehicle st1 :
  createVehicle uuid v st = (Returned vehicle, st1) →
  vehicles st !! uuid = None ∧ vehicle = mapDoc uuid v
  ∧ st1 = set_vehicles (insert uuid v) st.
Proof.
  unfold createVehicle, VehicleModel_create. unfold_async.
  destruct (negb (vehicleSchema_valid v)); [done|].
  destruct (vehicles st !! uuid); [done|]. by intros [= <- <-].
Qed.

(** X19.  [getVehiclesByOwner] lists the stored vehicles of that owner,
    all of them, each once, and no one else's.  A vehicle just created is
    therefore listed for its owner only, next to the vehicles listed
    before; one just deleted is listed for nobody. *)
Theorem vehicles_are_listed_for_their_owner (st : Store) :
  (∀ ownerId, ∃ vs,
     getVehiclesByOwner ownerId st = (Returned vs, st)
     ∧ NoDup (id_of <$> vs)
     ∧ (∀ w, w ∈ vs ↔ vehicles st !! id_of w = Some (fields w)
                       ∧ Vehicle.ownerId (fields w) = ownerId))
  ∧ (∀ uuid v vehicle st1 ownerId vs,
       createVehicle uuid v st = (Returned vehicle, st1) →
       getVehiclesByOwner ownerId st1 = (Returned vs, st1) →
       (vehicle ∈ vs ↔ Vehicle.ownerId v = ownerId)
       ∧ (∀ w, id_of w ≠ uuid →
            (w ∈ vs ↔ vehicles st !! id_of w = Some (fields w)
                      ∧ Vehicle.ownerId (fields w) = ownerId)))
  ∧ (∀ id ownerId vs w,
       getVehiclesByOwner ownerId (deleteVehicle id st).2
       = (Returned vs, (deleteVehicle id st).2) →
       w ∈ vs → id_of w ≠ id).
Proof.
  assert (Hlist : ∀ (m : gmap string Vehicle.t) ownerId w,
    w ∈ (λ d : string * Vehicle.t, mapDoc d.1 d.2)
          <$> filter (λ kd, bool_decide (Vehicle.ownerId kd.2 = ownerId) = true)
                (map_to_list m)
    ↔ m !! id_of w = Some (fields w)
      ∧ Vehicle.ownerId (fields w) = ownerId).
  { clear. intros m ownerId [k v]. rewrite list_elem_of_fmap. simpl. split.
    - intros ([k' v'] & Heq & Hin). simpl in Heq. injection Heq as -> ->.
      apply list_elem_of_filter in Hin as [Ho Hin]. simpl in Ho.
      apply bool_decide_eq_true in Ho. by apply elem_of_map_to_list in Hin.
    - intros [Hk Ho]. exists (k, v). split; [done|].
      apply list_elem_of_filter. split; [by apply bool_decide_eq_true|].
      by apply elem_of_map_to_list. }
  split; [|split].
  - intros ownerId. eexists. split; [apply getVehiclesByOwner_eq|].
    split; [|apply Hlist].
    rewrite <-list_fmap_compose.
    apply (sublist_NoDup _ ((map_to_list (vehicles st)).*1)).
    + apply NoDup_fst_map_to_list.
    + apply fmap_sublist, sublist_filter.
  - intros uuid v vehicle st1 ownerId vs
      (Hfresh & -> & ->)%createVehicle_Returned.
    rewrite getVehiclesByOwner_eq. intros [= <-]. split.
    + rewrite Hlist. simpl. rewrite lookup_insert_eq. split; [by intros [_ ?]|done].
    + intros w Hw. rewrite Hlist. simpl. by rewrite lookup_insert_ne.
  - intros id ownerId vs w. rewrite getVehiclesByOwner_eq. intros [= <-].
    rewrite Hlist. unfold deleteVehicle, VehicleModel_findByIdAndDelete.
    unfold_async. simpl. intros [Hw _] Heq. rewrite Heq in Hw.
    by rewrite lookup_delete_eq in Hw.
Qed.

(** * The client *)



(** X21.  The three tabs of the bookings page split the user's bookings:
    every booking of [myBookings] is shown in exactly one of Pending,
    Accepted and Past, so the three counts add up to the number of the
    user's bookings. *)
Theorem tabs_split_my_bookings
    (bookings : list BookingWithDetails) (user : option User) (activeRole : ViewAs) :
  let mine := myBookings bookings user activeRole in
  pendingBookings mine ++ acceptedBookings mine ++ pastBookings mine ≡ₚ mine
  ∧ (length (pendingBookings mine) + length (acceptedBookings mine)
     + length (pastBookings mine) = length mine)%nat
  ∧ (∀ b, b ∈ mine →
       (b ∈ pendingBookings mine ∧ (b ∉ acceptedBookings mine)
          ∧ (b ∉ pastBookings mine))
       ∨ ((b ∉ pendingBookings mine) ∧ b ∈ acceptedBookings mine
          ∧ (b ∉ pastBookings mine))
       ∨ ((b ∉ pendingBookings mine) ∧ (b ∉ acceptedBookings mine)
          ∧ b ∈ pastBookings mine)).
Proof.
  intros mine.
  assert (Hperm : ∀ l, pendingBookings l ++ acceptedBookings l ++ pastBookings l ≡ₚ l).
  { clear. unfold pendingBookings, acceptedBookings, pastBookings.
    induction l as [|b l IH]; [done|].
    rewrite !filter_cons.
    repeat case_decide; unfold has_status in *;
      try (exfalso; destruct (Booking.status (fields (bd_booking b)));
           intuition congruence).
    all: first
      [ solve [simpl; by f_equiv]
      | solve [simpl; rewrite <-Permutation_middle; by f_equiv]
      | solve [rewrite app_assoc, <-Permutation_middle, <-app_assoc; by f_equiv] ]. }
  split; [apply Hperm|]. split.
  - rewrite <-(Hperm mine) at 4. rewrite !length_app. lia.
  - intros b Hb.
    unfold pendingBookings, acceptedBookings, pastBookings.
    rewrite !list_elem_of_filter. unfold has_status.
    destruct (Booking.status (fields (bd_booking b))) eqn:Hs.
    + left. intuition congruence.
    + right. left. intuition congruence.
    + right. right. intuition congruence.
    + right. right. intuition congruence.
Qed.

(** * Refunds without reservation *)

(** X22.  Seats can be added without bound: a cancelled booking may be set
    back to pending, which reserves nothing, and cancelled again, which
    refunds its seats.  After [n] such rounds on a booking whose ride
    exists, neither number being negative, [seatsAvailable] is what [n]
    additions of [seatsBooked] make of it, and [seatsTotal] is what it was.
    For whole numbers within [Number.MAX_SAFE_INTEGER] that is
    [seatsAvailable + n * seatsBooked]; for fractions each addition is
    rounded: three rounds of 1.1 on 6 give 9.299999999999999, while
    [6 + 3 * 1.1] is 9.3 (to the last place, 9.3000000000000007). *)
Theorem reopening_refunds_again :
  (∀ (n : nat) (id : string) (st : Double.Store)
     (b : Double.Booking.t) (r : Double.Ride.t),
     Double.bookings st !! id = Some b →
     Double.Booking.status b = Booking.cancelled →
     Double.rides st !! Double.Booking.rideId b = Some r →
     (0 <=? Double.Ride.seatsAvailable r)%float = true →
     (0 <=? Double.Booking.seatsBooked b)%float = true →
     ∃ r', Double.rides (Double.serve (Double.reopen_and_cancel n id) st)
             !! Double.Booking.rideId b = Some r'
       ∧ Double.Ride.seatsAvailable r'
         = Nat.iter n (λ a, (a + Double.Booking.seatsBooked b)%float)
             (Double.Ride.seatsAvailable r)
       ∧ Double.Ride.seatsTotal r' = Double.Ride.seatsTotal r
       ∧ Double.bookings (Double.serve (Double.reopen_and_cancel n id) st) !! id = Some b)
  ∧ (∀ (n : nat) (A S : Z),
       safe A → safe S → safe (A + Z.of_nat n * S) →
       Nat.iter n (λ a, (a + whole S)%float) (whole A) = whole (A + Z.of_nat n * S))
  ∧ Nat.iter 3 (λ a, (a + 1.1)%float) 6%float = 9.2999999999999989%float
  ∧ (6 + 3 * 1.1)%float = 9.3000000000000007%float
  ∧ (9.2999999999999989 =? 9.3000000000000007)%float = false.
Proof.
  split; [|split; [|repeat split; vm_compute; reflexivity]].
  - intros n id st b r Hb Hs Hr Ha Hsb. revert st r Hb Hr Ha.
    induction n as [|n IH]; intros st r Hb Hr Ha.
    + by exists r.
    + cbn [Double.reopen_and_cancel].
      change (Double.serve (?a :: ?c :: ?l) st)
        with (Double.serve l (Double.handle c (Double.handle a st))).
      cbn [Double.handle Double.set_status]. rewrite !Double_patch_bookings_store.
      set (b1 := Double.Booking.patch (Double.Booking.only_status Booking.pending) b).
      assert (H1 : (Double.updateBooking id (Double.Booking.only_status Booking.pending)
                      st).2 = Double.set_bookings (insert id b1) st).
      { rewrite (Double_updateBooking_status id _ st b r Hb Hr). cbn zeta.
        by rewrite Hs. }
      rewrite H1.
      assert (Hb1 : Double.bookings (Double.set_bookings (insert id b1) st) !! id
                    = Some b1) by (simpl; by rewrite lookup_insert_eq).
      assert (Hr1 : Double.rides (Double.set_bookings (insert id b1) st)
                      !! Double.Booking.rideId b1 = Some r) by exact Hr.
      rewrite (Double_updateBooking_status id Booking.cancelled _ b1 r Hb1 Hr1).
      cbn zeta. change (Double.Booking.status b1) with Booking.pending.
      change (Double.Booking.seatsBooked b1) with (Double.Booking.seatsBooked b).
      change (Double.Booking.rideId b1) with (Double.Booking.rideId b).
      cbn [releases_seats].
      pose proof (add_nonneg _ _ Ha Hsb) as Hsum.
      rewrite (nonneg_not_nan _ Hsum).
      set (st2 := Double.set_rides _ _).
      assert (Hb2 : Double.bookings st2 !! id = Some b).
      { unfold st2. simpl. rewrite insert_insert_eq, lookup_insert_eq.
        f_equal. destruct b; simpl in *. by subst. }
      assert (Hr2 : Double.rides st2 !! Double.Booking.rideId b
                    = Some (Double.with_seatsAvailable
                              (Double.Ride.seatsAvailable r
                               + Double.Booking.seatsBooked b)%float r)).
      { unfold st2. simpl. by rewrite lookup_insert_eq. }
      destruct (IH st2 _ Hb2 Hr2 Hsum) as (r' & Hr' & Hseats & Htotal & Hb').
      exists r'. split; [done|]. split; [|by split].
      rewrite Hseats. simpl. clear. generalize (Double.Ride.seatsAvailable r).
      induction n as [|n IHn]; intros a; [done|]. simpl. by rewrite IHn.
  - intros n A S HA HS. induction n as [|n IH]; intros Hn.
    + simpl. f_equal. lia.
    + assert (Hn' : safe (A + Z.of_nat n * S)) by (unfold safe in *; nia).
      simpl. rewrite IH by done. rewrite whole_add; [f_equal; lia|done..|].
      replace (A + Z.of_nat n * S + S) with (A + Z.of_nat (Datatypes.S n) * S) by lia.
      done.
Qed.

(** Three rounds on a cancelled booking of two seats: 6 + 3 × 2 seats on a
    ride of 6. *)
Lemma reopening_refunds_again_witness :
  ∃ r', Double.rides (Double.serve (Double.reopen_and_cancel 3 "booking-1")
                        (Double.store_cancelled 2)) !! "ride-1" = Some r'
    ∧ Double.Ride.seatsAvailable r' = 12%float
    ∧ Double.Ride.seatsTotal r' = 6%float.
Proof.
  destruct (proj1 reopening_refunds_again 3%nat "booking-1" (Double.store_cancelled 2)
              (Double.booking_on Booking.cancelled 2) (Double.campus_ride 6 6))
    as (r' & Hr' & Hseats & Htotal & _); [reflexivity..|].
  exists r'. split; [exact Hr'|]. split; [|exact Htotal].
  rewrite Hseats. vm_compute. reflexivity.
Defined.

(** * The ride card *)

(** X23.  The ride card's button tells the truth about a ride whose
    counter is a whole number: where it is enabled ([seatsAvailable] is not
    0), the one-seat request the dashboard sends for that ride is accepted
    and leaves [seatsAvailable - 1], provided the generated id is fresh and
    the ids are non-empty; where it shows "Full", the same request is
    refused with "Only 0 seats available".  It does not where the counter
    is a fraction below 1: after a request of 1.5 seats on a ride of 2 the
    button is enabled, and the one-seat request is refused with "Only 0.5
    seats available". *)
Theorem ride_card_button_is_accurate :
  (∀ (uuid rideId : string) (user : User) (st : Double.Store) (r : Double.Ride.t),
     Double.rides st !! rideId = Some r →
     is_Some (seats_of (Double.Ride.seatsAvailable r)) →
     (Double.RideCard_book_disabled (mapDoc rideId r) = false →
      Double.bookings st !! uuid = None →
      rideId ≠ EmptyString → id_of user ≠ EmptyString →
      ∃ st1, Double.post_bookings uuid (Double.dashboard_request rideId user) st
             = (Double.Json
                  (mapDoc uuid (Double.pending_booking rideId (id_of user) 1)), st1)
        ∧ Double.Ride.seatsAvailable <$> Double.rides st1 !! rideId
          = Some (Double.Ride.seatsAvailable r - 1)%float
        ∧ is_Some (seats_of (Double.Ride.seatsAvailable r - 1)%float))
     ∧ (Double.RideCard_book_disabled (mapDoc rideId r) = true →
        Double.post_bookings uuid (Double.dashboard_request rideId user) st
        = (Double.Status 400 (Double.OnlySeatsAvailable 0), st)))
  ∧ (let st := Double.handle (Double.PostBooking "booking-1" (Double.request_seats 1.5))
                 (Double.fresh_ride 2) in
     Double.rides st !! "ride-1" = Some (Double.campus_ride 2 0.5)
     ∧ Double.RideCard_book_disabled (mapDoc "ride-1" (Double.campus_ride 2 0.5)) = false
     ∧ Double.post_bookings "booking-2"
         (Double.dashboard_request "ride-1" (mapDoc "passenger-2" (signed_up amina))) st
       = (Double.Status 400 (Double.OnlySeatsAvailable 0.5), st)).
Proof.
  split; [|repeat split; vm_compute; reflexivity].
  intros uuid rideId user st r Hr (A & HA & EA)%whole_is.
  rewrite Double_post_bookings_eq. cbn. rewrite Hr.
  unfold Double.RideCard_book_disabled. cbn [fields]. rewrite EA.
  change 0%float with (whole 0). change 1%float with (whole 1).
  rewrite whole_eqb, whole_ltb by (done || by vm_compute). split.
  - intros Hen%Z.eqb_neq Hu Hrid Huid.
    assert (1 ≤ A) by (destruct HA; lia).
    rewrite (proj2 (Z.ltb_ge _ _)) by done.
    unfold Double.bookingSchema_valid. cbn.
    apply String.eqb_neq in Hrid, Huid. rewrite Hrid, Huid. cbn.
    rewrite Hu. rewrite whole_sub by (done || by vm_compute).
    assert (safe (A - 1)) by (unfold safe in *; lia).
    rewrite !whole_not_nan by (done || by vm_compute). cbn [negb].
    eexists. split; [done|]. cbn. rewrite lookup_insert_eq. split; [done|].
    by apply is_whole.
  - intros ->%Z.eqb_eq. done.
Qed.

Lemma ride_card_button_is_accurate_witness :
  Double.post_bookings "booking-3"
    (Double.dashboard_request "ride-1" (mapDoc "passenger-2" (signed_up amina)))
    (Double.serve Double.accept_then_reject (Double.fresh_ride 2))
  = (Double.Status 400 (Double.OnlySeatsAvailable 0),
     Double.serve Double.accept_then_reject (Double.fresh_ride 2)).
Proof.
  apply (proj1 ride_card_button_is_accurate "booking-3" "ride-1"
           (mapDoc "passenger-2" (signed_up amina))
           (Double.serve Double.accept_then_reject (Double.fresh_ride 2))
           (Double.campus_ride 2 0)).
  - vm_compute. reflexivity.
  - exists 0. vm_compute. reflexivity.
  - vm_compute. reflexivity.
Defined.

(** * [getAllBookings] *)

Global Instance newest_first_total : Total newest_first.
Proof. intros a b. unfold newest_first. destruct (String.leb_total b.1 a.1); auto. Qed.

Lemma populate_bookings_eq reviews docs st :
  (bs ← populate_bookings docs; mret (attach_review reviews <$> bs)) st
  = (Returned (populated reviews st <$> docs), st).
Proof.
  induction docs as [|d docs IH]; [done|].
  cbn [populate_bookings]. unfold populate_user, populate_ride,
    UserModel_findById, RideModel_findById in *.
  unfold_async.
  destruct (populate_bookings docs st) as [[others|e] st'] eqn:Hrest;
    [|by destruct (rides st !! _)].
  injection IH as IH1 IH2. subst st'.
  destruct (rides st !! Booking.rideId d.2) as [r|] eqn:Hr; simpl;
    rewrite Hrest; simpl; unfold populated in *; rewrite Hr; simpl;
    do 3 f_equal; exact IH1.
Qed.

Lemma getAllBookings_eq reviews st :
  getAllBookings reviews st
  = (Returned (populated reviews st
                 <$> merge_sort newest_first (map_to_list (bookings st))), st).
Proof.
  unfold getAllBookings, BookingModel_find_sort_id_desc.
  unfold mbind at 1, Async_bind at 1.
  apply populate_bookings_eq.
Qed.

(** X24.  [getAllBookings] returns every stored booking, each once, newest
    id first, whether or not its ride and passenger still exist (a missing
    one is [null]).  An entry keeps the booking's status and [seatsBooked];
    its passenger is the user document named by [passengerId]; its ride is
    the ride document named by [rideId], under that id, with the user
    document named by the ride's [driverId] (or [null]) as its driver.
    Nothing is stripped: the passenger and the driver of an entry are the
    user documents as stored, password included. *)
Theorem getAllBookings_returns_whole_documents
    (reviews : gmap string Review.t) (st : Store) :
  ∃ bs, getAllBookings reviews st = (Returned bs, st)
    ∧ (∀ k, k ∈ pb_id <$> bs ↔ is_Some (bookings st !! k))
    ∧ NoDup (pb_id <$> bs)
    ∧ Sorted (λ a b, String.leb b a = true) (pb_id <$> bs)
    ∧ (∀ e, e ∈ bs →
         ∃ b, bookings st !! pb_id e = Some b
           ∧ pb_status e = Booking.status b
           ∧ pb_seatsBooked e = Booking.seatsBooked b
           ∧ pb_passenger e
             = mapDoc (Booking.passengerId b) <$> users st !! Booking.passengerId b
           ∧ pb_ride e
             = (λ r, {| pr_ride := mapDoc (Booking.rideId b) r;
                        pr_driver := mapDoc (Ride.driverId r)
                                       <$> users st !! Ride.driverId r |})
                 <$> rides st !! Booking.rideId b)
    ∧ (∀ e u, e ∈ bs →
         pb_passenger e = Some u ∨ (∃ r, pb_ride e = Some r ∧ pr_driver r = Some u) →
         users st !! id_of u = Some (fields u)).
Proof.
  eexists. split; [apply getAllBookings_eq|].
  pose proof (merge_sort_Permutation newest_first (map_to_list (bookings st))) as Hperm.
  assert (Hids : pb_id <$> (populated reviews st
                              <$> merge_sort newest_first (map_to_list (bookings st)))
                 = (merge_sort newest_first (map_to_list (bookings st))).*1).
  { rewrite <-list_fmap_compose. by apply list_fmap_ext. }
  assert (Hin : ∀ e, e ∈ populated reviews st
                           <$> merge_sort newest_first (map_to_list (bookings st)) →
                ∃ k b, bookings st !! k = Some b ∧ e = populated reviews st (k, b)).
  { intros e ([k b] & -> & Hkb)%list_elem_of_fmap. rewrite Hperm in Hkb.
    apply elem_of_map_to_list in Hkb. eauto. }
  split; [|split; [|split; [|split]]].
  - intros k. rewrite Hids, Hperm. rewrite list_elem_of_fmap. split.
    + intros ([k' b] & -> & Hkb). apply elem_of_map_to_list in Hkb. by eexists.
    + intros [b Hb]. exists (k, b). split; [done|]. by apply elem_of_map_to_list.
  - rewrite Hids, Hperm. apply NoDup_fst_map_to_list.
  - rewrite Hids. apply (Sorted_fmap _ newest_first); [done|].
    apply Sorted_merge_sort. apply _.
  - intros e (k & b & Hb & ->)%Hin. exists b. simpl. split; [done|].
    repeat split.
  - intros e u (k & b & Hb & ->)%Hin. simpl. intros [Hu|(r & Hr & Hu)].
    + destruct (users st !! Booking.passengerId b) eqn:Hp; [|done].
      by injection Hu as <-.
    + destruct (rides st !! Booking.rideId b) as [r0|]; [|done].
      injection Hr as <-. simpl in Hu.
      destruct (users st !! Ride.driverId r0) eqn:Hd; [|done].
      by injection Hu as <-.
Qed.

(** The booking of a deleted ride is returned, with its passenger's
    password. *)
Example getAllBookings_sample :
  (getAllBookings ∅ store_orphan).1
  = Returned [ {| pb_id := "booking-1"; pb_ride := None;
                  pb_passenger := Some (mapDoc "user-1" (signed_up amina));
                  pb_status := Booking.rejected; pb_seatsBooked := 1;
                  pb_review := None |} ]
  ∧ User.password (signed_up amina) = Some "s3cret"
  ∧ (getBookingsByPassenger "user-1" store_orphan).1 = Returned [].
Proof. repeat split; vm_compute; reflexivity. Qed.

(** * [deleteUser] under every schedule *)

Lemma awaiting_insert tasks (P : Task → Prop) i t t' :
  awaiting tasks P → tasks !! i = Some t → (P t → P t') →
  awaiting (<[i:=t']> tasks) P.
Proof.
  intros (x & Hx & HP) Hi Htt'.
  apply list_elem_of_lookup in Hx as [j Hj].
  destruct (decide (i = j)) as [->|Hij].
  - assert (x = t) as -> by congruence.
    exists t'. split; [|by apply Htt'].
    apply list_elem_of_insert. by eapply lookup_lt_Some.
  - exists x. split; [|done].
    apply list_elem_of_lookup. exists j. by rewrite list_lookup_insert_ne.
Qed.

Lemma awaiting_fulfilled tasks (P : Task → Prop) :
  forallb is_fulfilled tasks = true → awaiting tasks P → P fulfilled.
Proof.
  intros Hall (t & Ht & HP).
  rewrite forallb_forall in Hall.
  assert (is_fulfilled t = true) as Hf.
  { apply Hall. by apply list_elem_of_In. }
  by destruct t.
Qed.

Lemma no_rejection id st0 tasks :
  Forall (task_of id st0) tasks → omap rejection tasks = [].
Proof.
  induction 1 as [|t tasks Ht _ IH]; [done|].
  destruct t; try done; exact IH.
Qed.

Lemma only_deleted_refl {A} (keep : A → Prop) (m : gmap string A) :
  only_deleted keep m m.
Proof. by split. Qed.

Lemma only_deleted_filter {A} (keep : A → Prop) (m0 m : gmap string A)
    (P : string * A → Prop) `{!∀ x, Decision (P x)} :
  only_deleted keep m0 m → (∀ k a, keep a → P (k, a)) →
  only_deleted keep m0 (filter P m).
Proof.
  intros [Hsub Hkeep] HP. split.
  - intros k a [Hk _]%map_lookup_filter_Some. by apply Hsub.
  - intros k a Hk Ha. apply map_lookup_filter_Some. split; [by apply Hkeep|by apply HP].
Qed.

Lemma only_deleted_delete {A} (keep : A → Prop) (m0 m : gmap string A) k :
  only_deleted keep m0 m → (∀ a, m0 !! k = Some a → ¬ keep a) →
  only_deleted keep m0 (delete k m).
Proof.
  intros [Hsub Hkeep] Hk. split.
  - intros j a [_ Hj]%lookup_delete_Some. by apply Hsub.
  - intros j a Hj Ha. apply lookup_delete_Some. split; [|by apply Hkeep].
    intros ->. by eapply Hk.
Qed.

Lemma only_deleted_lookup {A} (keep : A → Prop) (m0 m : gmap string A) k a :
  only_deleted keep m0 m → (∀ k a, m !! k = Some a → keep a) →
  m !! k = Some a ↔ m0 !! k = Some a ∧ keep a.
Proof.
  intros [Hsub Hkeep] Hall. split.
  - intros Hk. split; [by apply Hsub|by eapply Hall].
  - intros [Hk Ha]. by apply Hkeep.
Qed.

Ltac still_awaiting :=
  eapply awaiting_insert; [eauto|eassumption|simpl; try done].

Lemma so_far_step id w0 tasks w i t :
  so_far id w0 tasks w → tasks !! i = Some t →
  so_far id w0 (<[i:=(step t w).1]> tasks) (step t w).2.
Proof.
  intros Hinv Hi.
  pose proof Hinv as (Hu & Hts & (HbA & HbB & HbC & HbE) & (Hr & HrT) & (Hv & HvT)
                      & (Hrv & HrvBy & HrvAbout)).
  pose proof (proj1 (Forall_lookup _ _) Hts _ _ Hi) as Ht.
  destruct w as [st rv]. simpl in *.
  destruct t as [k|k [|[b snapshot] todo]|i'|i'|i'|i'| |e]; simpl in Ht; [..|done].
  - (* [BookingModel.find] of [deleteRide] *)
    simpl.
    assert (Hin : ∀ b bk, bookings st !! b = Some bk → Booking.rideId bk = k →
                   Booking.status bk = Booking.pending →
                   b ∈ (filter (λ kb : string * Booking.t,
                                  bool_decide (Booking.rideId kb.2 = k)
                                  && bool_decide (Booking.status kb.2 = Booking.pending)
                                  = true) (map_to_list (bookings st))).*1).
    { intros b bk Hb Hk Hs. apply list_elem_of_fmap. exists (b, bk). split; [done|].
      apply list_elem_of_filter. split; [|by apply elem_of_map_to_list].
      simpl. by rewrite !bool_decide_eq_true_2. }
    split; [done|]. split; [|split; [|split; [|split]]].
    + apply Forall_insert; [done|]. simpl. split; [done|].
      intros b ([b' bk] & -> & [Hq Hb]%list_elem_of_filter)%list_elem_of_fmap.
      apply elem_of_map_to_list in Hb. simpl in Hq.
      apply andb_true_iff in Hq as [Hk Hs].
      apply bool_decide_eq_true in Hk, Hs.
      destruct (HbA _ _ Hb) as (b0 & Hb0 & (Hride & _) & Hst).
      exists b0. split; [done|]. split; [|congruence].
      destruct Hst as [Hst|[Hst _]]; congruence.
    + split; [done|]. split; [done|]. split.
      * intros. still_awaiting.
      * intros b bk Hb Hs Hd. still_awaiting. intros ->. split; [done|]. eauto.
    + split; [done|]. intros. still_awaiting.
    + split; [done|]. intros. still_awaiting.
    + split; [done|]. split; intros; still_awaiting.
  - (* [RideModel.findByIdAndDelete] of [deleteRide] *)
    destruct Ht as [Hd _]. unfold so_far, bookings_so_far. simpl.
    split; [done|]. split; [|split; [|split; [|split]]].
    + by apply Forall_insert.
    + split; [done|]. split; [done|]. split.
      * intros. still_awaiting.
      * intros. still_awaiting. intros [_ []%elem_of_nil].
    + split.
      * apply only_deleted_delete; [done|].
        intros r Hk. unfold drives in Hd. rewrite Hk in Hd. simpl in Hd.
        intros Hne. congruence.
      * intros j r [Hj Hjr]%lookup_delete_Some Hid.
        eapply awaiting_insert; [eapply HrT; eauto|eassumption|].
        simpl. congruence.
    + split; [done|]. intros. still_awaiting.
    + split; [done|]. split; intros; still_awaiting.
  - (* [BookingModel.findByIdAndUpdate] of [deleteRide] *)
    destruct Ht as [Hd Htodo]. unfold so_far, bookings_so_far. simpl.
    unfold await, BookingModel_findByIdAndUpdate. simpl.
    assert (Htodo' : task_of id w0.1 (deleteRide_loop k todo)).
    { split; [done|]. intros b' Hb'. apply Htodo. right. exact Hb'. }
    destruct (bookings st !! b) as [d|] eqn:Hb; simpl.
    + split; [done|]. split; [|split; [|split; [|split]]].
      * by apply Forall_insert.
      * destruct (HbA _ _ Hb) as (b0 & Hb0 & (Hride & Hpass & Hseats) & Hst).
        destruct (Htodo b) as (b0' & Hb0' & Hpend & Hk); [by left|].
        assert (b0' = b0) as -> by congruence.
        split; [|split; [|split]].
        -- intros j bk [[<- <-]|[Hj Hjb]]%lookup_insert_Some; [|by apply HbA].
           exists b0. split; [done|]. split; [done|]. right. simpl.
           split; [done|]. split; [done|]. by rewrite Hk.
        -- intros j bj Hj Hne. apply lookup_insert_is_Some'. right. eauto.
        -- intros j bk [[<- <-]|[Hj Hjb]]%lookup_insert_Some Hp.
           ++ eapply awaiting_insert; [eapply (HbC b d); eauto|eassumption|done].
           ++ still_awaiting.
        -- intros j bk [[<- <-]|[Hj Hjb]]%lookup_insert_Some Hs Hdr; [done|].
           still_awaiting. intros [-> Hin]. split; [done|].
           apply elem_of_cons in Hin as [?|?]; [|done].
           simpl in *. congruence.
      * split; [done|]. intros. still_awaiting.
      * split; [done|]. intros. still_awaiting.
      * split; [done|]. split; intros; still_awaiting.
    + split; [done|]. split; [|split; [|split; [|split]]].
      * by apply Forall_insert.
      * split; [done|]. split; [done|]. split.
        -- intros. still_awaiting.
        -- intros j bk Hj Hs Hdr. still_awaiting. intros [-> Hin]. split; [done|].
           apply elem_of_cons in Hin as [?|?]; [|done].
           simpl in *. congruence.
      * split; [done|]. intros. still_awaiting.
      * split; [done|]. intros. still_awaiting.
      * split; [done|]. split; intros; still_awaiting.
  - (* [BookingModel.deleteMany] *)
    subst i'. unfold so_far, bookings_so_far. simpl.
    assert (Hq : ∀ kd : string * Booking.t,
               bool_decide (Booking.passengerId kd.2 = id) ≠ true
               ↔ Booking.passengerId kd.2 ≠ id).
    { intros kd. by rewrite bool_decide_eq_true. }
    split; [done|]. split; [|split; [|split; [|split]]].
    + by apply Forall_insert.
    + split; [|split; [|split]].
      * intros b bk [Hb _]%map_lookup_filter_Some. by apply HbA.
      * intros b b0 Hb0 Hne. destruct (HbB _ _ Hb0 Hne) as [bk Hb].
        exists bk. apply map_lookup_filter_Some. split; [done|].
        apply Hq. simpl.
        destruct (HbA _ _ Hb) as (b0' & Hb0' & (_ & Hpass & _) & _).
        congruence.
      * intros b bk [Hb Hne%Hq]%map_lookup_filter_Some Hp. done.
      * intros b bk [Hb _]%map_lookup_filter_Some Hs Hd. still_awaiting.
    + split; [done|]. intros. still_awaiting.
    + split; [done|]. intros. still_awaiting.
    + split; [done|]. split; intros; still_awaiting.
  - (* [VehicleModel.deleteMany] *)
    subst i'. unfold so_far, bookings_so_far. simpl.
    assert (Hq : ∀ kd : string * Vehicle.t,
               bool_decide (Vehicle.ownerId kd.2 = id) ≠ true
               ↔ Vehicle.ownerId kd.2 ≠ id).
    { intros kd. by rewrite bool_decide_eq_true. }
    split; [done|]. split; [|split; [|split; [|split]]].
    + by apply Forall_insert.
    + split; [done|]. split; [done|]. split; intros; still_awaiting.
    + split; [done|]. intros. still_awaiting.
    + split.
      * apply only_deleted_filter; [done|]. intros k a Ha. by apply Hq.
      * intros k v [Hk Hne%Hq]%map_lookup_filter_Some Ho. done.
    + split; [done|]. split; intros; still_awaiting.
  - (* [ReviewModel.deleteMany({ reviewerId })] *)
    subst i'. unfold so_far, bookings_so_far. simpl.
    assert (Hq : ∀ kd : string * Review.t,
               bool_decide (Review.reviewerId kd.2 = id) ≠ true
               ↔ Review.reviewerId kd.2 ≠ id).
    { intros kd. by rewrite bool_decide_eq_true. }
    split; [done|]. split; [|split; [|split; [|split]]].
    + by apply Forall_insert.
    + split; [done|]. split; [done|]. split; intros; still_awaiting.
    + split; [done|]. intros. still_awaiting.
    + split; [done|]. intros. still_awaiting.
    + split; [|split].
      * apply only_deleted_filter; [done|]. intros k a [Ha _]. by apply Hq.
      * intros k r [Hk Hne%Hq]%map_lookup_filter_Some Ho. done.
      * intros k r [Hk _]%map_lookup_filter_Some Ho. still_awaiting.
  - (* [ReviewModel.deleteMany({ revieweeId })] *)
    subst i'. unfold so_far, bookings_so_far. simpl.
    assert (Hq : ∀ kd : string * Review.t,
               bool_decide (Review.revieweeId kd.2 = id) ≠ true
               ↔ Review.revieweeId kd.2 ≠ id).
    { intros kd. by rewrite bool_decide_eq_true. }
    split; [done|]. split; [|split; [|split; [|split]]].
    + by apply Forall_insert.
    + split; [done|]. split; [done|]. split; intros; still_awaiting.
    + split; [done|]. intros. still_awaiting.
    + split; [done|]. intros. still_awaiting.
    + split; [|split].
      * apply only_deleted_filter; [done|]. intros k a [_ Ha]. by apply Hq.
      * intros k r [Hk _]%map_lookup_filter_Some Ho. still_awaiting.
      * intros k r [Hk Hne%Hq]%map_lookup_filter_Some Ho. done.
  - (* a fulfilled task *)
    simpl. by rewrite list_insert_id.
Qed.

Lemma so_far_start id w :
  so_far id w
    (deleteUser_tasks id
       (filter (λ kd : string * Ride.t, bool_decide (Ride.driverId kd.2 = id) = true)
               (map_to_list (rides w.1))))
    w.
Proof.
  assert (Hfind : ∀ k r, rides w.1 !! k = Some r → Ride.driverId r = id →
            awaiting (deleteUser_tasks id
              (filter (λ kd : string * Ride.t,
                         bool_decide (Ride.driverId kd.2 = id) = true)
                      (map_to_list (rides w.1))))
              (λ t, t = deleteRide_find k)).
  { intros k r Hk Hid. exists (deleteRide_find k). split; [|done].
    apply elem_of_app. left. apply list_elem_of_fmap. exists (k, r). split; [done|].
    apply list_elem_of_filter. split; [|by apply elem_of_map_to_list].
    simpl. by apply bool_decide_eq_true. }
  assert (Hmany : ∀ t, t ∈ [ bookings_deleteMany id; vehicles_deleteMany id;
                             reviews_deleteMany_by id; reviews_deleteMany_about id ] →
            awaiting (deleteUser_tasks id
              (filter (λ kd : string * Ride.t,
                         bool_decide (Ride.driverId kd.2 = id) = true)
                      (map_to_list (rides w.1))))
              (λ t', t' = t)).
  { intros t Ht. exists t. split; [|done]. apply elem_of_app. by right. }
  split; [done|]. split; [|split; [|split; [|split]]].
  - apply Forall_app. split.
    + apply Forall_fmap, Forall_forall.
      intros [k r] [Hq Hk%elem_of_map_to_list]%list_elem_of_filter. simpl in *.
      apply bool_decide_eq_true in Hq. unfold drives. by rewrite Hk, <-Hq.
    + by repeat constructor.
  - split; [|split; [|split]].
    + intros b bk Hb. exists bk. split; [done|]. split; [done|]. by left.
    + intros b b0 Hb _. by eexists.
    + intros b bk _ _. apply Hmany. set_solver.
    + intros b bk Hb Hs Hd. unfold drives in Hd.
      destruct (rides w.1 !! Booking.rideId bk) as [r|] eqn:Hr; [|done].
      injection Hd as Hd.
      destruct (Hfind _ _ Hr Hd) as (t & Ht & ->). by exists (deleteRide_find (Booking.rideId bk)).
  - split; [apply only_deleted_refl|].
    intros k r Hk Hid. destruct (Hfind _ _ Hk Hid) as (t & Ht & ->).
    by exists (deleteRide_find k).
  - split; [apply only_deleted_refl|]. intros. apply Hmany. set_solver.
  - split; [apply only_deleted_refl|]. split; intros; apply Hmany; set_solver.
Qed.

Lemma Promise_all_so_far id w0 schedule :
  ∀ tasks w outcome w',
    so_far id w0 tasks w →
    Promise_all schedule tasks w = (Some outcome, w') →
    ∃ tasks', so_far id w0 tasks' w'
              ∧ forallb is_fulfilled tasks' = true ∧ outcome = Returned tt.
Proof.
  assert (Hsettled : ∀ tasks w outcome,
            so_far id w0 tasks w → Promise_all_settled tasks = Some outcome →
            forallb is_fulfilled tasks = true ∧ outcome = Returned tt).
  { intros tasks w outcome (_ & Hts & _). unfold Promise_all_settled.
    rewrite (no_rejection _ _ _ Hts).
    destruct (forallb is_fulfilled tasks); [|done]. by intros [= <-]. }
  induction schedule as [|i schedule IH]; intros tasks w outcome w' Hinv; simpl.
  - destruct (Promise_all_settled tasks) as [o|] eqn:Ho; [|done].
    intros [= <- <-]. exists tasks. split; [done|]. by eapply Hsettled.
  - destruct (Promise_all_settled tasks) as [o|] eqn:Ho.
    { intros [= <- <-]. exists tasks. split; [done|]. by eapply Hsettled. }
    destruct (tasks !! i) as [t|] eqn:Hi; [|by apply IH].
    pose proof (so_far_step _ _ _ _ _ _ Hinv Hi) as Hstep.
    destruct (step t w) as [t' w1]. by apply IH.
Qed.

(** When every task is fulfilled, the collections are those of
    [after_deleteUser], the user's own document apart. *)
Lemma so_far_fulfilled id w0 tasks w :
  so_far id w0 tasks w → forallb is_fulfilled tasks = true →
  (set_users (delete id) w.1, w.2) = after_deleteUser id w0.
Proof.
  intros (Hu & Hts & (HbA & HbB & HbC & HbE) & (Hr & HrT) & (Hv & HvT)
          & (Hrv & HrvBy & HrvAbout)) Hall.
  assert (Hnone : ∀ P, awaiting tasks P → P fulfilled).
  { intros P. by apply awaiting_fulfilled. }
  unfold after_deleteUser, set_users. f_equal; [f_equal|].
  - by rewrite Hu.
  - apply map_eq. intros k. apply option_eq. intros v.
    rewrite map_lookup_filter_Some. simpl.
    apply (only_deleted_lookup (λ v, Vehicle.ownerId v ≠ id)); [done|].
    intros j a Hj Ho. by pose proof (Hnone _ (HvT _ _ Hj Ho)).
  - apply map_eq. intros k. apply option_eq. intros r.
    rewrite map_lookup_filter_Some. simpl.
    apply (only_deleted_lookup (λ r, Ride.driverId r ≠ id)); [done|].
    intros j a Hj Ho. by pose proof (Hnone _ (HrT _ _ Hj Ho)).
  - apply map_eq. intros b. rewrite lookup_fmap.
    destruct (bookings w.1 !! b) as [bk|] eqn:Hb.
    + destruct (HbA _ _ Hb) as (b0 & Hb0 & (Hride & Hpass & Hseats) & Hst).
      assert (Booking.passengerId b0 ≠ id) as Hne.
      { intros Hp. rewrite <-Hpass in Hp. by pose proof (Hnone _ (HbC _ _ Hb Hp)). }
      rewrite (map_lookup_filter_Some_2 _ _ _ _ Hb0 Hne). simpl. f_equal.
      unfold reject_if_pending_with.
      destruct b0 as [r0 p0 s0 n0], bk as [r1 p1 s1 n1]. simpl in *. subst.
      destruct Hst as [->|(-> & -> & Hd)].
      * case_bool_decide as Hs; [|done]. case_bool_decide as Hd; [|done].
        subst. by destruct (Hnone _ (HbE _ _ Hb eq_refl Hd)).
      * by rewrite bool_decide_eq_true_2, bool_decide_eq_true_2.
    + symmetry. apply fmap_None. apply map_lookup_filter_None.
      destruct (bookings w0.1 !! b) as [b0|] eqn:Hb0; [|by left].
      right. intros ? [= <-] Hne. simpl in Hne.
      destruct (HbB _ _ Hb0 Hne) as [? ?]. congruence.
  - apply map_eq. intros k. apply option_eq. intros r.
    rewrite map_lookup_filter_Some. simpl.
    apply (only_deleted_lookup (λ r, Review.reviewerId r ≠ id ∧ Review.revieweeId r ≠ id)); [done|].
    intros j a Hj. split; intros Ho.
    + by pose proof (Hnone _ (HrvBy _ _ Hj Ho)).
    + by pose proof (Hnone _ (HrvAbout _ _ Hj Ho)).
Qed.

(** ** Some schedule lets [Promise.all] settle *)

Lemma run_cons i schedule tasks w :
  run (i :: schedule) tasks w
  = match tasks !! i with
    | Some t => run schedule (<[i:=(step t w).1]> tasks) (step t w).2
    | None => run schedule tasks w
    end.
Proof. simpl. destruct (tasks !! i); [|done]. by destruct (step _ _). Qed.

Lemma run_app s1 s2 tasks w :
  run (s1 ++ s2) tasks w = run s2 (run s1 tasks w).1 (run s1 tasks w).2.
Proof.
  revert tasks w. induction s1 as [|i s1 IH]; intros tasks w; [done|].
  simpl. destruct (tasks !! i) as [t|]; [|apply IH].
  destruct (step t w) as [t' w1]. apply IH.
Qed.

Lemma Promise_all_run schedule :
  ∀ tasks w, is_Some (Promise_all_settled (run schedule tasks w).1) →
             is_Some (Promise_all schedule tasks w).1.
Proof.
  induction schedule as [|i schedule IH]; intros tasks w; simpl.
  - intros [o Ho]. by rewrite Ho.
  - destruct (Promise_all_settled tasks) as [o|]; [by eexists|].
    destruct (tasks !! i) as [t|]; [|apply IH].
    destruct (step t w) as [t' w1]. apply IH.
Qed.

Lemma finish_loop k todo :
  ∀ i tasks w, tasks !! i = Some (deleteRide_loop k todo) →
    (run (replicate (S (length todo)) i) tasks w).1 = <[i:=fulfilled]> tasks.
Proof.
  induction todo as [|b todo IH]; intros i tasks w Hi.
  - simpl. by rewrite Hi.
  - change (replicate (S (length (b :: todo))) i)
      with (i :: replicate (S (length todo)) i).
    rewrite run_cons, Hi.
    assert ((step (deleteRide_loop k (b :: todo)) w).1 = deleteRide_loop k todo) as ->.
    { simpl. unfold await, BookingModel_findByIdAndUpdate.
      by destruct (bookings w.1 !! b.1). }
    rewrite IH.
    + apply list_insert_insert_eq.
    + apply list_lookup_insert_eq. by eapply lookup_lt_Some.
Qed.

Lemma finish_one t :
  ∀ i tasks w, tasks !! i = Some t → rejection t = None →
    ∃ n, (run (replicate n i) tasks w).1 = <[i:=fulfilled]> tasks.
Proof.
  intros i tasks w Hi Ht. destruct t as [k|k todo|j|j|j|j| |e]; [..|done].
  - destruct (step (deleteRide_find k) w) as [t' w1] eqn:Hstep.
    assert (∃ todo, t' = deleteRide_loop k todo) as [todo ->].
    { injection Hstep as <- _. by eexists. }
    exists (S (S (length todo))).
    change (replicate (S (S ?n)) i) with (i :: replicate (S n) i).
    rewrite run_cons, Hi, Hstep. cbn [fst snd]. rewrite (finish_loop k todo).
    + apply list_insert_insert_eq.
    + apply list_lookup_insert_eq. by eapply lookup_lt_Some.
  - exists (S (length todo)). by apply (finish_loop k).
  - exists 1%nat. simpl. by rewrite Hi.
  - exists 1%nat. simpl. by rewrite Hi.
  - exists 1%nat. simpl. by rewrite Hi.
  - exists 1%nat. simpl. by rewrite Hi.
  - exists 0%nat. simpl. by rewrite list_insert_id.
Qed.

Lemma step_not_rejected t w :
  rejection t = None → rejection (step t w).1 = None.
Proof.
  destruct t as [k|k [|b todo]|j|j|j|j| |e]; try done.
  simpl. unfold await, BookingModel_findByIdAndUpdate.
  by destruct (bookings w.1 !! b.1).
Qed.

Lemma run_not_rejected schedule :
  ∀ tasks w, Forall (λ t, rejection t = None) tasks →
             Forall (λ t, rejection t = None) (run schedule tasks w).1.
Proof.
  induction schedule as [|i schedule IH]; intros tasks w Hts; [done|].
  simpl. destruct (tasks !! i) as [t|] eqn:Hi; [|by apply IH].
  pose proof (step_not_rejected t w) as Hstep.
  destruct (step t w) as [t' w1]. apply IH.
  apply Forall_insert; [done|]. apply Hstep.
  by apply (proj1 (Forall_lookup _ _) Hts _ _ Hi).
Qed.

Lemma finish_first n :
  ∀ tasks w, Forall (λ t, rejection t = None) tasks →
    ∃ schedule,
      length (run schedule tasks w).1 = length tasks
      ∧ ∀ j t, (j < n)%nat → (run schedule tasks w).1 !! j = Some t → t = fulfilled.
Proof.
  induction n as [|n IH]; intros tasks w Hts.
  - exists []. split; [done|]. intros; lia.
  - destruct (IH tasks w Hts) as (s & Hlen & Hdone).
    pose proof (run_not_rejected s tasks w Hts) as Hts1.
    destruct ((run s tasks w).1 !! n) as [t|] eqn:Hn.
    + destruct (finish_one t n (run s tasks w).1 (run s tasks w).2 Hn) as [m Hm].
      { by apply (proj1 (Forall_lookup _ _) Hts1 _ _ Hn). }
      exists (s ++ replicate m n). rewrite run_app, Hm. split.
      * by rewrite length_insert.
      * intros j t' Hj. destruct (decide (n = j)) as [<-|Hne].
        -- rewrite list_lookup_insert_eq by (by eapply lookup_lt_Some). congruence.
        -- rewrite list_lookup_insert_ne by done. apply Hdone. lia.
    + exists s. split; [done|]. intros j t' Hj Hjt.
      destruct (decide (j = n)) as [->|Hne]; [congruence|].
      eapply Hdone; [|done]. lia.
Qed.

Lemma Promise_all_settles tasks w :
  Forall (λ t, rejection t = None) tasks →
  ∃ schedule, is_Some (Promise_all schedule tasks w).1.
Proof.
  intros Hts.
  destruct (finish_first (length tasks) tasks w Hts) as (s & Hlen & Hdone).
  exists s. apply Promise_all_run. unfold Promise_all_settled.
  destruct (omap rejection (run s tasks w).1); [|by eexists].
  replace (forallb is_fulfilled (run s tasks w).1) with true; [by eexists|].
  symmetry. apply forallb_forall. intros t Ht%list_elem_of_In.
  apply list_elem_of_lookup in Ht as [j Hj].
  rewrite (Hdone j t); [done| |done].
  rewrite <-Hlen. by eapply lookup_lt_Some.
Qed.

(** ** The outcome of [Promise.all] in [deleteUser] *)

Lemma deleteUser_tasks_settled id w schedule outcome w2 :
  Promise_all schedule
    (deleteUser_tasks id
       (filter (λ kd : string * Ride.t, bool_decide (Ride.driverId kd.2 = id) = true)
               (map_to_list (rides w.1)))) w = (Some outcome, w2) →
  outcome = Returned tt
  ∧ users w2.1 = users w.1
  ∧ (set_users (delete id) w2.1, w2.2) = after_deleteUser id w.
Proof.
  intros HP.
  destruct (Promise_all_so_far _ _ _ _ _ _ _ (so_far_start id w) HP)
    as (tasks' & Hinv & Hall & ->).
  split; [done|]. split; [apply Hinv|]. by eapply so_far_fulfilled.
Qed.

(** X25.  [deleteUser] comes to an end under some schedule of its tasks,
    and whatever the schedule, it returns whether the user existed and
    leaves the same collections: the user, their vehicles, their rides,
    the bookings they made and the reviews by or about them are gone; the
    bookings of others that were pending on their rides are rejected; and
    nothing else has changed. *)
Theorem deleteUser_whatever_the_schedule (id : string) (w : World) :
  (∃ schedule, is_Some (deleteUser schedule id w))
  ∧ ∀ schedule success w',
      deleteUser schedule id w = Some (success, w') →
      success = bool_decide (is_Some (users w.1 !! id))
      ∧ w' = after_deleteUser id w.
Proof.
  split.
  - destruct (Promise_all_settles
                (deleteUser_tasks id
                   (filter (λ kd : string * Ride.t,
                              bool_decide (Ride.driverId kd.2 = id) = true)
                           (map_to_list (rides w.1)))) w) as [s [o Hs]].
    { apply Forall_app. split; [|by repeat constructor].
      apply Forall_fmap, Forall_forall. by intros. }
    exists s. unfold deleteUser, RideModel_find. destruct w as [st rv]. simpl in *.
    destruct (Promise_all s _ (st, rv)) as [[[[]|e]|] w2];
      [by eexists|by eexists|by simpl in Hs].
  - intros schedule success w'. unfold deleteUser, RideModel_find.
    destruct w as [st rv]. simpl.
    destruct (Promise_all schedule _ (st, rv)) as [[o|] w2] eqn:HP; [|done].
    destruct (deleteUser_tasks_settled id (st, rv) _ _ _ HP) as (-> & Hu & Hw).
    unfold UserModel_findByIdAndDelete. simpl in *.
    intros [= <- <-]. by rewrite Hu.
Qed.

(** A [deleteRide] task that runs alone does what [deleteRide] does. *)
Lemma deleteRide_loop_alone id rv todo :
  ∀ st, run (replicate (S (length todo)) 0%nat) [deleteRide_loop id todo] (st, rv)
        = ([fulfilled],
           (set_rides (delete id)
              (set_bookings (λ m, foldl (λ m kb,
                 alter (Booking.patch (Booking.only_status Booking.rejected)) kb.1 m)
                 m todo) st), rv)).
Proof.
  induction todo as [|b todo IH]; intros st.
  - simpl. by rewrite set_bookings_id.
  - change (replicate (S (length (b :: todo))) 0%nat)
      with (0%nat :: replicate (S (length todo)) 0%nat).
    rewrite run_cons. cbn [lookup list_lookup step]. unfold await. cbn [fst snd].
    rewrite BookingModel_findByIdAndUpdate_alter. cbn [fst snd insert list_insert].
    rewrite IH. by destruct st.
Qed.

Lemma deleteRide_alone id st rv :
  ∃ n, run (replicate n 0%nat) [deleteRide_find id] (st, rv)
       = ([fulfilled], ((deleteRide id st).2, rv)).
Proof.
  eexists (S (S _)).
  change (replicate (S (S ?n)) 0%nat) with (0%nat :: replicate (S n) 0%nat).
  rewrite run_cons. cbn [lookup list_lookup step]. unfold await. cbn [fst snd].
  unfold BookingModel_find at 1 2. cbn [fst snd insert list_insert].
  rewrite deleteRide_loop_alone.
  unfold deleteRide, BookingModel_find, RideModel_findByIdAndDelete.
  unfold mbind at 1, Async_bind at 1.
  unfold mbind at 1, Async_bind at 1.
  rewrite for_of_reject. by unfold_async.
Qed.

(** ** The seats of the bookings [deleteUser] removes *)

Lemma occupies_nonneg k b : 0 ≤ Booking.seatsBooked b → 0 ≤ occupies k b.
Proof. intros. unfold occupies. destruct (_ && _); lia. Qed.

Lemma seatsReserved_filter_le k (P : string * Booking.t → Prop)
    `{!∀ x, Decision (P x)} (bs : gmap string Booking.t) :
  map_Forall (λ _ b, 0 ≤ Booking.seatsBooked b) bs →
  seatsReserved (filter P bs) k ≤ seatsReserved bs k.
Proof.
  induction bs as [|i b bs Hi IH] using map_ind; intros Hnn.
  - by rewrite map_filter_empty.
  - apply map_Forall_insert in Hnn as [Hb Hnn]; [|done].
    specialize (IH Hnn). pose proof (occupies_nonneg k b Hb).
    rewrite (seatsReserved_insert_fresh k bs i b Hi).
    destruct (decide (P (i, b))) as [HP|HP].
    + rewrite map_filter_insert_True by done.
      rewrite seatsReserved_insert_fresh; [lia|].
      apply map_lookup_filter_None. by left.
    + rewrite map_filter_insert_False by done.
      rewrite delete_id by done. lia.
Qed.

Lemma seatsReserved_filter_lt k (P : string * Booking.t → Prop)
    `{!∀ x, Decision (P x)} (bs : gmap string Booking.t) i b :
  map_Forall (λ _ b, 0 ≤ Booking.seatsBooked b) bs →
  bs !! i = Some b → ¬ P (i, b) → 0 < occupies k b →
  seatsReserved (filter P bs) k < seatsReserved bs k.
Proof.
  intros Hnn Hi HP Hocc.
  rewrite <-(insert_delete_id bs i b Hi) at 1 2.
  rewrite map_filter_insert_False by done.
  rewrite delete_delete_eq.
  rewrite seatsReserved_insert_fresh by apply lookup_delete_eq.
  assert (seatsReserved (filter P (delete i bs)) k ≤ seatsReserved (delete i bs) k);
    [|lia].
  apply seatsReserved_filter_le.
  intros j bj [_ Hj]%lookup_delete_Some. by eapply Hnn.
Qed.

(** X26.  [deleteUser] returns no seats.  A booking the user made is
    deleted whatever its status, and the ride of another driver it was on
    is left as it was: the seats the booking held are not added back to
    [seatsAvailable], so a store that conserved seats no longer does. *)
Theorem deleteUser_returns_no_seats
    (schedule : list nat) (id : string) (w : World) (success : bool) (w' : World)
    (k : string) (r : Ride.t) (b : string) (bk : Booking.t) :
  deleteUser schedule id w = Some (success, w') →
  map_Forall (λ _ b, 0 ≤ Booking.seatsBooked b) (bookings w.1) →
  rides w.1 !! k = Some r → Ride.driverId r ≠ id →
  bookings w.1 !! b = Some bk → Booking.passengerId bk = id →
  0 < occupies k bk →
  rides w'.1 !! k = Some r
  ∧ bookings w'.1 !! b = None
  ∧ seatsReserved (bookings w'.1) k < seatsReserved (bookings w.1) k
  ∧ (conservation w.1 → ¬ conservation w'.1).
Proof.
  intros Hdel Hnn Hk Hdriver Hb Hpass Hocc.
  assert (w' = after_deleteUser id w) as ->.
  { revert Hdel. unfold deleteUser, RideModel_find.
    destruct w as [st rv]. simpl.
    destruct (Promise_all schedule _ (st, rv)) as [[o|] w2] eqn:HP; [|done].
    destruct (deleteUser_tasks_settled id (st, rv) _ _ _ HP) as (-> & _ & Hw).
    unfold UserModel_findByIdAndDelete. simpl in *. by intros [= _ <-]. }
  destruct w as [st rv]. simpl in *.
  assert (Hride : rides (after_deleteUser id (st, rv)).1 !! k = Some r).
  { simpl. by apply map_lookup_filter_Some. }
  assert (Hlt : seatsReserved (bookings (after_deleteUser id (st, rv)).1) k
                < seatsReserved (bookings st) k).
  { simpl. rewrite seatsReserved_fmap.
    - apply (seatsReserved_filter_lt k _ _ b bk); [done|done| |done].
      simpl. intros Hne. by apply Hne.
    - intros b'. unfold reject_if_pending_with.
      destruct (bool_decide (Booking.status b' = Booking.pending)); [|done].
      case_bool_decide as Hd; [|done]. simpl.
      assert (Booking.rideId b' ≠ k) as Hne.
      { intros Heq. unfold drives in Hd. rewrite Heq, Hk in Hd. simpl in Hd. congruence. }
      by rewrite !occupies_other. }
  split; [done|]. split; [|split; [done|]].
  - simpl. rewrite lookup_fmap. apply fmap_None, map_lookup_filter_None.
    right. intros x Hx. rewrite Hb in Hx. injection Hx as <-.
    simpl. intros Hne. by apply Hne.
  - intros Hc Hc'. specialize (Hc _ _ Hk). specialize (Hc' _ _ Hride). simpl in *. lia.
Qed.

Lemma deleteUser_returns_no_seats_witness :
  let w' := after_deleteUser "user-1" (store_campus, ∅) in
  rides w'.1 !! "ride-1" = Some (campus_ride 3 1)
  ∧ bookings w'.1 !! "booking-1" = None
  ∧ seatsReserved (bookings w'.1) "ride-1"
    < seatsReserved (bookings store_campus) "ride-1"
  ∧ (conservation store_campus → ¬ conservation w'.1).
Proof.
  apply (deleteUser_returns_no_seats [1; 0; 2; 0; 3; 0; 4]%nat "user-1"
           (store_campus, ∅) true _ "ride-1" (campus_ride 3 1) "booking-1"
           {| Booking.rideId := "ride-1"; Booking.passengerId := "user-1";
              Booking.status := Booking.accepted; Booking.seatsBooked := 2 |}).
  - vm_compute. reflexivity.
  - apply (bool_decide_unpack _). vm_compute. exact I.
  - vm_compute. reflexivity.
  - vm_compute. discriminate.
  - vm_compute. reflexivity.
  - reflexivity.
  - vm_compute. reflexivity.
Defined.

(** Amina's account, deleted under two schedules: the same collections
    are left, with [booking-2] rejected, [ride-1] as it was and nothing
    else. *)
Example deleteUser_sample :
  deleteUser [0; 0; 0; 1; 2; 3; 4]%nat "user-1" (store_campus, ∅)
  = deleteUser [4; 3; 2; 1; 0; 7; 0; 0]%nat "user-1" (store_campus, ∅)
  ∧ deleteUser [0; 1; 2; 3; 4]%nat "user-1" (store_campus, ∅) = None
  ∧ deleteUser [1; 0; 2; 0; 3; 0; 4]%nat "user-1" (store_campus, ∅)
    = Some (true,
            ({| users := ∅; vehicles := ∅;
                rides := {[ "ride-1" := campus_ride 3 1 ]};
                bookings := {[ "booking-2" :=
                  {| Booking.rideId := "ride-2"; Booking.passengerId := "passenger-1";
                     Booking.status := Booking.rejected;
                     Booking.seatsBooked := 1 |} ]} |}, ∅)).
Proof. repeat split; vm_compute; reflexivity. Qed.
